(** * simple-cli-shell: command dispatch and job control

    A shallow embedding of [simpl_cli/commands/executor.py]
    (class [ShellCommandExecutor]) and the properties its specification
    states about job control, aliases, environment builtins and [cd].

    Conventions.
    - A Python [str] is a [string]; a character is a code point below 256.
      The strings of an alias table as JSON writes and reads them are
      [Text.text]: lists of code points, any of them.
    - A Python [int] is a [Z].
    - A [dict] is a [gmap]; the alias table, whose order shows in the alias
      file, is the list of its items in insertion order.
      [collections.deque] is a [list] whose head is the left end.
    - What the operating system answers (does a signal go through, does a
      directory exist, what does [poll] report) is an explicit argument of
      the operation that asks. *)

From Stdlib Require Import ZArith NArith Ascii String Bool Lia Sorted.
From stdpp Require Import gmap strings list fin_maps pretty.

Local Open Scope string_scope.
Local Open Scope Z_scope.

(** ** Python string primitives *)

Module Py.

(** [str.isspace] on one character, code points below 256: TAB..CR,
    FS..US, SPACE, NEL and NBSP. *)
Definition isspace (c : ascii) : bool :=
  let n := nat_of_ascii c in
  ((9 <=? n) && (n <=? 13) || (28 <=? n) && (n <=? 32)
   || (n =? 133) || (n =? 160))%nat.

(** [s.lstrip()], [s.rstrip()], [s.strip()] *)
Fixpoint lstrip (s : string) : string :=
  match s with
  | String c r => if isspace c then lstrip r else s
  | EmptyString => EmptyString
  end.

Fixpoint rstrip (s : string) : string :=
  match s with
  | String c r =>
      match rstrip r with
      | EmptyString => if isspace c then EmptyString else String c EmptyString
      | r' => String c r'
      end
  | EmptyString => EmptyString
  end.

Definition strip (s : string) : string := lstrip (rstrip s).

(** [s.startswith(p)] and [s.endswith(p)] *)
Fixpoint startswith (s p : string) {struct p} : bool :=
  match p with
  | EmptyString => true
  | String a p' =>
      match s with
      | String b s' => Ascii.eqb a b && startswith s' p'
      | EmptyString => false
      end
  end.

Fixpoint endswith (s p : string) : bool :=
  String.eqb s p
  || match s with
     | String _ r => endswith r p
     | EmptyString => false
     end.

(** [sub in s] *)
Fixpoint contains (sub s : string) : bool :=
  startswith s sub
  || match s with
     | String _ r => contains sub r
     | EmptyString => false
     end.

(** [s[n:]] *)
Fixpoint drop (n : nat) (s : string) : string :=
  match n, s with
  | S k, String _ r => drop k r
  | _, _ => s
  end.

(** [s.split()]: the maximal runs of non-whitespace characters. *)
Fixpoint split_go (cur : string) (s : string) : list string :=
  match s with
  | EmptyString =>
      match cur with EmptyString => [] | _ => [String.rev cur] end
  | String c r =>
      if isspace c
      then match cur with
           | EmptyString => split_go EmptyString r
           | _ => String.rev cur :: split_go EmptyString r
           end
      else split_go (String c cur) r
  end.

Definition split (s : string) : list string := split_go EmptyString s.

(** [sep.join(parts)] *)
Fixpoint join (sep : string) (parts : list string) : string :=
  match parts with
  | [] => EmptyString
  | [p] => p
  | p :: ps => p ++ sep ++ join sep ps
  end.

(** [s.split("=", 1)] on a string that contains the separator: the text
    before the first occurrence and the text after it. *)
Fixpoint partition (sep : ascii) (s : string) : option (string * string) :=
  match s with
  | EmptyString => None
  | String c r =>
      if Ascii.eqb c sep then Some (EmptyString, r)
      else match partition sep r with
           | Some (a, b) => Some (String c a, b)
           | None => None
           end
  end.

(** [s.strip(chars)] *)
Fixpoint lstrip_chars (chars : string) (s : string) : string :=
  match s with
  | String c r =>
      if contains (String c EmptyString) chars then lstrip_chars chars r else s
  | EmptyString => EmptyString
  end.

Fixpoint rstrip_chars (chars : string) (s : string) : string :=
  match s with
  | String c r =>
      match rstrip_chars chars r with
      | EmptyString =>
          if contains (String c EmptyString) chars then EmptyString
          else String c EmptyString
      | r' => String c r'
      end
  | EmptyString => EmptyString
  end.

Definition strip_chars (chars : string) (s : string) : string :=
  lstrip_chars chars (rstrip_chars chars s).

(** [s.split(sep)] for a one-character separator: empty parts are kept. *)
Fixpoint split_on (sep : ascii) (s : string) : list string :=
  match s with
  | EmptyString => [EmptyString]
  | String c r =>
      if Ascii.eqb c sep then EmptyString :: split_on sep r
      else match split_on sep r with
           | p :: ps => String c p :: ps
           | [] => [String c EmptyString]
           end
  end.

(** [os.path.basename] with ["/"] as the separator *)
Fixpoint basename (p : string) : string :=
  match p with
  | EmptyString => EmptyString
  | String c r =>
      if contains "/" r then basename r
      else if Ascii.eqb c "/" then r else p
  end.

(** *** [int(s)]

    Base ten.  Leading and trailing whitespace is skipped, one sign is
    allowed, and the digits may be grouped by single underscores.  The
    whitespace of [int] is the C one (TAB..CR and SPACE) together with
    NEL and NBSP, which the conversion maps to a space. *)
Definition int_space (c : ascii) : bool :=
  let n := nat_of_ascii c in
  ((9 <=? n) && (n <=? 13) || (n =? 32) || (n =? 133) || (n =? 160))%nat.

Definition digit (c : ascii) : option Z :=
  let n := nat_of_ascii c in
  if ((48 <=? n) && (n <=? 57))%nat then Some (Z.of_nat n - 48) else None.

Fixpoint int_skip (s : string) : string :=
  match s with
  | String c r => if int_space c then int_skip r else s
  | EmptyString => EmptyString
  end.

Fixpoint all_int_space (s : string) : bool :=
  match s with
  | String c r => int_space c && all_int_space r
  | EmptyString => true
  end.

(** More digits than this and [int] refuses the text
    ([sys.int_info.default_max_str_digits]). *)
Definition max_str_digits : nat := 4300.

Definition int_finish (count : nat) (acc : Z) : option Z :=
  if (count <=? max_str_digits)%nat then Some acc else None.

(** The digits after the first one; [count] digits were read so far and
    [acc] is their value. *)
Fixpoint int_digits (count : nat) (acc : Z) (s : string) : option Z :=
  match s with
  | EmptyString => int_finish count acc
  | String c r =>
      match digit c with
      | Some d => int_digits (S count) (10 * acc + d) r
      | None =>
          if Ascii.eqb c "_"
          then match r with
               | String c' r' =>
                   match digit c' with
                   | Some d => int_digits (S count) (10 * acc + d) r'
                   | None => None
                   end
               | EmptyString => None
               end
          else if all_int_space s then int_finish count acc else None
      end
  end.

Definition int_unsigned (s : string) : option Z :=
  match s with
  | String c r =>
      match digit c with
      | Some d => int_digits 1 d r
      | None => None
      end
  | EmptyString => None
  end.

Definition int (s : string) : option Z :=
  match int_skip s with
  | String "+" r => int_unsigned r
  | String "-" r => Z.opp <$> int_unsigned r
  | s' => int_unsigned s'
  end.

(** A plain decimal numeral (one digit or more and nothing else) and the
    number it writes; they say what [int] reads in the usual case. *)
Fixpoint all_digits (s : string) : bool :=
  match s with
  | String c r => bool_decide (is_Some (digit c)) && all_digits r
  | EmptyString => true
  end.

Definition is_numeral (s : string) : bool :=
  match s with
  | String _ _ => all_digits s
  | EmptyString => false
  end.

Fixpoint numeral_value (acc : Z) (s : string) : Z :=
  match s with
  | String c r => numeral_value (10 * acc + default 0 (digit c)) r
  | EmptyString => acc
  end.

End Py.

(** ** Job control

    [ShellCommandExecutor.jobs], [task_queue], [next_job_id] and
    [foreground_job], with the operations that read and write them. *)

Module Jobs.

(** The four values the ["status"] key of a job ever holds. *)
Inductive Status : Set := running | stopped | done | failed.

Definition Status_eqb (a b : Status) : bool :=
  match a, b with
  | running, running | stopped, stopped | done, done | failed, failed => true
  | _, _ => false
  end.

(** One entry of [self.jobs].  ["process"] is the [Popen] handle, of which
    the model keeps the cached [returncode]; ["exit_code"] is absent until
    something records it.  The two timestamps are left out. *)
Record Job : Set := mkJob {
  job_id : Z;
  job_pid : Z;
  job_pgid : option Z;
  job_returncode : option Z;
  job_command : string;
  job_status : Status;
  job_exit_code : option Z
}.

Definition with_status (s : Status) (j : Job) : Job :=
  mkJob (job_id j) (job_pid j) (job_pgid j) (job_returncode j)
        (job_command j) s (job_exit_code j).

Definition with_exit_code (c : Z) (j : Job) : Job :=
  mkJob (job_id j) (job_pid j) (job_pgid j) (job_returncode j)
        (job_command j) (job_status j) (Some c).

Definition with_returncode (rc : option Z) (j : Job) : Job :=
  mkJob (job_id j) (job_pid j) (job_pgid j) rc
        (job_command j) (job_status j) (job_exit_code j).

(** The executor's job-control fields, followed by the two pieces of the
    surrounding process they interact with: the monitor threads that are
    still looping, and the process group that owns the terminal ([None]
    is the shell itself). *)
Record Executor : Type := mkExecutor {
  jobs : gmap Z Job;
  task_queue : list Z;
  next_job_id : Z;
  foreground_job : option Z;
  saved_terminal : bool;
  monitors : gset Z;
  terminal_owner : option Z
}.

(** [__init__] *)
Definition init : Executor :=
  mkExecutor ∅ [] 1 None false ∅ None.

Definition with_jobs (m : gmap Z Job) (e : Executor) : Executor :=
  mkExecutor m (task_queue e) (next_job_id e) (foreground_job e)
             (saved_terminal e) (monitors e) (terminal_owner e).

Definition with_foreground (f : option Z) (e : Executor) : Executor :=
  mkExecutor (jobs e) (task_queue e) (next_job_id e) f
             (saved_terminal e) (monitors e) (terminal_owner e).

Definition with_monitors (ms : gset Z) (e : Executor) : Executor :=
  mkExecutor (jobs e) (task_queue e) (next_job_id e) (foreground_job e)
             (saved_terminal e) ms (terminal_owner e).

Definition with_terminal (saved : bool) (o : option Z) (e : Executor) : Executor :=
  mkExecutor (jobs e) (task_queue e) (next_job_id e) (foreground_job e)
             saved (monitors e) o.

(** [job_info[...] = ...] on the entry of [job_id]; the entry is the
    object stored in the table, so the table sees the assignment. *)
Definition update_job (job_id : Z) (f : Job -> Job) (e : Executor) : Executor :=
  with_jobs (alter f job_id (jobs e)) e.

(** *** What the operating system answers *)

Inductive Poll : Set := StillRunning | Exited (code : Z) | PollRaises.

Record OS : Type := mkOS {
  posix : bool;                  (* os.name != "nt" *)
  killpg_ok : Z -> Z -> bool;    (* os.killpg(pgid, sig) does not raise *)
  kill_ok : Z -> Z -> bool;      (* os.kill(pid, sig) does not raise *)
  tcsetpgrp_ok : Z -> bool;      (* the terminal can be handed to pgid *)
  restore_ok : bool;             (* the terminal can be taken back *)
  tcsetattr_ok : bool;           (* the saved settings can be put back *)
  poll_answer : Z -> Poll        (* what polling the process pid finds *)
}.

Inductive Syscall : Set :=
| KillPg (pgid sig : Z) (ok : bool)
| Kill (pid sig : Z) (ok : bool).

Definition SIGINT : Z := 2.
Definition SIGKILL : Z := 9.
Definition SIGTERM : Z := 15.
Definition SIGCONT : Z := 18.
Definition SIGTSTP : Z := 20.

(** Truthiness of [job_info.get("pgid")] and [job_info.get("pid")]. *)
Definition truthy_opt (o : option Z) : bool :=
  match o with
  | Some n => negb (n =? 0)
  | None => false
  end.

(** *** [_send_signal_to_job] *)

Definition signal_job (os : OS) (j : Job) (sig : Z) : bool * list Syscall :=
  if negb (truthy_opt (job_pgid j)) || (job_pid j =? 0) then (false, [])
  else
    match job_pgid j with
    | Some pgid =>
        if killpg_ok os pgid sig then (true, [KillPg pgid sig true])
        else if kill_ok os (job_pid j) sig
             then (true, [KillPg pgid sig false; Kill (job_pid j) sig true])
             else (false, [KillPg pgid sig false; Kill (job_pid j) sig false])
    | None => (false, [])
    end.

Definition _send_signal_to_job (os : OS) (e : Executor) (job_id sig : Z)
  : bool * list Syscall :=
  match jobs e !! job_id with
  | Some j => signal_job os j sig
  | None => (false, [])
  end.

(** *** [_set_foreground_process_group], [_restore_terminal_control] *)

Definition _set_foreground_process_group (os : OS) (e : Executor) (pgid : Z)
  : Executor * bool :=
  if negb (posix os) then (e, false)
  else if tcsetpgrp_ok os pgid then (with_terminal true (Some pgid) e, true)
  else (e, false).

Definition _restore_terminal_control (os : OS) (e : Executor) : Executor * bool :=
  if negb (posix os) || negb (saved_terminal e) then (e, false)
  else if restore_ok os
       then (with_terminal true None e, tcsetattr_ok os)
       else (e, false).

(** *** [Popen.poll] and [Popen.wait]

    Both answer from the cached [returncode] when there is one. *)
Definition poll (os : OS) (j : Job) : Poll :=
  match job_returncode j with
  | Some c => Exited c
  | None => poll_answer os (job_pid j)
  end.

Inductive Wait : Set :=
| WaitExit (code : Z)     (* the process ends with this status *)
| WaitRaises              (* an Exception inside the try block *)
| WaitInterrupted.        (* KeyboardInterrupt, which is no Exception *)

Definition wait (w : Wait) (j : Job) : Wait :=
  match job_returncode j with
  | Some c => WaitExit c
  | None => w
  end.

(** *** [_execute_background_command] *)

Inductive Spawn : Set :=
| Spawned (pid : Z) (pgid : option Z)
| SpawnFails.

Inductive Launch : Set :=
| Launched (job_id : Z)
| Passthrough
| LaunchError.

(** [stripped[:i]] with [i = len(stripped) - 1] *)
Fixpoint drop_last (s : string) : string :=
  match s with
  | String c EmptyString => EmptyString
  | String c r => String c (drop_last r)
  | EmptyString => EmptyString
  end.

(** [stripped[i]] and [stripped[i - 1]] read from the reversed text. *)
Definition last_two (s : string) : option ascii * option ascii :=
  match String.rev s with
  | String a (String b _) => (Some a, Some b)
  | String a EmptyString => (Some a, None)
  | EmptyString => (None, None)
  end.

Definition _execute_background_command (command : string) (sp : Spawn)
           (e : Executor) : Executor * Launch :=
  let stripped := Py.rstrip command in
  match last_two stripped with
  | (None, _) => (e, LaunchError)
  | (Some a, prev) =>
      if negb (Ascii.eqb a "&") then (e, Passthrough)
      else if match prev with Some b => Ascii.eqb b "&" | None => false end
      then (e, Passthrough)
      else
        let cmd_to_run := Py.rstrip (drop_last stripped) in
        match cmd_to_run with
        | EmptyString => (e, LaunchError)
        | _ =>
            let job_id := next_job_id e in
            let e1 := mkExecutor (jobs e) (task_queue e) (job_id + 1)
                        (foreground_job e) (saved_terminal e)
                        (monitors e) (terminal_owner e) in
            match sp with
            | SpawnFails => (e1, LaunchError)
            | Spawned pid pgid =>
                let job := mkJob job_id pid pgid None cmd_to_run running None in
                (mkExecutor (<[job_id := job]> (jobs e1))
                            (job_id :: task_queue e1)
                            (next_job_id e1) (foreground_job e1)
                            (saved_terminal e1)
                            ({[job_id]} ∪ monitors e1)
                            (terminal_owner e1),
                 Launched job_id)
            end
        end
  end.

(** *** [_monitor_background_job]: one turn of the loop of [monitor] *)

Definition monitor_tick (os : OS) (job_id : Z) (e : Executor) : Executor :=
  if decide (job_id ∈ monitors e) then
    let stop := with_monitors (monitors e ∖ {[job_id]}) in
    match jobs e !! job_id with
    | None => stop e
    | Some j =>
        match poll os j with
        | Exited c =>
            stop (update_job job_id
                    (fun j => with_exit_code c
                                (with_status done
                                   (with_returncode (Some c) j))) e)
        | PollRaises => stop (update_job job_id (with_status failed) e)
        | StillRunning =>
            if Status_eqb (job_status j) stopped then stop e else e
        end
    end
  else e.

(** *** [_parse_job_spec] *)

Definition _parse_job_spec (e : Executor) (spec : string) : option Z :=
  let spec := Py.strip spec in
  if String.eqb spec "+" || String.eqb spec "%+" then
    match task_queue e with
    | j :: _ => Some j
    | [] => None
    end
  else if String.eqb spec "-" || String.eqb spec "%-" then
    if (1 <? Z.of_nat (length (task_queue e))) then task_queue e !! 1%nat
    else None
  else
    let spec := if Py.startswith spec "%" then Py.drop 1 spec else spec in
    match spec with
    | EmptyString => None
    | _ =>
        match Py.int spec with
        | Some job_id =>
            if decide (is_Some (jobs e !! job_id)) then Some job_id else None
        | None => None
        end
    end.


(** *** [_handle_job_control_command]

    Which job the line selects and what is done with it; the operation
    itself is [_bring_job_to_foreground] or [_resume_background_job]. *)

Inductive JobCommand : Set :=
| ShowJobs
| ToForeground (job_id : Z)
| ToBackground (job_id : Z)
| NoSuchJob (cmd : string)          (* "<cmd>: no such job" *)
| NoJobFound (cmd : string)         (* "<cmd>: no ... job found" *)
| UnknownJobCommand (cmd : string)
| NoCommand.

(** The first id of the selection sequence whose job has a wanted status. *)
Fixpoint first_job (wanted : Status -> bool) (table : gmap Z Job)
         (queue : list Z) : option Z :=
  match queue with
  | [] => None
  | jid :: rest =>
      match table !! jid with
      | Some job_info =>
          if wanted (job_status job_info) then Some jid
          else first_job wanted table rest
      | None => first_job wanted table rest
      end
  end.

Definition _handle_job_control_command (e : Executor) (command : string)
  : JobCommand :=
  match Py.split (Py.strip command) with
  | [] => NoCommand
  | cmd :: args =>
      if String.eqb cmd "jobs" then ShowJobs
      else if String.eqb cmd "fg" || String.eqb cmd "bg" then
        let chosen :=
          match args with
          | [] =>
              if String.eqb cmd "fg"
              then first_job (fun s => Status_eqb s running || Status_eqb s stopped)
                             (jobs e) (task_queue e)
              else first_job (fun s => Status_eqb s stopped)
                             (jobs e) (task_queue e)
          | job_spec :: _ => _parse_job_spec e job_spec
          end in
        match chosen with
        | Some job_id =>
            if String.eqb cmd "fg" then ToForeground job_id
            else ToBackground job_id
        | None =>
            match args with
            | [] => NoJobFound cmd
            | _ :: _ => NoSuchJob cmd
            end
        end
      else UnknownJobCommand cmd
  end.

(** *** [_bring_job_to_foreground]

    The call blocks in [process.wait()].  [fg_begin] is the part before
    the wait and says whether the wait is reached; [fg_end] is the part
    after it. *)

Definition is_finished (s : Status) : bool :=
  match s with
  | done | failed => true
  | running | stopped => false
  end.

Definition fg_begin (os : OS) (job_id : Z) (e : Executor) : Executor * bool :=
  match jobs e !! job_id with
  | None => (e, false)
  | Some j =>
      if is_finished (job_status j) then (e, false)
      else
        let e1 := with_foreground (Some job_id) e in
        let e2 :=
          if Status_eqb (job_status j) stopped
          then if fst (_send_signal_to_job os e1 job_id SIGCONT)
               then update_job job_id (with_status running) e1
               else e1
          else e1 in
        let e3 :=
          match job_pgid j with
          | Some pgid =>
              if truthy_opt (job_pgid j) && posix os
              then fst (_set_foreground_process_group os e2 pgid)
              else e2
          | None => e2
          end in
        (e3, true)
  end.

Definition fg_end (os : OS) (w : Wait) (job_id : Z) (e : Executor) : Executor :=
  match jobs e !! job_id with
  | None => e
  | Some j =>
      match wait w j with
      | WaitExit c =>
          let e1 :=
            if truthy_opt (job_pgid j) && posix os
            then fst (_restore_terminal_control os e)
            else e in
          let e2 := with_foreground None e1 in
          update_job job_id
            (fun j => with_exit_code c
                        (with_status done (with_returncode (Some c) j))) e2
      | WaitRaises =>
          let e1 :=
            if posix os then fst (_restore_terminal_control os e) else e in
          with_foreground None e1
      | WaitInterrupted => e
      end
  end.

Definition _bring_job_to_foreground (os : OS) (w : Wait) (job_id : Z)
           (e : Executor) : Executor :=
  let (e1, waiting) := fg_begin os job_id e in
  if waiting then fg_end os w job_id e1 else e1.

(** *** [_resume_background_job] *)

Definition _resume_background_job (os : OS) (job_id : Z) (e : Executor)
  : Executor :=
  match jobs e !! job_id with
  | None => e
  | Some j =>
      if is_finished (job_status j) then e
      else if negb (Status_eqb (job_status j) stopped) then e
      else if fst (_send_signal_to_job os e job_id SIGCONT)
           then update_job job_id (with_status running) e
           else e
  end.

(** *** [_suspend_foreground_job], [_interrupt_foreground_job] *)

Definition _suspend_foreground_job (os : OS) (e : Executor) : Executor * bool :=
  if negb (truthy_opt (foreground_job e)) then (e, false)
  else
    match foreground_job e with
    | None => (e, false)
    | Some job_id =>
        match jobs e !! job_id with
        | None => (with_foreground None e, false)
        | Some j =>
            if negb (Status_eqb (job_status j) running) then (e, false)
            else if fst (_send_signal_to_job os e job_id SIGTSTP)
            then
              let e1 := update_job job_id (with_status stopped) e in
              let e2 :=
                if posix os then fst (_restore_terminal_control os e1) else e1 in
              (with_foreground None e2, true)
            else (e, false)
        end
    end.

Definition _interrupt_foreground_job (os : OS) (e : Executor) : Executor * bool :=
  if negb (truthy_opt (foreground_job e)) then (e, false)
  else
    match foreground_job e with
    | None => (e, false)
    | Some job_id =>
        match jobs e !! job_id with
        | None => (with_foreground None e, false)
        | Some j =>
            if negb (Status_eqb (job_status j) running) then (e, false)
            else if fst (_send_signal_to_job os e job_id SIGINT)
            then
              ((if posix os then fst (_restore_terminal_control os e) else e),
               true)
            else (e, false)
        end
    end.

(** *** [_cleanup_all_jobs]

    Every entry is handled on its own: the loop body reads and writes the
    entry it is at and nothing else of the executor. *)

Definition cleanup_job (os : OS) (j : Job) : Job :=
  match job_status j with
  | running | stopped =>
      let rc :=
        if fst (signal_job os j SIGTERM)
        then match poll os j with
             | Exited c => Some c
             | StillRunning | PollRaises => job_returncode j
             end
        else job_returncode j in
      with_exit_code (-1) (with_status done (with_returncode rc j))
  | done | failed => j
  end.

Definition _cleanup_all_jobs (os : OS) (e : Executor) : Executor :=
  with_jobs (cleanup_job os <$> jobs e) e.

(** *** Sessions

    What can happen to the job table, one operation after the other. *)

Inductive Op : Type :=
| Background (command : string) (sp : Spawn)
| Foreground (os : OS) (w : Wait) (job_id : Z)
| Resume (os : OS) (job_id : Z)
| Suspend (os : OS)
| Interrupt (os : OS)
| Monitor (os : OS) (job_id : Z)
| Cleanup (os : OS).

Definition step (e : Executor) (op : Op) : Executor :=
  match op with
  | Background command sp => fst (_execute_background_command command sp e)
  | Foreground os w job_id => _bring_job_to_foreground os w job_id e
  | Resume os job_id => _resume_background_job os job_id e
  | Suspend os => fst (_suspend_foreground_job os e)
  | Interrupt os => fst (_interrupt_foreground_job os e)
  | Monitor os job_id => monitor_tick os job_id e
  | Cleanup os => _cleanup_all_jobs os e
  end.

(** The job id an operation hands out, if it launches a job. *)
Definition assigned (e : Executor) (op : Op) : option Z :=
  match op with
  | Background command sp =>
      match snd (_execute_background_command command sp e) with
      | Launched job_id => Some job_id
      | Passthrough | LaunchError => None
      end
  | _ => None
  end.

(** The state after a session and the ids it handed out, oldest first. *)
Fixpoint run (e : Executor) (ops : list Op) : Executor * list Z :=
  match ops with
  | [] => (e, [])
  | op :: ops' =>
      let (e', ids) := run (step e op) ops' in
      (e', match assigned e op with
           | Some job_id => job_id :: ids
           | None => ids
           end)
  end.

(** *** Notions and sample sessions the statements below use *)

(** A table is well formed when every entry sits under its own id and the
    id is below the next one to hand out. *)
Definition wf (e : Executor) : Prop :=
  ∀ k j, jobs e !! k = Some j → job_id j = k ∧ k < next_job_id e.

(** What an operation leaves alone in an entry. *)
Definition same_process (j j' : Job) : Prop :=
  job_id j' = job_id j ∧ job_pid j' = job_pid j ∧ job_pgid j' = job_pgid j
  ∧ job_command j' = job_command j.

(** [frame e e']: the step from [e] to [e'] hands out no id, leaves the
    selection sequence alone and keeps every entry under its key, with its
    id, pid, group and command. *)
Definition frame (e e' : Executor) : Prop :=
  task_queue e' = task_queue e
  ∧ next_job_id e' = next_job_id e
  ∧ ∀ k, match jobs e !! k with
         | Some j => ∃ j', jobs e' !! k = Some j' ∧ same_process j j'
         | None => jobs e' !! k = None
         end.

(** The job [n], when the table has it. *)
Definition lookup_id (e : Executor) (n : Z) : option Z :=
  if decide (is_Some (jobs e !! n)) then Some n else None.

(** A session of three launches, the second of which gets an id and then
    fails to start. *)
Definition three_launches : list Op :=
  [ Background "sleep 100 &" (Spawned 4242 (Some 4242));
    Background "vim notes &" SpawnFails;
    Background "top &" (Spawned 4250 (Some 4250)) ].

(** The delivery rule as the specification words it, for one tracked job:
    the first call goes to the process group, and the answer is a failure
    only when a group call and a pid call were both made and both failed. *)
Definition group_first_always (os : OS) (e : Executor) (job_id sig : Z) : Prop :=
  let r := _send_signal_to_job os e job_id sig in
  (∃ pgid ok, head r.2 = Some (KillPg pgid sig ok))
  ∧ (r.1 = false →
     ∃ pgid pid, r.2 = [KillPg pgid sig false; Kill pid sig false]).

(** No signal gets through. *)
Definition deaf_os : OS :=
  mkOS true (λ _ _, false) (λ _ _, false) (λ _, false) false false
       (λ _, StillRunning).

(** A job whose process group could not be read when it was launched. *)
Definition no_group_session : Executor :=
  (run init [Background "sleep 100 &" (Spawned 4242 None)]).1.

(** Every call goes through and the processes are still running. *)
Definition willing_os : OS :=
  mkOS true (λ _ _, true) (λ _ _, true) (λ _, true) true true
       (λ _, StillRunning).

(** Every call goes through and the processes are found dead, killed by
    SIGTERM. *)
Definition sigterm_os : OS :=
  mkOS true (λ _ _, true) (λ _ _, true) (λ _, true) true true
       (λ _, Exited (-15)).

(** One job is launched and never stopped, and the shell shuts down: the
    cleanup sends SIGTERM and finds the process dead. *)
Definition after_cleanup : Executor :=
  (run init [Background "sleep 100 &" (Spawned 4242 (Some 4242));
             Cleanup sigterm_os]).1.

(** The invariant as the specification words it: whenever the reference is
    set, the job it names is running and its process group owns the
    terminal. *)
Definition foreground_owns_terminal (e : Executor) : Prop :=
  ∀ k, foreground_job e = Some k →
       ∃ j pgid, jobs e !! k = Some j ∧ job_status j = running
                 ∧ job_pgid j = Some pgid ∧ terminal_owner e = Some pgid.

(** No controlling terminal: the group calls succeed, handing over the
    terminal does not. *)
Definition no_tty_os : OS :=
  mkOS true (λ _ _, true) (λ _ _, true) (λ _, false) false false
       (λ _, StillRunning).

(** One job is launched and brought to the foreground there: the executor
    while it waits for the job. *)
Definition waiting_without_terminal : Executor :=
  (fg_begin no_tty_os 1
     (run init [Background "sleep 100 &" (Spawned 4242 (Some 4242))]).1).1.

End Jobs.

(** ** [shlex]

    [shlex.split(s)] as the executor calls it: POSIX rules, whitespace
    splitting, no comment characters.  The lexer is the state machine of
    [shlex.read_token]; the text is read once, left to right. *)

Module Shlex.

Inductive Result : Set :=
| Tokens (ts : list string)
| NoClosingQuotation          (* ValueError("No closing quotation") *)
| NoEscapedCharacter.         (* ValueError("No escaped character") *)

(** The lexer is between tokens, inside a word, inside quotes opened by [q],
    or right after a backslash; [back] is the quote the backslash was met
    in, if any. *)
Inductive State : Set :=
| Blank
| Word
| Quote (q : ascii)
| Escape (back : option ascii).

Definition dquote : ascii := "034"%char.
Definition squote : ascii := "'"%char.
Definition backslash : ascii := "\"%char.

Definition is_whitespace (c : ascii) : bool :=
  Ascii.eqb c " " || Ascii.eqb c "009" || Ascii.eqb c "013" || Ascii.eqb c "010".

Definition is_quote (c : ascii) : bool :=
  Ascii.eqb c squote || Ascii.eqb c dquote.

Definition nonempty (s : string) : bool :=
  match s with
  | EmptyString => false
  | String _ _ => true
  end.

Definition emit (token : string) (rest : Result) : Result :=
  match rest with
  | Tokens ts => Tokens (String.rev token :: ts)
  | err => err
  end.

(** [token] holds the characters of the current token, last one first;
    [quoted] says whether a quote was met in it. *)
Fixpoint lex (st : State) (token : string) (quoted : bool) (s : string)
  : Result :=
  match s with
  | EmptyString =>
      match st with
      | Blank => Tokens []
      | Word =>
          if nonempty token || quoted then Tokens [String.rev token]
          else Tokens []
      | Quote _ => NoClosingQuotation
      | Escape _ => NoEscapedCharacter
      end
  | String c r =>
      match st with
      | Blank =>
          if is_whitespace c then
            if nonempty token || quoted
            then emit token (lex Blank EmptyString false r)
            else lex Blank token quoted r
          else if Ascii.eqb c backslash then lex (Escape None) token quoted r
          else if is_quote c then lex (Quote c) token quoted r
          else lex Word (String c EmptyString) quoted r
      | Word =>
          if is_whitespace c then
            if nonempty token || quoted
            then emit token (lex Blank EmptyString false r)
            else lex Blank token quoted r
          else if is_quote c then lex (Quote c) token quoted r
          else if Ascii.eqb c backslash then lex (Escape None) token quoted r
          else lex Word (String c token) quoted r
      | Quote q =>
          if Ascii.eqb c q then lex Word token true r
          else if Ascii.eqb c backslash && Ascii.eqb q dquote
          then lex (Escape (Some q)) token true r
          else lex (Quote q) (String c token) true r
      | Escape back =>
          match back with
          | Some q =>
              let token :=
                if negb (Ascii.eqb c backslash) && negb (Ascii.eqb c q)
                then String backslash token else token in
              lex (Quote q) (String c token) quoted r
          | None => lex Word (String c token) quoted r
          end
      end
  end.

Definition split (s : string) : Result := lex Blank EmptyString false s.

(** [str(error)] for the two errors *)
Definition message (r : Result) : string :=
  match r with
  | NoClosingQuotation => "No closing quotation"
  | NoEscapedCharacter => "No escaped character"
  | Tokens _ => EmptyString
  end.

(** [shlex.quote]: a token made of letters, digits and [_@%+=:,./-] stays
    as it is; any other is wrapped in single quotes. *)
Definition is_safe (c : ascii) : bool :=
  let n := nat_of_ascii c in
  ((48 <=? n) && (n <=? 57) || (65 <=? n) && (n <=? 90)
   || (97 <=? n) && (n <=? 122))%nat
  || Ascii.eqb c "_" || Ascii.eqb c "@" || Ascii.eqb c "%" || Ascii.eqb c "+"
  || Ascii.eqb c "=" || Ascii.eqb c ":" || Ascii.eqb c "," || Ascii.eqb c "."
  || Ascii.eqb c "/" || Ascii.eqb c "-".

Fixpoint all_safe (s : string) : bool :=
  match s with
  | String c r => is_safe c && all_safe r
  | EmptyString => true
  end.

(** [s.replace("'", "'\"'\"'")] *)
Fixpoint escape_squotes (s : string) : string :=
  match s with
  | String c r =>
      if Ascii.eqb c squote
      then String squote (String dquote (String squote (String dquote
             (String squote (escape_squotes r)))))
      else String c (escape_squotes r)
  | EmptyString => EmptyString
  end.

Definition quote (s : string) : string :=
  match s with
  | EmptyString => "''"
  | _ =>
      if all_safe s then s
      else String squote (escape_squotes s ++ String squote EmptyString)
  end.

End Shlex.

(** ** Python strings in full

    The strings of an alias table are read from JSON, whose escapes reach
    every code point: for them a [str] is the list of its code points. *)

Module Text.

Definition text : Type := list N.

(** A string of this model, code point by code point. *)
Fixpoint of_string (s : string) : text :=
  match s with
  | EmptyString => []
  | String c r => N_of_ascii c :: of_string r
  end.

(** Back, when every code point is below 256. *)
Fixpoint to_string (t : text) : option string :=
  match t with
  | [] => Some EmptyString
  | c :: r =>
      if (c <? 256)%N then String (ascii_of_N c) <$> to_string r else None
  end.

(** The items of a dict of strings of this model, and back. *)
Definition items (d : list (string * string)) : list (text * text) :=
  (λ kv, (of_string kv.1, of_string kv.2)) <$> d.

Fixpoint to_items (d : list (text * text)) : option (list (string * string)) :=
  match d with
  | [] => Some []
  | (k, v) :: r =>
      match to_string k, to_string v, to_items r with
      | Some k', Some v', Some r' => Some ((k', v') :: r')
      | _, _, _ => None
      end
  end.

(** What a [str] can hold. *)
Definition code_point (c : N) : bool := (c <? 0x110000)%N.

Definition valid (t : text) : bool := forallb code_point t.

Definition high_surrogate (c : N) : bool :=
  ((0xD800 <=? c) && (c <=? 0xDBFF))%N.

Definition low_surrogate (c : N) : bool :=
  ((0xDC00 <=? c) && (c <=? 0xDFFF))%N.

(** No high surrogate stands right in front of a low one. *)
Fixpoint pair_free (t : text) : bool :=
  match t with
  | c :: r =>
      negb (high_surrogate c
            && match r with
               | c' :: _ => low_surrogate c'
               | [] => false
               end)
      && pair_free r
  | [] => true
  end.

End Text.

(** ** [json]

    [json.dumps(table, indent=2)] on a dict of strings and [json.loads] on
    any text, as the standard library does them: [ensure_ascii] is on, the
    strings are read strictly, and [NaN] and [Infinity] are accepted.  The
    text of a document is a [string]; what [dumps] writes is ASCII. *)

Module Json.
Import Text.

Definition dquote : ascii := "034"%char.
Definition backslash : ascii := "\"%char.
Definition newline : ascii := "010"%char.

(** *** Encoding: [json.dumps(table, indent=2)] *)

Definition hex_digit (n : N) : ascii :=
  if (n <? 10)%N then ascii_of_N (48 + n) else ascii_of_N (87 + n).

(** [\uXXXX] *)
Definition u_escape (n : N) : string :=
  String backslash
    (String "u"
       (String (hex_digit (N.land (N.shiftr n 12) 15))
          (String (hex_digit (N.land (N.shiftr n 8) 15))
             (String (hex_digit (N.land (N.shiftr n 4) 15))
                (String (hex_digit (N.land n 15)) EmptyString))))).

(** One character inside a string literal, [ensure_ascii] being on:
    printable ASCII stays, the quote and the backslash get a backslash,
    five control characters have a short escape, every other character of
    the basic plane is written [\uXXXX], and a character above it as the
    two surrogates of its UTF-16 form. *)
Definition escape_char (c : N) : string :=
  if (c =? 34)%N then String backslash (String dquote EmptyString)
  else if (c =? 92)%N then String backslash (String backslash EmptyString)
  else if (c =? 8)%N then String backslash "b"
  else if (c =? 12)%N then String backslash "f"
  else if (c =? 10)%N then String backslash "n"
  else if (c =? 13)%N then String backslash "r"
  else if (c =? 9)%N then String backslash "t"
  else if ((32 <=? c) && (c <=? 126))%N then String (ascii_of_N c) EmptyString
  else if (c <? 0x10000)%N then u_escape c
  else
    let v := (c - 0x10000)%N in
    u_escape (N.lor 0xD800 (N.land (N.shiftr v 10) 0x3FF))
    ++ u_escape (N.lor 0xDC00 (N.land v 0x3FF)).

Fixpoint escape (t : text) : string :=
  match t with
  | c :: r => escape_char c ++ escape r
  | [] => EmptyString
  end.

Definition encode_string (t : text) : string :=
  String dquote (escape t ++ String dquote EmptyString).

Definition encode_item (kv : text * text) : string :=
  encode_string kv.1 ++ ": " ++ encode_string kv.2.

(** The separator between two items: a comma, a newline and the indent. *)
Definition item_separator : string := String "," (String newline "  ").

(** A dict of strings; the items are written in the order the dict has
    them. *)
Definition dumps (items : list (text * text)) : string :=
  match items with
  | [] => "{}"
  | _ =>
      String "{" (String newline "  ")
      ++ Py.join item_separator (encode_item <$> items)
      ++ String newline "}"
  end.

(** *** Decoding: [json.loads] *)

(** What [json.loads] returns.  A number is kept as the text that writes
    it. *)
#[warnings="-register-all"] Inductive Value : Type :=
| Str (s : text)
| Object (members : list (text * Value))
| Array (items : list Value)
| Number (is_float : bool) (literal : string)
| Constant (name : string).   (* true, false, null, NaN, Infinity, -Infinity *)

Definition is_ws (c : ascii) : bool :=
  Ascii.eqb c " " || Ascii.eqb c "009" || Ascii.eqb c "010" || Ascii.eqb c "013".

Fixpoint skip_ws (s : string) : string :=
  match s with
  | String c r => if is_ws c then skip_ws r else s
  | EmptyString => EmptyString
  end.

Definition hex_value (c : ascii) : option N :=
  let n := N_of_ascii c in
  if ((48 <=? n) && (n <=? 57))%N then Some (n - 48)%N
  else if ((97 <=? n) && (n <=? 102))%N then Some (n - 87)%N
  else if ((65 <=? n) && (n <=? 70))%N then Some (n - 55)%N
  else None.

Definition hex4 (a b c d : ascii) : option N :=
  match hex_value a, hex_value b, hex_value c, hex_value d with
  | Some x, Some y, Some z, Some w =>
      Some (((x * 16 + y) * 16 + z) * 16 + w)%N
  | _, _, _, _ => None
  end.

(** The character a one-letter escape stands for. *)
Definition unescape (e : ascii) : option N :=
  if Ascii.eqb e dquote then Some 34%N
  else if Ascii.eqb e backslash then Some 92%N
  else if Ascii.eqb e "/" then Some 47%N
  else if Ascii.eqb e "b" then Some 8%N
  else if Ascii.eqb e "f" then Some 12%N
  else if Ascii.eqb e "n" then Some 10%N
  else if Ascii.eqb e "r" then Some 13%N
  else if Ascii.eqb e "t" then Some 9%N
  else None.

Definition prepend (c : N) (r : option (text * string))
  : option (text * string) :=
  match r with
  | Some (t, rest) => Some (c :: t, rest)
  | None => None
  end.

(** The low surrogate written right here as [\uXXXX]. *)
Definition low_escape (s : string) : option N :=
  match s with
  | String b r =>
      if Ascii.eqb b backslash then
        match r with
        | String u r' =>
            if Ascii.eqb u "u" then
              match r' with
              | String h1 (String h2 (String h3 (String h4 _))) =>
                  match hex4 h1 h2 h3 h4 with
                  | Some n => if low_surrogate n then Some n else None
                  | None => None
                  end
              | _ => None
              end
            else None
        | EmptyString => None
        end
      else None
  | EmptyString => None
  end.

(** The character of a UTF-16 pair. *)
Definition join_surrogates (high low : N) : N :=
  (0x10000 + N.lor (N.shiftl (high - 0xD800) 10) (low - 0xDC00))%N.

(** [scanstring], strict: the text after an opening quote, up to the
    closing one; the decoded string and what follows it.  A high surrogate
    with a low one right behind it, both written as escapes, is the one
    character of that pair. *)
Fixpoint scanstring (s : string) : option (text * string) :=
  match s with
  | EmptyString => None
  | String c r =>
      if Ascii.eqb c dquote then Some ([], r)
      else if Ascii.eqb c backslash then
        match r with
        | String e r' =>
            if Ascii.eqb e "u" then
              match r' with
              | String h1 (String h2 (String h3 (String h4 r''))) =>
                  match hex4 h1 h2 h3 h4 with
                  | Some n =>
                      match r'' with
                      | String _ (String _ (String _ (String _
                          (String _ (String _ r3))))) =>
                          match (if high_surrogate n then low_escape r''
                                 else None) with
                          | Some n2 =>
                              prepend (join_surrogates n n2) (scanstring r3)
                          | None => prepend n (scanstring r'')
                          end
                      | _ => prepend n (scanstring r'')
                      end
                  | None => None
                  end
              | _ => None
              end
            else
              match unescape e with
              | Some ch => prepend ch (scanstring r')
              | None => None
              end
        | EmptyString => None
        end
      else if (N_of_ascii c <? 32)%N then None
      else prepend (N_of_ascii c) (scanstring r)
  end.

(** [d[k] = v] on the members read so far. *)
Fixpoint set_member {V : Type} (k : text) (v : V) (d : list (text * V))
  : list (text * V) :=
  match d with
  | [] => [(k, v)]
  | (k', v') :: r =>
      if decide (k = k') then (k, v) :: r else (k', v') :: set_member k v r
  end.

Definition is_digit (c : ascii) : bool :=
  let n := N_of_ascii c in ((48 <=? n) && (n <=? 57))%N.

(** The digits a text starts with, and the rest. *)
Fixpoint digits (s : string) : string * string :=
  match s with
  | String c r =>
      if is_digit c then let (run, rest) := digits r in (String c run, rest)
      else (EmptyString, s)
  | EmptyString => (EmptyString, EmptyString)
  end.

(** A point and digits: the fraction, and the rest. *)
Definition fraction (s : string) : string * string :=
  match s with
  | String "." r =>
      match digits r with
      | (EmptyString, _) => (EmptyString, s)
      | (run, rest) => (String "." run, rest)
      end
  | _ => (EmptyString, s)
  end.

(** [e] or [E], an optional sign and digits: the exponent, and the rest. *)
Definition exponent (s : string) : string * string :=
  match s with
  | String e r =>
      if Ascii.eqb e "e" || Ascii.eqb e "E" then
        let (sign, r') :=
          match r with
          | String "+" r' => ("+", r')
          | String "-" r' => ("-", r')
          | _ => (EmptyString, r)
          end in
        match digits r' with
        | (EmptyString, _) => (EmptyString, s)
        | (run, rest) => (String e (sign ++ run), rest)
        end
      else (EmptyString, s)
  | EmptyString => (EmptyString, s)
  end.

(** More digits than this and [int] refuses the text. *)
Definition max_str_digits : nat := 4300.

(** A number: an optional [-], then [0] or a run of digits that does not
    start with [0], then an optional fraction and an optional exponent.
    [None] also when it is an integer of too many digits. *)
Definition match_number (s : string) : option (Value * string) :=
  let (sign, s1) :=
    match s with
    | String "-" r => ("-", r)
    | _ => (EmptyString, s)
    end in
  match s1 with
  | String c r =>
      if is_digit c then
        let (integer, rest) :=
          if Ascii.eqb c "0" then (String c EmptyString, r)
          else let (run, rest) := digits r in (String c run, rest) in
        let (frac, rest1) := fraction rest in
        let (exp, rest2) := exponent rest1 in
        match frac, exp with
        | EmptyString, EmptyString =>
            if (String.length integer <=? max_str_digits)%nat
            then Some (Number false (sign ++ integer), rest2)
            else None
        | _, _ => Some (Number true (sign ++ integer ++ frac ++ exp), rest2)
        end
      else None
  | EmptyString => None
  end.

(** The constant a text starts with. *)
Definition constants : list string :=
  ["null"; "true"; "false"; "NaN"; "Infinity"; "-Infinity"].

Fixpoint match_constant (names : list string) (s : string)
  : option (Value * string) :=
  match names with
  | [] => None
  | name :: more =>
      if Py.startswith s name
      then Some (Constant name, Py.drop (String.length name) s)
      else match_constant more s
  end.

(** [scan_once]: the value a text starts with and what follows it; [None]
    when the decoder raises.  [members] reads an object from right after
    the opening quote of a key, [elements] an array from its next item. *)
Fixpoint scan_once (fuel : nat) (s : string) {struct fuel}
  : option (Value * string) :=
  match fuel with
  | O => None
  | S fuel =>
      match s with
      | String c r =>
          if Ascii.eqb c dquote then
            match scanstring r with
            | Some (t, rest) => Some (Str t, rest)
            | None => None
            end
          else if Ascii.eqb c "{" then
            match skip_ws r with
            | String "}" rest => Some (Object [], rest)
            | String q r' =>
                if Ascii.eqb q dquote then members fuel r' [] else None
            | EmptyString => None
            end
          else if Ascii.eqb c "[" then
            match skip_ws r with
            | String "]" rest => Some (Array [], rest)
            | r' => elements fuel r' []
            end
          else
            match match_constant constants s with
            | Some found => Some found
            | None => match_number s
            end
      | EmptyString => None
      end
  end
with members (fuel : nat) (s : string) (acc : list (text * Value))
       {struct fuel} : option (Value * string) :=
  match fuel with
  | O => None
  | S fuel =>
      match scanstring s with
      | None => None
      | Some (key, s1) =>
          match skip_ws s1 with
          | String ":" s2 =>
              match scan_once fuel (skip_ws s2) with
              | None => None
              | Some (value, s3) =>
                  let acc' := set_member key value acc in
                  match skip_ws s3 with
                  | String "}" rest => Some (Object acc', rest)
                  | String "," s4 =>
                      match skip_ws s4 with
                      | String q s5 =>
                          if Ascii.eqb q dquote then members fuel s5 acc'
                          else None
                      | EmptyString => None
                      end
                  | _ => None
                  end
              end
          | _ => None
          end
      end
  end
with elements (fuel : nat) (s : string) (acc : list Value)
       {struct fuel} : option (Value * string) :=
  match fuel with
  | O => None
  | S fuel =>
      match scan_once fuel s with
      | None => None
      | Some (value, s1) =>
          match skip_ws s1 with
          | String "]" rest => Some (Array (acc ++ [value]), rest)
          | String "," s2 => elements fuel (skip_ws s2) (acc ++ [value])
          | _ => None
          end
      end
  end.

(** [json.loads]: one value, with whitespace around it and nothing else.
    [None] when the decoder raises.  The fuel is more than the reader can
    use on a text of that length. *)
Definition loads (s : string) : option Value :=
  match scan_once (S (2 * String.length s)) (skip_ws s) with
  | Some (value, rest) =>
      match skip_ws rest with
      | EmptyString => Some value
      | String _ _ => None
      end
  | None => None
  end.

(** The members of an object whose values are all strings. *)
Fixpoint strings (members : list (text * Value)) : option (list (text * text)) :=
  match members with
  | [] => Some []
  | (k, Str v) :: more => cons (k, v) <$> strings more
  | _ :: _ => None
  end.

(** A value that is a dict of strings. *)
Definition as_table (v : Value) : option (list (text * text)) :=
  match v with
  | Object members => strings members
  | _ => None
  end.

(** *** Notions the statements below use *)



End Json.

(** ** The alias store

    [_save_aliases], [_load_aliases] and [refresh_configuration] on alias
    tables of Python strings in full. *)

Module AliasStore.
Import Text.

(** An alias table: the items of the dict, in insertion order. *)
Definition Table : Type := list (text * text).

(** The alias table of the executor, whether the command cache is filled,
    and the text of the alias file ([None]: no file that can be read). *)
Record Store : Type := mkStore {
  aliases : Table;
  commands_cached : bool;
  alias_file : option string
}.

(** [_load_aliases].  The answer is [json.loads(raw)], or the empty dict
    when there is nothing to read or the decoder raises.  [None]: the file
    holds JSON that is no dict of strings, and what the executor then has
    for a table is not followed here (nor is the interpreter's limit on
    nesting, which makes the decoder raise on a document nested that
    deep). *)
Definition _load_aliases (s : Store) : option Table :=
  match alias_file s with
  | Some content =>
      match Py.strip content with
      | EmptyString => Some []
      | raw =>
          match Json.loads raw with
          | Some value => Json.as_table value
          | None => Some []
          end
      end
  | None => Some []
  end.

(** [_save_aliases]: a failed write is swallowed. *)
Definition _save_aliases (write_ok : bool) (s : Store) : Store :=
  if write_ok
  then mkStore (aliases s) false (Some (Json.dumps (aliases s)))
  else s.

(** [refresh_configuration] *)
Definition refresh_configuration (s : Store) : option Store :=
  match _load_aliases s with
  | Some table => Some (mkStore table false (alias_file s))
  | None => None
  end.

(** *** Notions and sample states the statements below use *)


(** No name and no value has a high surrogate right in front of a low
    one. *)
Definition pair_free (table : Table) : Prop :=
  Forall (λ kv, Text.pair_free kv.1 = true ∧ Text.pair_free kv.2 = true) table.



End AliasStore.

(** ** The dispatcher and its builtins

    [execute] and the handlers it calls for aliases, the environment and
    the working directory.  What the other handlers do (files, job control,
    source, activate, the subprocess runners) is outside this part of the
    model: [execute] says which of them gets the line. *)

Module Shell.

(** The alias table: a [dict] from names to values, as the list of its
    items in insertion order. *)
Definition Dict : Type := list (string * string).

(** [d.get(k)] *)
Fixpoint dict_get (k : string) (d : Dict) : option string :=
  match d with
  | [] => None
  | (k', v) :: r => if String.eqb k k' then Some v else dict_get k r
  end.

(** [d[k] = v] *)
Fixpoint dict_set (k v : string) (d : Dict) : Dict :=
  match d with
  | [] => [(k, v)]
  | (k', v') :: r =>
      if String.eqb k k' then (k, v) :: r else (k', v') :: dict_set k v r
  end.

(** [del d[k]] *)
Fixpoint dict_del (k : string) (d : Dict) : Dict :=
  match d with
  | [] => []
  | (k', v) :: r =>
      if String.eqb k k' then dict_del k r else (k', v) :: dict_del k r
  end.

#[global] Instance dict_lookup : Lookup string string Dict := dict_get.
#[global] Instance dict_insert : Insert string string Dict := dict_set.
#[global] Instance dict_delete : Delete string Dict := dict_del.
#[global] Instance dict_empty : Empty Dict := [].

(** What reaches the user interface, the console and the context log. *)
Inductive Ui : Type :=
| DisplayError (command message : string)     (* ui.display_error *)
| Print (text : string)                       (* console.print *)
| AliasTable (rows : gmap string string)      (* _display_aliases *)
| EnvironmentListing (rows : gmap string string)
| DirectoryChange (command new_dir : string)  (* ui.display_directory_change *)
| Context (command message : string)          (* add_shell_context *)
| Warning (expression : string)               (* a failed $((...)) evaluation *)
| UpdateCache.                                (* completion_manager.update_cache *)

(** The fields of the executor this part reads and writes, then the state
    of the process around it: environment, working directory and the alias
    file ([None]: no such file). *)
Record Executor : Type := mkExecutor {
  aliases : Dict;
  previous_directory : string;
  commands_cached : bool;       (* _available_commands_cache is not None *)
  script_active : bool;         (* script_runtime.is_active *)
  environ : gmap string string;
  cwd : string;
  alias_file : option string;
  log : list Ui
}.

Definition with_log (l : list Ui) (e : Executor) : Executor :=
  mkExecutor (aliases e) (previous_directory e) (commands_cached e)
             (script_active e) (environ e) (cwd e) (alias_file e) l.

Definition say (u : Ui) (e : Executor) : Executor :=
  with_log (log e ++ [u]) e.

Definition with_aliases (a : Dict) (e : Executor) : Executor :=
  mkExecutor a (previous_directory e) (commands_cached e)
             (script_active e) (environ e) (cwd e) (alias_file e) (log e).

Definition with_environ (env : gmap string string) (e : Executor) : Executor :=
  mkExecutor (aliases e) (previous_directory e) (commands_cached e)
             (script_active e) env (cwd e) (alias_file e) (log e).

Definition with_alias_file (f : option string) (e : Executor) : Executor :=
  mkExecutor (aliases e) (previous_directory e) (commands_cached e)
             (script_active e) (environ e) (cwd e) f (log e).

Definition drop_cache (e : Executor) : Executor :=
  mkExecutor (aliases e) (previous_directory e) false
             (script_active e) (environ e) (cwd e) (alias_file e) (log e).

Definition with_script (b : bool) (e : Executor) : Executor :=
  mkExecutor (aliases e) (previous_directory e) (commands_cached e)
             b (environ e) (cwd e) (alias_file e) (log e).

Definition with_directories (new_dir previous : string) (e : Executor) : Executor :=
  mkExecutor (aliases e) previous (commands_cached e)
             (script_active e) (environ e) new_dir (alias_file e) (log e).

(** What [os.chdir(path)] followed by [os.getcwd()] comes to. *)
Inductive Chdir : Set :=
| Entered (new_dir : string)
| OSError (text : string)       (* no such directory, not a directory, ... *)
| ValueError (text : string).   (* a path the call refuses to pass on *)

(** The answers of the operating system and the configuration. *)
Record World : Type := mkWorld {
  home : string;                          (* os.path.expanduser("~") *)
  expand_tilde : string -> string;        (* expanduser on a path in "~" *)
  isdir : string -> bool;
  is_executable : string -> bool;         (* isfile(p) and access(p, X_OK) *)
  abspath : string -> string -> string;   (* of a path, seen from a cwd *)
  chdir : string -> string -> Chdir;      (* from a cwd, to a path *)
  on_path : string -> bool;               (* an executable of that name on PATH *)
  write_ok : bool;                        (* ALIAS_FILE.write_text succeeds *)
  bash_arith : string -> option string;   (* bash -c "echo $((expr))" *)
  config_reload_ok : bool;                (* Config.reload() *)
  interactive_commands : list string;     (* Config.INTERACTIVE_COMMANDS *)
  cd_feedback_enabled : bool;             (* Config.CD_FEEDBACK_ENABLED *)
  environment_error : string -> option string;
                                          (* what an ! command raises, if it does *)
  freed_mb : string;                      (* f"{freed_mb:.1f}" after a cleanup *)
  reload_reaches_alias_file : bool        (* a failing Config.reload() gets past
                                             its creation of a missing alias file *)
}.

(** A handler returns, or raises an exception with some text. *)
Inductive Outcome (A : Type) : Type :=
| Ok (a : A) (e : Executor)
| Raise (text : string) (e : Executor).
Arguments Ok {A} a e.
Arguments Raise {A} text e.

Definition in_list (s : string) (l : list string) : bool :=
  existsb (String.eqb s) l.

(** *** Identifiers *)

Definition is_alpha_ (c : ascii) : bool :=
  let n := nat_of_ascii c in
  ((65 <=? n) && (n <=? 90) || (97 <=? n) && (n <=? 122))%nat
  || Ascii.eqb c "_".

Definition is_alnum_ (c : ascii) : bool :=
  let n := nat_of_ascii c in
  is_alpha_ c || ((48 <=? n) && (n <=? 57))%nat.

(** [[A-Za-z0-9_]*$]: the end of the pattern also matches in front of a
    last newline. *)
Fixpoint identifier_tail (s : string) : bool :=
  match s with
  | EmptyString => true
  | String c r =>
      if is_alnum_ c then identifier_tail r
      else Ascii.eqb c "010" && String.eqb r EmptyString
  end.

(** [_is_valid_identifier]: [re.match(r"^[A-Za-z_][A-Za-z0-9_]*$", name)] *)
Definition _is_valid_identifier (name : string) : bool :=
  match name with
  | String c r => is_alpha_ c && identifier_tail r
  | EmptyString => false
  end.

(** The pattern [[A-Za-z_][A-Za-z0-9_]*] read as the specification does: the
    whole name, nothing after it. *)
Fixpoint all_alnum_ (s : string) : bool :=
  match s with
  | EmptyString => true
  | String c r => is_alnum_ c && all_alnum_ r
  end.

Definition strict_identifier (name : string) : bool :=
  match name with
  | String c r => is_alpha_ c && all_alnum_ r
  | EmptyString => false
  end.

(** *** Aliases *)

(** [table.update(updates)] *)
Definition update_all {M : Type} `{Insert string string M}
           (updates : list (string * string)) (table : M) : M :=
  foldl (fun m kv => <[kv.1 := kv.2]> m) table updates.


(** [_load_aliases].  [None]: the file holds JSON that is no dict of
    strings, or a string with a character of 256 or more; what the executor
    then has for a table is outside this model. *)
Definition _load_aliases (e : Executor) : option Dict :=
  match alias_file e with
  | Some content =>
      match Py.strip content with
      | EmptyString => Some []
      | raw =>
          match Json.loads raw with
          | Some value =>
              match Json.as_table value with
              | Some table => Text.to_items table
              | None => None
              end
          | None => Some []
          end
      end
  | None => Some []
  end.

(** [_save_aliases]: a failed write is swallowed. *)
Definition _save_aliases (w : World) (e : Executor) : Executor :=
  if write_ok w
  then drop_cache
         (with_alias_file (Some (Json.dumps (Text.items (aliases e)))) e)
  else e.

(** [refresh_configuration] *)
Definition refresh_configuration (e : Executor) : option Executor :=
  match _load_aliases e with
  | Some table => Some (drop_cache (with_aliases table e))
  | None => None
  end.

(** The rows are shown sorted by name. *)
Definition _display_aliases (e : Executor) : Executor :=
  if decide (aliases e = ∅)
  then say (Print "[yellow]No aliases defined[/yellow]") e
  else say (AliasTable (list_to_map (aliases e))) e.

(** The loop of [_handle_alias_command] over [tokens[1:]]: the error to
    display, or the updates gathered. *)
Fixpoint alias_updates (tokens : list string) (updates : list (string * string))
  : string + list (string * string) :=
  match tokens with
  | [] => inr updates
  | token :: rest =>
      match Py.partition "=" token with
      | None => inl ("alias: invalid definition '" ++ token ++ "'")
      | Some (name, value) =>
          let value := Py.strip_chars (String "'" (String "034" EmptyString)) value in
          if negb (_is_valid_identifier name)
          then inl ("alias: invalid name '" ++ name ++ "'")
          else alias_updates rest (dict_set name value updates)
      end
  end.

Definition _handle_alias_command (w : World) (command : string) (e : Executor)
  : Executor :=
  match Shlex.split command with
  | Shlex.Tokens tokens =>
      match tokens with
      | [_] => _display_aliases e
      | _ =>
          match alias_updates (tail tokens) [] with
          | inl message => say (DisplayError command message) e
          | inr updates =>
              let e1 := with_aliases (update_all updates (aliases e)) e in
              let e2 := _save_aliases w e1 in
              let e3 := drop_cache e2 in
              say (Print ("[green]Aliases updated:[/green] "
                          ++ Py.join ", " (fst <$> updates))) e3
          end
      end
  | err => say (DisplayError command ("alias: " ++ Shlex.message err)) e
  end.

(** The loop of [_handle_unalias_command]: the names removed, in order, and
    the table without them. *)
Fixpoint unalias_all (names : list string) (table : Dict)
  : list string * Dict :=
  match names with
  | [] => ([], table)
  | name :: rest =>
      if decide (is_Some (table !! name))
      then let (removed, table') := unalias_all rest (delete name table) in
           (name :: removed, table')
      else unalias_all rest table
  end.

Definition _handle_unalias_command (w : World) (command : string) (e : Executor)
  : Executor :=
  match Shlex.split command with
  | Shlex.Tokens tokens =>
      if (length tokens <? 2)%nat
      then say (DisplayError command "unalias: requires a name") e
      else
        let (removed, table) := unalias_all (tail tokens) (aliases e) in
        match removed with
        | [] => say (Print "[yellow]No matching aliases removed[/yellow]")
                    (with_aliases table e)
        | _ =>
            let e1 := _save_aliases w (with_aliases table e) in
            say (Print ("[green]Removed aliases:[/green] "
                        ++ Py.join ", " removed)) (drop_cache e1)
        end
  | err => say (DisplayError command ("unalias: " ++ Shlex.message err)) e
  end.

(** [_handle_alias_management]: the executor after it, and whether it took
    the line. *)
Definition _handle_alias_management (w : World) (command : string) (e : Executor)
  : Executor * bool :=
  if String.eqb command "alias" then (_display_aliases e, true)
  else if Py.startswith command "alias "
  then (_handle_alias_command w command e, true)
  else if Py.startswith command "unalias"
  then (_handle_unalias_command w command e, true)
  else (e, false).

(** [_expand_alias] *)
Definition _expand_alias (e : Executor) (command : string) : string :=
  match Shlex.split command with
  | Shlex.Tokens (first :: args) =>
      match aliases e !! first with
      | Some alias_value =>
          match alias_value with
          | EmptyString => command
          | _ =>
              let rest := Py.join " " (Shlex.quote <$> args) in
              Py.strip (alias_value ++ " " ++ rest)
          end
      | None => command
      end
  | _ => command
  end.

(** *** [export], [unset] and bare assignments *)

(** The loop of [_handle_export_command] over [tokens[1:]]. *)
Fixpoint export_updates (tokens : list string) (updates : list (string * string))
  : string + list (string * string) :=
  match tokens with
  | [] => inr updates
  | token :: rest =>
      match Py.partition "=" token with
      | None => inl ("export: invalid assignment '" ++ token ++ "'")
      | Some (name, value) =>
          if negb (_is_valid_identifier name)
          then inl ("export: invalid name '" ++ name ++ "'")
          else export_updates rest (dict_set name value updates)
      end
  end.

(** [os.environ[name] = value] for every pair, in order.  A value with a
    NUL character is refused with a ValueError; the pairs before it are
    set by then. *)
Fixpoint setenv_all (updates : list (string * string)) (env : gmap string string)
  : gmap string string * bool :=
  match updates with
  | [] => (env, true)
  | (name, value) :: rest =>
      if Py.contains (String "000" EmptyString) value then (env, false)
      else setenv_all rest (<[name := value]> env)
  end.

Definition _handle_export_command (command : string) (e : Executor)
  : Outcome bool :=
  if negb (Py.startswith command "export") then Ok false e
  else
    match Shlex.split command with
    | Shlex.Tokens tokens =>
        match tokens with
        | [_] => Ok true (say (EnvironmentListing (environ e)) e)
        | _ =>
            match export_updates (tail tokens) [] with
            | inl message => Ok true (say (DisplayError command message) e)
            | inr updates =>
                match setenv_all updates (environ e) with
                | (env, true) =>
                    Ok true (say (Print ("[green]Exported:[/green] "
                                         ++ Py.join ", " (fst <$> updates)))
                                 (with_environ env e))
                | (env, false) => Raise "embedded null byte" (with_environ env e)
                end
            end
        end
    | err => Ok true (say (DisplayError command ("export: " ++ Shlex.message err)) e)
    end.

(** The loop of [_handle_unset_command]. *)
Fixpoint unset_all (names : list string) (env : gmap string string)
  : list string * gmap string string :=
  match names with
  | [] => ([], env)
  | name :: rest =>
      if decide (is_Some (env !! name))
      then let (removed, env') := unset_all rest (delete name env) in
           (name :: removed, env')
      else unset_all rest env
  end.

Definition _handle_unset_command (command : string) (e : Executor)
  : Executor * bool :=
  if negb (Py.startswith command "unset ") then (e, false)
  else
    match Shlex.split command with
    | Shlex.Tokens tokens =>
        if (length tokens <? 2)%nat
        then (say (DisplayError command "unset: requires a variable name") e, true)
        else
          let (removed, env) := unset_all (tail tokens) (environ e) in
          match removed with
          | [] => (say (Print "[yellow]No variables unset[/yellow]")
                       (with_environ env e), true)
          | _ => (say (Print ("[green]Unset:[/green] " ++ Py.join ", " removed))
                      (with_environ env e), true)
          end
    | err => (say (DisplayError command ("unset: " ++ Shlex.message err)) e, true)
    end.

(** The first match of [\$\(\(([^)]+)\)\)]: its group. *)
Fixpoint until_paren (s : string) : string * string :=
  match s with
  | String c r =>
      if Ascii.eqb c ")" then (EmptyString, s)
      else let (run, rest) := until_paren r in (String c run, rest)
  | EmptyString => (EmptyString, EmptyString)
  end.

Fixpoint arith_group (s : string) : option string :=
  match s with
  | EmptyString => None
  | String _ r =>
      if Py.startswith s "$(("
      then let (run, rest) := until_paren (Py.drop 3 s) in
           if Shlex.nonempty run && Py.startswith rest "))" then Some run
           else arith_group r
      else arith_group r
  end.

(** [_evaluate_arithmetic_expression] *)
Definition _evaluate_arithmetic_expression (w : World) (expression : string)
           (e : Executor) : option string * Executor :=
  match arith_group expression with
  | None => (Some expression, e)
  | Some arithmetic_expr =>
      match bash_arith w arithmetic_expr with
      | Some stdout => (Some (Py.strip stdout), e)
      | None => (None, say (Warning expression) e)
      end
  end.

Definition has_arithmetic (value : string) : bool :=
  Py.contains "$((" value && Py.contains "))" value.

(** The first loop of [_handle_assignment_only], every token having an
    [=]: [None] stands for [return False]. *)
Fixpoint assignment_updates (w : World) (tokens : list string)
         (assignments : list (string * string)) (e : Executor)
  : option (list (string * string)) * Executor :=
  match tokens with
  | [] => (Some assignments, e)
  | token :: rest =>
      match Py.partition "=" token with
      | None => (None, e)
      | Some (name, value) =>
          if negb (_is_valid_identifier name) then (None, e)
          else if has_arithmetic value then
            match _evaluate_arithmetic_expression w value e with
            | (Some evaluated, e') =>
                assignment_updates w rest (dict_set name evaluated assignments) e'
            | (None, e') =>
                assignment_updates w rest (dict_set name value assignments) e'
            end
          else assignment_updates w rest (dict_set name value assignments) e
      end
  end.

Definition _handle_assignment_only (w : World) (command : string) (e : Executor)
  : Outcome bool :=
  if negb (Py.contains "=" command) || Py.startswith command "alias"
  then Ok false e
  else
    let tokens :=
      match Shlex.split command with
      | Shlex.Tokens ts => ts
      | _ => []
      end in
    match tokens with
    | [] => Ok false e
    | first :: others =>
        if forallb (Py.contains "=") tokens then
          match assignment_updates w tokens [] e with
          | (None, e') => Ok false e'
          | (Some assignments, e') =>
              match setenv_all assignments (environ e') with
              | (env, true) =>
                  Ok true (say (Print ("[green]Set variables:[/green] "
                                       ++ Py.join ", " (fst <$> assignments)))
                               (with_environ env e'))
              | (env, false) =>
                  Raise "embedded null byte" (with_environ env e')
              end
          end
        else
          match Py.partition "=" first with
          | None => Ok false e
          | Some (name, partial_value) =>
              if negb (_is_valid_identifier name) then Ok false e
              else
                let full_value := Py.join " " (partial_value :: others) in
                if has_arithmetic full_value then
                  match _evaluate_arithmetic_expression w full_value e with
                  | (Some evaluated, e') =>
                      match setenv_all [(name, evaluated)] (environ e') with
                      | (env, true) =>
                          Ok true (say (Print ("[green]Set variables:[/green] " ++ name))
                                       (with_environ env e'))
                      | (env, false) =>
                          Raise "embedded null byte" (with_environ env e')
                      end
                  | (None, e') => Ok false e'
                  end
                else Ok false e
          end
    end.

(** *** [cd] *)

(** [os.path.expanduser] *)
Definition expanduser (w : World) (path : string) : string :=
  if Py.startswith path "~" then expand_tilde w path else path.

(** The directory [_handle_cd_command] asks for. *)
Definition cd_target (w : World) (e : Executor) (command : string) : string :=
  let path := Py.strip (Py.drop 3 command) in
  match path with
  | EmptyString => home w
  | _ =>
      if String.eqb path "-"
      then match previous_directory e with
           | EmptyString => home w
           | previous => previous
           end
      else expanduser w path
  end.

(** [_handle_cd_command].  [os.getcwd()] answers with [cwd e]. *)
Definition _handle_cd_command (w : World) (command : string) (e : Executor)
  : Outcome unit :=
  match chdir w (cwd e) (cd_target w e command) with
  | Entered new_dir =>
      let e1 := with_directories new_dir (cwd e) e in
      let e2 :=
        if cd_feedback_enabled w
        then say (DirectoryChange command new_dir) e1 else e1 in
      Ok tt (say (Context command ("Changed directory to: " ++ new_dir)) e2)
  | OSError text =>
      Ok tt (say (Context command ("cd: " ++ text))
                 (say (DisplayError command ("cd: " ++ text)) e))
  | ValueError text => Raise text e
  end.

(** [_is_known_command] *)
Definition builtins : list string :=
  [ "cd"; "ls"; "pwd"; "echo"; "cat"; "mkdir"; "rm"; "cp"; "mv"; "grep";
    "find"; "chmod"; "chown"; "ps"; "kill"; "jobs"; "fg"; "bg"; "export";
    "unset"; "alias"; "unalias"; "source"; "."; "exit"; "clear"; "history";
    "type"; "which"; "whereis" ].

Definition _is_known_command (w : World) (e : Executor) (cmd : string) : bool :=
  if in_list cmd builtins then true
  else if decide (is_Some (aliases e !! cmd)) then true
  else on_path w cmd.

(** [os.path.join(os.getcwd(), path)] for a relative [path] *)
Definition join_cwd (e : Executor) (path : string) : string :=
  if Py.endswith (cwd e) "/" then cwd e ++ path
  else match cwd e with
       | EmptyString => path
       | _ => cwd e ++ "/" ++ path
       end.

(** [_handle_auto_cd]: the outcome says whether the line was taken. *)
Definition _handle_auto_cd (w : World) (command : string) (e : Executor)
  : Outcome bool :=
  let cmd := Py.strip command in
  let go_there :=
    match _handle_cd_command w ("cd " ++ cmd) e with
    | Ok _ e' => Ok true e'
    | Raise text e' => Raise text e'
    end in
  if Py.contains " " cmd then Ok false e
  else
    match cmd with
    | EmptyString => Ok false e
    | _ =>
        if in_list cmd ["."; ".."; "-"] then go_there
        else if _is_known_command w e cmd then Ok false e
        else
          let path := if Py.startswith cmd "/" then cmd else join_cwd e cmd in
          if isdir w path then go_there
          else if Py.startswith cmd "~" && isdir w (expanduser w cmd)
          then go_there
          else Ok false e
    end.

(** *** Classification helpers *)

(** [_has_shell_operator] *)
Definition _has_shell_operator (command : string) : bool :=
  existsb (fun op => Py.contains op command) ["|"; "&&"; "||"; ";"; ">"; "<"].

(** [_looks_like_env_assignment] *)
Definition _looks_like_env_assignment (token : string) : bool :=
  Py.contains "=" token
  && negb (Py.startswith token "./")
  && negb (Py.startswith token "../")
  && negb (Py.startswith token "/")
  && negb (Py.contains "/" token).

(** [_looks_like_path] *)
Definition _looks_like_path (token : string) : bool :=
  match token with
  | EmptyString => false
  | _ =>
      Py.startswith token "./" || Py.startswith token "../"
      || Py.startswith token "/" || Py.startswith token "~"
      || Py.contains "/" token
  end.

(** [tokens] from the first one that is no environment assignment *)
Fixpoint skip_assignments (tokens : list string) : list string :=
  match tokens with
  | token :: rest =>
      if _looks_like_env_assignment token then skip_assignments rest else tokens
  | [] => []
  end.

(** [_resolve_local_executable(command) is not None] *)
Definition resolves_local_executable (w : World) (e : Executor) (command : string)
  : bool :=
  match Shlex.split command with
  | Shlex.Tokens tokens =>
      match skip_assignments tokens with
      | candidate :: _ =>
          if negb (_looks_like_path candidate) then false
          else
            let expanded := expanduser w candidate in
            let expanded :=
              if Py.startswith expanded "/" then expanded
              else abspath w (cwd e) expanded in
            is_executable w expanded
      | [] => false
      end
  | _ => false
  end.

(** [_is_local_executable_invocation] *)
Definition _is_local_executable_invocation (w : World) (e : Executor)
           (command : string) : bool :=
  match Py.strip command with
  | EmptyString => false
  | _ =>
      if _has_shell_operator command then false
      else resolves_local_executable w e command
  end.

(** [_has_background_execution] *)
Definition _has_background_execution (command : string) : bool :=
  match Jobs.last_two (Py.rstrip command) with
  | (Some a, prev) =>
      Ascii.eqb a "&"
      && negb match prev with
              | Some b => Ascii.eqb b "&"
              | None => false
              end
  | (None, _) => false
  end.

(** [_is_recursive_ls] *)
Definition _is_recursive_ls (command : string) : bool :=
  match Shlex.split command with
  | Shlex.Tokens tokens =>
      match skip_assignments tokens with
      | cmd_token :: rest =>
          let after_sudo :=
            if String.eqb (Py.basename cmd_token) "sudo"
            then match rest with
                 | next :: rest' => (next, rest')
                 | [] => (cmd_token, rest)
                 end
            else (cmd_token, rest) in
          if negb (String.eqb (Py.basename after_sudo.1) "ls") then false
          else
            existsb (fun token =>
                       negb (String.eqb token "--")
                       && Py.startswith token "-" && Py.contains "R" token)
                    after_sudo.2
      | [] => false
      end
  | _ => false
  end.

(** [x.strip().split()[0]]: [None] is the IndexError of a blank text. *)
Definition first_word (text : string) : option string :=
  head (Py.split (Py.strip text)).

(** The loop over [command.split("|")]: [None] is an IndexError. *)
Fixpoint pipeline_interactive (w : World) (parts : list string) : option bool :=
  match parts with
  | [] => Some false
  | part :: rest =>
      match first_word part with
      | None => None
      | Some word =>
          if in_list word (interactive_commands w) then Some true
          else pipeline_interactive w rest
      end
  end.

(** [_is_interactive_command] *)
Definition _is_interactive_command (w : World) (e : Executor) (command : string)
  : option bool :=
  if _is_local_executable_invocation w e command then Some true
  else if _has_background_execution command then Some true
  else if _is_recursive_ls command then Some true
  else
    match first_word command with
    | None => None
    | Some base_cmd =>
        let base_cmd := Py.basename base_cmd in
        if in_list base_cmd ["jobs"; "fg"; "bg"] then Some true
        else if in_list base_cmd (interactive_commands w) then Some true
        else if Py.contains "|" command
        then pipeline_interactive w (Py.split_on "|" command)
        else Some false
    end.

(** *** [execute] *)

(** The handler a line ends in, with the text it is given. *)
Inductive Decision : Type :=
| Empty
| Help
| ConfigReload
| ForeignAliases                 (* a reload met an alias file that holds
                                    no table this model follows *)
| CleanupMemory
| EnvironmentInfo
| ScriptToggle
| ScriptLine
| AliasManagement
| Export
| Unset
| AssignmentOnly
| Files (command : string)
| JobControl (normalized : string)
| Exit
| ClearScreen
| ChangeDirectory (normalized : string)
| Source (normalized : string)
| Deactivate
| Activate (normalized : string)
| BackgroundLaunch (command : string)
| Interactive (command : string)
| AutoChangeDirectory
| RegularCapture (command : string)
| Failed (text : string).        (* the exception [execute] caught *)

(** [_handle_script_commands] *)
Definition _handle_script_commands (command : string) (e : Executor)
  : Executor * bool :=
  if in_list command ["py"; "py enter"] then (with_script true e, true)
  else if in_list command ["py exit"; "exitpy"] then (with_script false e, true)
  else if String.eqb command "py reset" then (e, true)
  else if String.eqb command "py cancel" then (e, true)
  else if Py.startswith command "py " then
    match Py.lstrip (Py.drop 3 command) with
    | EmptyString => (with_script true e, true)
    | _ => (e, true)
    end
  else (e, false).

(** The script mode branch of [execute]: shortcuts, or the line is run as
    Python. *)
Definition script_mode_line (command : string) (e : Executor) : Executor :=
  if in_list command ["exit"; "exit()"; "quit"; "quit()"] then with_script false e
  else if String.eqb command "clear" then with_script false e
  else e.

(** [_handle_interactive_command] *)
Definition _handle_interactive_command (command : string) : Decision :=
  if _has_background_execution command then BackgroundLaunch command
  else Interactive command.

(** [execute] from the [files] test to the end, on the line [command] as it
    stands after the alias step. *)
Definition dispatch (w : World) (command : string) (e : Executor)
  : Outcome Decision :=
  let normalized := Py.strip command in
  if Py.startswith normalized "files" then Ok (Files command) e
  else if in_list normalized ["jobs"; "fg"; "bg"]
          || Py.startswith normalized "fg " || Py.startswith normalized "bg "
  then Ok (JobControl normalized) e
  else if String.eqb normalized "exit" then Ok Exit e
  else if String.eqb normalized "clear" then Ok ClearScreen e
  else if String.eqb normalized "cd" || Py.startswith normalized "cd " then
    if _has_shell_operator command then Ok (RegularCapture command) e
    else
      match _handle_cd_command w normalized e with
      | Ok _ e' => Ok (ChangeDirectory normalized) (say UpdateCache e')
      | Raise text e' => Raise text e'
      end
  else if Py.startswith normalized "source " then Ok (Source normalized) e
  else if String.eqb normalized "deactivate" then Ok Deactivate e
  else if Py.endswith normalized "/activate"
          || Py.endswith normalized "\activate"
          || Py.startswith normalized "activate "
  then Ok (Activate normalized) e
  else
    match _is_interactive_command w e command with
    | None => Raise "list index out of range" e
    | Some true => Ok (_handle_interactive_command command) e
    | Some false =>
        match _handle_auto_cd w normalized e with
        | Raise text e' => Raise text e'
        | Ok true e' => Ok AutoChangeDirectory e'
        | Ok false e' => Ok (RegularCapture command) e'
        end
    end.

(** The four steps of [execute] right in front of the alias step: alias
    management, [export], [unset] and bare assignments.  The decision when
    one of them takes the line, the executor to go on with otherwise. *)
Definition settings (w : World) (normalized : string) (e : Executor)
  : Outcome (option Decision) :=
  match _handle_alias_management w normalized e with
  | (e1, true) => Ok (Some AliasManagement) e1
  | (e1, false) =>
      match _handle_export_command normalized e1 with
      | Raise text e2 => Raise text e2
      | Ok true e2 => Ok (Some Export) e2
      | Ok false e2 =>
          match _handle_unset_command normalized e2 with
          | (e3, true) => Ok (Some Unset) e3
          | (e3, false) =>
              match _handle_assignment_only w normalized e3 with
              | Raise text e4 => Raise text e4
              | Ok true e4 => Ok (Some AssignmentOnly) e4
              | Ok false e4 => Ok None e4
              end
          end
      end
  end.

(** [Config.ensure_directories], as far as the alias file goes: a missing
    one is created as an empty table. *)
Definition ensure_alias_file (e : Executor) : Executor :=
  match alias_file e with
  | Some _ => e
  | None => with_alias_file (Some "{}") e
  end.

(** [_handle_config_reload_command].  [Config.reload()] starts with
    [ensure_directories], so a reload that succeeds has met or made an alias
    file; one that fails may have stopped before.  The panels the handler
    prints are not followed.  [None] as for [_load_aliases]. *)
Definition _handle_config_reload_command (w : World) (e : Executor)
  : option Executor :=
  if config_reload_ok w then refresh_configuration (ensure_alias_file e)
  else Some (if reload_reaches_alias_file w then ensure_alias_file e else e).

(** [_handle_cleanup_memory_command]: the command cache is dropped and the
    cleanup is entered in the context log.  The table and the line it
    prints, which show memory statistics, are not followed, nor are the
    calls that ask the completion manager, the script runtime and the
    context manager to clear what they hold. *)
Definition _handle_cleanup_memory_command (w : World) (e : Executor)
  : Executor :=
  say (Context "/cleanup_memory"
               ("Memory cleanup performed. Freed: " ++ freed_mb w ++ "MB"))
      (drop_cache e).

(** [_handle_environment_commands]: the executor after it, and whether it
    took the line.  The tables the four commands print are not followed. *)
Definition _handle_environment_commands (w : World) (command : string)
           (e : Executor) : Executor * bool :=
  if negb (Py.startswith command "!") then (e, false)
  else
    let env_cmd := Py.drop 1 command in
    let failed error_msg :=
      say (Context command ("Error: " ++ error_msg))
          (say (DisplayError command error_msg) e) in
    if in_list env_cmd ["env"; "status"; "git"; "python"] then
      match environment_error w env_cmd with
      | None =>
          (say (Context command
                        ("Environment command '" ++ env_cmd ++ "' executed")) e,
           true)
      | Some error => (failed ("Environment command error: " ++ error), true)
      end
    else (failed ("Unknown environment command: " ++ env_cmd), true).

(** All the steps of [execute] in front of the alias step. *)
Definition early (w : World) (command : string) (e : Executor)
  : Outcome (option Decision) :=
  let normalized := Py.strip command in
  if String.eqb normalized "/help" then Ok (Some Help) e
  else if in_list normalized ["/config_reload"; "config_reload"] then
    match _handle_config_reload_command w e with
    | Some e' => Ok (Some ConfigReload) e'
    | None => Ok (Some ForeignAliases) e
    end
  else if String.eqb normalized "/cleanup_memory"
  then Ok (Some CleanupMemory) (_handle_cleanup_memory_command w e)
  else
    match _handle_environment_commands w command e with
    | (e0, true) => Ok (Some EnvironmentInfo) e0
    | (e0, false) =>
        match _handle_script_commands normalized e0 with
        | (e1, true) => Ok (Some ScriptToggle) e1
        | (e1, false) =>
            if script_active e1
            then Ok (Some ScriptLine) (script_mode_line normalized e1)
            else settings w normalized e1
        end
    end.

(** The [except Exception] clause of [execute]; [command] is the line as
    the variable holds it when the exception arrives. *)
Definition caught (command text : string) (e : Executor) : Decision * Executor :=
  (Failed text,
   say (Context command ("Error: " ++ text))
       (say (DisplayError command ("Error: " ++ text)) e)).

Definition execute (w : World) (command : string) (e : Executor)
  : Decision * Executor :=
  match Py.strip command with
  | EmptyString => (Empty, e)
  | _ =>
      match early w command e with
      | Raise text e' => caught command text e'
      | Ok (Some decision) e' => (decision, e')
      | Ok None e' =>
          let command := _expand_alias e' command in
          match dispatch w command e' with
          | Raise text e'' => caught command text e''
          | Ok decision e'' => (decision, e'')
          end
      end
  end.

(** The dispatcher as the specification describes its alias step: the
    expanded line goes through classification again from alias management
    on, without a second expansion. *)
Definition execute_restarting (w : World) (command : string) (e : Executor)
  : Decision * Executor :=
  match Py.strip command with
  | EmptyString => (Empty, e)
  | _ =>
      match early w command e with
      | Raise text e' => caught command text e'
      | Ok (Some decision) e' => (decision, e')
      | Ok None e' =>
          let command := _expand_alias e' command in
          match settings w (Py.strip command) e' with
          | Raise text e'' => caught command text e''
          | Ok (Some decision) e'' => (decision, e'')
          | Ok None e'' =>
              match dispatch w command e'' with
              | Raise text e3 => caught command text e3
              | Ok decision e3 => (decision, e3)
              end
          end
      end
  end.

(** *** Notions and sample states the statements below use *)

(** A home directory with one subdirectory [src]; [/tmp] exists, and
    [ls] is the one program on the PATH. *)
Definition sample_world : World :=
  mkWorld "/home/u"
    (λ p, "/home/u" ++ Py.drop 1 p)
    (λ p, String.eqb p "/tmp" || String.eqb p "/home/u/src")
    (λ _, false)
    (λ c p, c ++ "/" ++ p)
    (λ c p, if String.eqb p "/tmp" then Entered "/tmp"
            else if String.eqb p ".." then Entered "/home"
            else if String.eqb p "." then Entered c
            else OSError ("[Errno 2] No such file or directory: '" ++ p ++ "'"))
    (λ c, String.eqb c "ls")
    true
    (λ _, None)
    true
    ["vim"; "top"; "less"]
    false
    (λ _, None)
    "0.0"
    true.

(** A session in [/home/u] that came from [/tmp], with two aliases and
    one exported variable. *)
Definition sample_executor : Executor :=
  mkExecutor (<["e" := "export"]> (<["ll" := "ls -la"]> ∅))
             "/tmp" true false (<["FOO" := "1"]> ∅) "/home/u" (Some "{}") [].

(** The test of [execute] for a [cd] line. *)
Definition is_cd (normalized : string) : bool :=
  String.eqb normalized "cd" || Py.startswith normalized "cd ".

Definition newline : string := String "010" "".

(** [name] without its last character, when that is a newline. *)
Fixpoint before_newline (name : string) : option string :=
  match name with
  | EmptyString => None
  | String c r =>
      if Ascii.eqb c "010" && String.eqb r EmptyString then Some EmptyString
      else String c <$> before_newline r
  end.

(** An identifier followed by one newline. *)
Definition identifier_and_newline (name : string) : bool :=
  match before_newline name with
  | Some base => strict_identifier base
  | None => false
  end.

(** A token that is no definition: it has no [=], or the name in front of
    the first [=] is not an identifier; the names that are an identifier
    followed by one newline are left aside. *)
Definition bad_token (token : string) : Prop :=
  match Py.partition "=" token with
  | None => True
  | Some (name, _) =>
      strict_identifier name = false ∧ identifier_and_newline name = false
  end.

(** Two aliases in a chain: [a] stands for [b], and [b] for [c]. *)
Definition chained_aliases : Executor :=
  mkExecutor (<["a" := "b"]> (<["b" := "c"]> ∅))
             "/tmp" true false ∅ "/home/u" (Some "{}") [].

End Shell.

(** ** The [jobs] listing

    [_show_jobs_list]: the table the [jobs] builtin prints, one row for
    every id of the selection sequence that the job table has. *)

Module JobList.
Import Jobs.

(** [s[:n]] *)
Fixpoint prefix (n : nat) (s : string) : string :=
  match n, s with
  | S k, String c r => String c (prefix k r)
  | _, _ => EmptyString
  end.

(** The four cells of a row: id, pid, status and command. *)
Record Row : Set := mkRow {
  row_id : string;
  row_pid : string;
  row_status : string;
  row_command : string
}.

Definition status_style (s : Status) : string :=
  match s with
  | running => "[green]running[/green]"
  | done => "[dim]done[/dim]"
  | failed => "[red]failed[/red]"
  | stopped => "[yellow]stopped[/yellow]"
  end.

(** [command[:60] + ("..." if len(command) > 60 else "")] *)
Definition command_cell (command : string) : string :=
  prefix 60 command
  ++ (if (60 <? String.length command)%nat then "..." else EmptyString).

Definition job_row (job_id : Z) (job_info : Job) : Row :=
  mkRow ("[" ++ pretty job_id ++ "]") (pretty (job_pid job_info))
        (status_style (job_status job_info))
        (command_cell (job_command job_info)).

(** The rows of the table, top row first. *)
Definition rows (e : Executor) : list Row :=
  omap (λ job_id, job_row job_id <$> jobs e !! job_id) (task_queue e).

(** [_show_jobs_list]: [None] is the line "No jobs running". *)
Definition _show_jobs_list (e : Executor) : option (list Row) :=
  if decide (jobs e = ∅) then None else Some (rows e).

(** The row of an entry of the job table. *)
Definition entry_row (entry : Z * Job) : Row := job_row entry.1 entry.2.

(** The entries of the table the selection sequence leads to, in its
    order. *)
Definition entries (e : Executor) : list (Z * Job) :=
  omap (λ job_id, pair job_id <$> jobs e !! job_id) (task_queue e).

End JobList.

(** ** Notions for the life of a job *)

Module JobStates.
Import Jobs.

(** [calm e e']: the step from [e] to [e'] starts and ends no monitor
    thread, adds no entry to the table and marks no job failed. *)
Definition calm (e e' : Executor) : Prop :=
  monitors e' = monitors e
  ∧ ∀ k j', jobs e' !! k = Some j' →
            ∃ j, jobs e !! k = Some j
                 ∧ (job_status j' = failed → job_status j = failed).

(** The operations the main thread of the shell makes; the other one is
    a turn of a monitor thread. *)
Definition main_thread (op : Op) : Prop :=
  ∀ os job_id, op ≠ Monitor os job_id.

(** The selection sequence mirrors the table: it lists the ids of the table
    and nothing else, the highest id first. *)
Definition mirrors (e : Executor) : Prop :=
  StronglySorted (λ a b, b < a) (task_queue e)
  ∧ ∀ k, k ∈ task_queue e ↔ is_Some (jobs e !! k).

(** The statuses a bare [fg] and a bare [bg] look for. *)
Definition wanted_by (cmd : string) (s : Status) : bool :=
  if String.eqb cmd "fg" then negb (is_finished s) else Status_eqb s stopped.

(** The processes cannot be polled: every call goes through but [poll]
    raises. *)
Definition unpollable_os : OS :=
  mkOS true (λ _ _, true) (λ _ _, true) (λ _, true) true true
       (λ _, PollRaises).

(** One job is launched and its monitor fails to poll it. *)
Definition after_failed_poll : Executor :=
  (run init [Background "sleep 100 &" (Spawned 4242 (Some 4242));
             Monitor unpollable_os 1]).1.

(** Two jobs are launched and the monitor of the second one finds its
    process dead. *)
Definition newest_done : Executor :=
  (run init [Background "sleep 100 &" (Spawned 4242 (Some 4242));
             Background "top &" (Spawned 4250 (Some 4250));
             Monitor sigterm_os 2]).1.

(** One job is launched and brought to the foreground: the executor while
    it waits for the job. *)
Definition waiting : Executor :=
  (fg_begin willing_os 1
     (run init [Background "sleep 100 &" (Spawned 4242 (Some 4242))]).1).1.

End JobStates.

(** ** Notions for the builtins *)

Module Builtins.
Import Shell.

(** A line of whitespace and nothing else. *)
Fixpoint blank (line : string) : bool :=
  match line with
  | String c r => Py.isspace c && blank r
  | EmptyString => true
  end.

(** The two quote characters [alias] strips from the ends of a value. *)
Definition quotes : string := String "'" (String "034" EmptyString).

(** What a token of an [alias] line defines: the name in front of the
    first [=] and the value after it, without quotes at its ends.  [None]
    for a token the handler refuses. *)
Definition alias_definition (token : string) : option (string * string) :=
  match Py.partition "=" token with
  | Some (name, value) =>
      if _is_valid_identifier name
      then Some (name, Py.strip_chars quotes value)
      else None
  | None => None
  end.

(** What a token of an [export] line defines. *)
Definition export_definition (token : string) : option (string * string) :=
  match Py.partition "=" token with
  | Some (name, value) =>
      if _is_valid_identifier name then Some (name, value) else None
  | None => None
  end.

(** The definitions made one after the other. *)
Definition define_all {M : Type} `{Insert string string M}
           (definitions : list (string * string)) (table : M) : M :=
  foldl (λ m d, <[d.1 := d.2]> m) table definitions.

(** A value that is stored as it stands: no [$((] with a [))] in it. *)
Definition plain_value (value : string) : bool :=
  negb (has_arithmetic value).

(** No NUL character in the text. *)
Definition nul_free (value : string) : bool :=
  negb (Py.contains (String "000" EmptyString) value).

(** A world whose directories [/tmp] and [/home/u] can be entered from
    anywhere by their absolute paths. *)
Definition absolute_world : World :=
  mkWorld "/home/u"
    (λ p, "/home/u" ++ Py.drop 1 p)
    (λ p, String.eqb p "/tmp" || String.eqb p "/home/u")
    (λ _, false)
    (λ c p, c ++ "/" ++ p)
    (λ c p, if String.eqb p "/tmp" || String.eqb p "/home/u" then Entered p
            else OSError ("[Errno 2] No such file or directory: '" ++ p ++ "'"))
    (λ c, String.eqb c "ls")
    true
    (λ _, None)
    true
    ["vim"; "top"; "less"]
    false
    (λ _, None)
    "0.0"
    true.

End Builtins.

(** ** The captured runner

    The tests [_handle_regular_command] makes on a line in front of the
    subprocess: whether the line goes through [_build_shell_invocation],
    and whether an empty result is passed over in silence. *)

Module Regular.
Import Shell.

(** [_contains_glob_pattern] *)
Definition _contains_glob_pattern (command : string) : bool :=
  existsb (fun char => Py.contains char command) ["*"; "?"; "["].

(** [_has_shell_redirection] *)
Definition _has_shell_redirection (command : string) : bool :=
  existsb (fun op => Py.contains op command)
          ["|"; ">"; "<"; "2>"; "&>"; ";"; "&&"; "||"].

Definition bash_builtins : list string :=
  [ "source"; "export"; "unset"; "alias"; "unalias"; "declare"; "typeset";
    "readonly" ].

(** [needs_shell_invocation] in [_handle_regular_command] *)
Definition needs_shell_invocation (command : string) : bool :=
  let command_parts := Py.split (Py.strip command) in
  let base_command :=
    match command_parts with
    | part :: _ => part
    | [] => EmptyString
    end in
  Py.contains "source " command
  || Py.startswith command "source"
  || in_list base_command bash_builtins
  || Py.contains "&&" command
  || Py.contains "||" command
  || Py.contains ";" command
  || Py.contains "export " command
  || Py.contains "unset " command
  || _has_shell_operator command
  || _contains_glob_pattern command.

(** [has_redirection_or_pipe] in [_handle_regular_command] *)
Definition has_redirection_or_pipe (command : string) : bool :=
  _has_shell_redirection command.

End Regular.

(** ** The [files] builtin: options

    The loop of [_handle_files_command] over [tokens[1:]].  It sets the
    directory to list, whether hidden entries are shown, the file to
    preview and how many entries of each kind are displayed; the first
    token it refuses ends the command with an error. *)

Module Files.
Import Shell.

Record Options : Type := mkOptions {
  path : string;
  show_hidden : bool;
  preview_target : option string;
  max_entries : Z;
  positional_set : bool
}.

(** The values in front of the loop. *)
Definition defaults (e : Executor) : Options :=
  mkOptions (cwd e) false None 20 false.

Definition with_show_hidden (o : Options) : Options :=
  mkOptions (path o) true (preview_target o) (max_entries o) (positional_set o).

Definition with_preview (target : string) (o : Options) : Options :=
  mkOptions (path o) (show_hidden o) (Some target) (max_entries o)
            (positional_set o).

Definition with_max (n : Z) (o : Options) : Options :=
  mkOptions (path o) (show_hidden o) (preview_target o) n (positional_set o).

Definition with_path (p : string) (o : Options) : Options :=
  mkOptions p (show_hidden o) (preview_target o) (max_entries o) true.

(** [max(5, min(100, n))] *)
Definition clamp (n : Z) : Z := Z.max 5 (Z.min 100 n).

(** [token.split("=", 1)[1]] for a token with an [=] *)
Definition after_equals (token : string) : string :=
  match Py.partition "=" token with
  | Some (_, value) => value
  | None => EmptyString
  end.

(** The path a positional token stands for. *)
Definition resolve (w : World) (e : Executor) (token : string) : string :=
  let resolved := expanduser w token in
  let resolved :=
    if Py.startswith resolved "/" then resolved else join_cwd e resolved in
  abspath w (cwd e) resolved.

Fixpoint files_options (w : World) (e : Executor) (tokens : list string)
         (o : Options) : string + Options :=
  match tokens with
  | [] => inr o
  | token :: rest =>
      if in_list token ["-a"; "--all"]
      then files_options w e rest (with_show_hidden o)
      else if in_list token ["-p"; "--preview"] then
        match rest with
        | target :: rest' => files_options w e rest' (with_preview target o)
        | [] => inl "files: --preview requires a file path"
        end
      else if Py.startswith token "--preview="
      then files_options w e rest (with_preview (after_equals token) o)
      else if in_list token ["-m"; "--max"] then
        match rest with
        | max_value :: rest' =>
            match Py.int max_value with
            | Some n => files_options w e rest' (with_max (clamp n) o)
            | None => inl "files: --max requires an integer between 5-100"
            end
        | [] => inl "files: --max requires an integer between 5-100"
        end
      else if Py.startswith token "--max=" then
        match Py.int (after_equals token) with
        | Some n => files_options w e rest (with_max (clamp n) o)
        | None => inl "files: invalid --max value"
        end
      else if Py.startswith token "-"
      then inl ("files: unknown option '" ++ token ++ "'")
      else if positional_set o then inl "files: multiple paths provided"
      else files_options w e rest (with_path (resolve w e token) o)
  end.

(** The options of a [files] line, or the error it is refused with. *)
Definition _handle_files_command (w : World) (e : Executor) (command : string)
  : string + Options :=
  match Shlex.split command with
  | Shlex.Tokens tokens => files_options w e (tail tokens) (defaults e)
  | err => inl ("files: " ++ Shlex.message err)
  end.

(** [entries[:max_entries]]; a negative bound counts from the end. *)
Definition displayed {A} (o : Options) (entries : list A) : list A :=
  if 0 <=? max_entries o
  then take (Z.to_nat (max_entries o)) entries
  else take (length entries - Z.to_nat (- max_entries o)) entries.

End Files.

(** ** [source]

    [_handle_source_command] and [_execute_source_like_command]: a file is
    sourced in a subprocess that prints its environment afterwards, and
    the variables it prints are copied into the environment of the shell.
    What the subprocess does is an argument. *)

Module Source.
Import Shell.

Record Completed : Set := mkCompleted {
  returncode : Z;
  stdout : string;
  stderr : string
}.

(** What [subprocess.run] comes to: a result, or an exception. *)
Inductive Run : Set :=
| Returns (result : Completed)
| Throws (text : string).

Definition nul : string := String "000" EmptyString.
Definition newline : ascii := "010"%char.

(** [os.environ[key] = value]: the new environment, or the text of the
    exception. *)
Definition putenv (key value : string) (env : gmap string string)
  : string + gmap string string :=
  if Py.contains nul key || Py.contains nul value
  then inl "embedded null byte"
  else match key with
       | EmptyString => inl "[Errno 22] Invalid argument"
       | _ => inr (<[key := value]> env)
       end.

(** [d[k] = v] on a dict kept in insertion order *)
Fixpoint assign {V : Type} (k : string) (v : V) (d : list (string * V))
  : list (string * V) :=
  match d with
  | [] => [(k, v)]
  | (k', v') :: r =>
      if String.eqb k k' then (k, v) :: r else (k', v') :: assign k v r
  end.

(** The keys the loop passes over. *)
Definition skipped (key : string) : bool :=
  in_list key ["PS1"; "PS2"; "BASH_FUNC_*"; "_"]
  || Py.startswith key "BASH_FUNC_".

(** [new_vars] and [changed_vars]; a changed variable is kept with its old
    and its new value. *)
Record Changes : Type := mkChanges {
  new_vars : list (string * string);
  changed_vars : list (string * (string * string))
}.

(** The loop over the lines of the output.  [old_env] is the environment
    as it was in front of the subprocess; [inl] is the exception that ends
    the loop, with the environment as it is by then. *)
Fixpoint adopt (old_env : gmap string string) (lines : list string)
         (env : gmap string string) (changes : Changes)
  : gmap string string * (string + Changes) :=
  match lines with
  | [] => (env, inr changes)
  | line :: rest =>
      if Py.contains "=" line && negb (Py.startswith line "_=") then
        match Py.partition "=" line with
        | None => adopt old_env rest env changes
        | Some (key, value) =>
            if skipped key then adopt old_env rest env changes
            else
              let changes' :=
                match old_env !! key with
                | None =>
                    mkChanges (assign key value (new_vars changes))
                              (changed_vars changes)
                | Some old =>
                    if negb (String.eqb old value)
                    then mkChanges (new_vars changes)
                                   (assign key (old, value)
                                           (changed_vars changes))
                    else changes
                end in
              match putenv key value env with
              | inl text => (env, inl text)
              | inr env' => adopt old_env rest env' changes'
              end
        end
      else adopt old_env rest env changes
  end.

(** How the command ends: the variables are adopted and the changes are
    reported, or an error is displayed. *)
Inductive Sourced : Type :=
| Adopted (env : gmap string string) (changes : Changes)
| Refused (env : gmap string string) (message : string).

(** The environment of the shell afterwards. *)
Definition environment (r : Sourced) : gmap string string :=
  match r with
  | Adopted env _ | Refused env _ => env
  end.

(** [_execute_source_like_command] *)
Definition _execute_source_like_command (original_command : string) (run : Run)
           (env : gmap string string) : Sourced :=
  match run with
  | Throws text => Refused env (original_command ++ ": " ++ text)
  | Returns result =>
      if returncode result =? 0 then
        match adopt env (Py.split_on newline (stdout result)) env
                    (mkChanges [] []) with
        | (env', inr changes) => Adopted env' changes
        | (env', inl text) => Refused env' (original_command ++ ": " ++ text)
        end
      else
        Refused env
          (original_command ++ ": "
           ++ match Py.strip (stderr result) with
              | EmptyString => "command failed"
              | text => text
              end)
  end.

(** The command handed to the shell: [source "<file>" && env]. *)
Definition bash_command (source_file : string) : string :=
  "source " ++ String "034" (source_file ++ String "034" " && env").

(** [_handle_source_command].  [exists_] is [os.path.exists]; [shell]
    says what running a command in the shell comes to. *)
Definition _handle_source_command (w : World) (exists_ : string -> bool)
           (shell : string -> Run) (command : string)
           (env : gmap string string) : Sourced :=
  match Py.strip (Py.drop 7 command) with
  | EmptyString => Refused env "source: missing file operand"
  | source_file =>
      let source_file := expanduser w source_file in
      if negb (exists_ source_file)
      then Refused env ("source: " ++ source_file
                        ++ ": No such file or directory")
      else _execute_source_like_command command
             (shell (bash_command source_file)) env
  end.

(** A shell that prints the given text and succeeds. *)
Definition printing (text : string) (command : string) : Run :=
  Returns (mkCompleted 0 text EmptyString).

(** What the loop keeps true of the report. *)
Definition reported (old_env env : gmap string string) (changes : Changes)
  : Prop :=
  NoDup (new_vars changes).*1
  ∧ NoDup (changed_vars changes).*1
  ∧ (∀ k v, (k, v) ∈ new_vars changes →
            old_env !! k = None ∧ env !! k = Some v)
  ∧ (∀ k old v, (k, (old, v)) ∈ changed_vars changes →
                old_env !! k = Some old ∧ old ≠ v).

(** Three lines of output: a new variable, another value for [FOO], and
    the variable [_] of the subprocess. *)
Definition three_lines : string :=
  "NEW=1" ++ String newline ("FOO=2" ++ String newline "_=/usr/bin/env").

End Source.

(** ** [deactivate]

    [_handle_deactivate_command] on the environment of the process: a
    virtualenv is left by taking its [bin] directory out of [PATH] and
    dropping its variables; failing that, a conda environment is left. *)

Module Venv.
Import Shell.

(** Truthiness of [os.environ.get(name)] *)
Definition truthy (o : option string) : bool :=
  match o with
  | Some (String _ _) => true
  | Some EmptyString | None => false
  end.

(** [os.path.join(a, b)] for a relative [b] *)
Definition path_join (a b : string) : string :=
  match a with
  | EmptyString => b
  | _ => if Py.endswith a "/" then a ++ b else a ++ "/" ++ b
  end.

(** [os.path.dirname]: the text up to the last slash, without the slashes
    at its end unless it is made of slashes only. *)
Fixpoint dirname_head (p : string) : string :=
  match p with
  | EmptyString => EmptyString
  | String c r =>
      if Py.contains "/" r then String c (dirname_head r)
      else if Ascii.eqb c "/" then "/" else EmptyString
  end.

Fixpoint all_slashes (s : string) : bool :=
  match s with
  | EmptyString => true
  | String c r => Ascii.eqb c "/" && all_slashes r
  end.

Definition dirname (p : string) : string :=
  let head := dirname_head p in
  if Shlex.nonempty head && negb (all_slashes head)
  then Py.rstrip_chars "/" head
  else head.

(** [os.pathsep] *)
Definition pathsep : ascii := ":"%char.

(** [for var in names: if var in os.environ: del os.environ[var];
    removed_vars.append(var)] *)
Fixpoint delete_present (names : list string) (env : gmap string string)
  : list string * gmap string string :=
  match names with
  | [] => ([], env)
  | var :: rest =>
      if decide (is_Some (env !! var))
      then let (removed, env') := delete_present rest (delete var env) in
           (var :: removed, env')
      else delete_present rest env
  end.

(** Whether a component of [PATH] stays. *)
Definition kept (venv_bin : string) (part : string) : bool :=
  negb (Py.startswith part venv_bin).

(** The virtualenv branch: the environment afterwards and the variables
    removed. *)
Definition leave_virtualenv (virtual_env : string) (env : gmap string string)
  : gmap string string * list string :=
  let current_path := default EmptyString (env !! "PATH") in
  let venv_bin := path_join virtual_env "bin" in
  let path_parts := Py.split_on pathsep current_path in
  let new_path_parts := List.filter (kept venv_bin) path_parts in
  let env1 := <["PATH" := Py.join ":" new_path_parts]> env in
  let (removed_vars, env2) :=
    delete_present ["VIRTUAL_ENV"; "VIRTUAL_ENV_PROMPT"] env1 in
  match env2 !! "_OLD_VIRTUAL_PS1" with
  | Some (String _ _ as original_ps1) =>
      (delete "_OLD_VIRTUAL_PS1" (<["PS1" := original_ps1]> env2),
       (removed_vars ++ ["_OLD_VIRTUAL_PS1"])%list)
  | _ => (env2, removed_vars)
  end.

(** The conda branch. *)
Definition leave_conda (env : gmap string string)
  : gmap string string * list string :=
  let (removed_vars, env1) :=
    delete_present ["CONDA_DEFAULT_ENV"; "CONDA_PREFIX"; "CONDA_PYTHON_EXE"]
                   env in
  match env1 !! "CONDA_EXE" with
  | Some (String _ _ as conda_base) =>
      let conda_base_bin := dirname conda_base in
      let current_path := default EmptyString (env1 !! "PATH") in
      if negb (Py.contains conda_base_bin current_path)
      then (<["PATH" := conda_base_bin ++ ":" ++ current_path]> env1,
            removed_vars)
      else (env1, removed_vars)
  | _ => (env1, removed_vars)
  end.

Inductive Deactivation : Type :=
| NothingActive      (* "deactivate: No virtual environment currently activated" *)
| Deactivated (env : gmap string string) (env_type env_name : string)
              (removed_vars : list string).

(** [_handle_deactivate_command] *)
Definition _handle_deactivate_command (env : gmap string string)
  : Deactivation :=
  let virtual_env := env !! "VIRTUAL_ENV" in
  let conda_env := env !! "CONDA_DEFAULT_ENV" in
  if negb (truthy virtual_env) && negb (truthy conda_env) then NothingActive
  else
    let (env_type, env_name) :=
      if truthy virtual_env
      then ("virtualenv/venv", Py.basename (default EmptyString virtual_env))
      else if truthy conda_env
              && negb (String.eqb (default EmptyString conda_env) "base")
      then ("conda", default EmptyString conda_env)
      else (EmptyString, EmptyString) in
    let (env', removed_vars) :=
      if truthy virtual_env
      then leave_virtualenv (default EmptyString virtual_env) env
      else if truthy conda_env then leave_conda env
      else (env, []) in
    Deactivated env' env_type env_name removed_vars.

(** The components of [PATH]. *)
Definition path_of (env : gmap string string) : list string :=
  Py.split_on pathsep (default EmptyString (env !! "PATH")).

(** The variables the virtualenv branch may write or delete. *)
Definition virtualenv_variables : list string :=
  ["PATH"; "PS1"; "VIRTUAL_ENV"; "VIRTUAL_ENV_PROMPT"; "_OLD_VIRTUAL_PS1"].

(** A shell inside the virtualenv [/home/u/venv]. *)
Definition inside_virtualenv : gmap string string :=
  <["VIRTUAL_ENV" := "/home/u/venv"]>
    (<["PATH" := "/home/u/venv/bin:/usr/bin:/bin"]>
       (<["_OLD_VIRTUAL_PS1" := "$ "]> (<["PS1" := "(venv) $ "]> ∅))).

End Venv.

(** * Properties *)

Module PyFacts.
Import Py.

Lemma int_digits_numeral s : ∀ count acc,
  all_digits s = true →
  (count + String.length s <= max_str_digits)%nat →
  int_digits count acc s = Some (numeral_value acc s).
Proof.
  induction s as [|c r IH]; intros count acc H Hlen; simpl in *.
  - unfold int_finish. destruct (Nat.leb_spec count max_str_digits); [done|lia].
  - apply andb_prop in H as [Hc Hr]. apply bool_decide_eq_true in Hc as [d Hd].
    rewrite Hd. simpl. apply IH; [done | lia].
Qed.

Lemma digit_not_space c : is_Some (digit c) → int_space c = false.
Proof.
  unfold digit, int_space. intros [d H].
  destruct (48 <=? nat_of_ascii c)%nat eqn:E1; [|done].
  destruct (nat_of_ascii c <=? 57)%nat eqn:E2; [|done].
  apply Nat.leb_le in E1, E2.
  repeat match goal with
  | |- context [(?a <=? ?b)%nat] => destruct (Nat.leb_spec a b); try lia
  | |- context [(?a =? ?b)%nat] => destruct (Nat.eqb_spec a b); try lia
  end; done.
Qed.

Lemma digit_not_sign c :
  is_Some (digit c) → c ≠ "+"%char ∧ c ≠ "-"%char ∧ c ≠ "%"%char.
Proof. intros [d H]. split_and!; intros ->; discriminate H. Qed.

(** [int] reads a plain numeral as its decimal value. *)
Lemma int_numeral s :
  is_numeral s = true → (String.length s <= max_str_digits)%nat →
  int s = Some (numeral_value 0 s).
Proof.
  destruct s as [|c r]; [done|]. simpl. intros H Hlen.
  apply andb_prop in H as [Hc Hr]. apply bool_decide_eq_true in Hc.
  unfold int. simpl. rewrite (digit_not_space c Hc).
  destruct (digit_not_sign c Hc) as (Hp & Hm & _).
  destruct Hc as [d Hd].
  assert (Hu : int_unsigned (String c r) = Some (numeral_value 0 (String c r))).
  { simpl. rewrite Hd. simpl. apply int_digits_numeral; [done | lia]. }
  destruct c as [[] [] [] [] [] [] [] []]; try done.
Qed.

Lemma int_percent b : int (String "%" b) = None.
Proof. reflexivity. Qed.

Lemma int_empty : int "" = None.
Proof. reflexivity. Qed.

End PyFacts.

Module JobFacts.
Import Jobs.

Lemma init_wf : wf init.
Proof. intros k j H. simpl in H. by rewrite lookup_empty in H. Qed.

(** The launch either leaves the executor alone, or takes the next id and
    fails to start, or takes it and records the job in front. *)
Lemma launch_cases command sp e :
  let r := _execute_background_command command sp e in
  (r = (e, Passthrough) ∨ r = (e, LaunchError))
  ∨ (sp = SpawnFails ∧ snd r = LaunchError
     ∧ jobs (fst r) = jobs e ∧ task_queue (fst r) = task_queue e
     ∧ next_job_id (fst r) = next_job_id e + 1
     ∧ foreground_job (fst r) = foreground_job e
     ∧ monitors (fst r) = monitors e
     ∧ terminal_owner (fst r) = terminal_owner e)
  ∨ (∃ pid pgid cmd,
        sp = Spawned pid pgid ∧ snd r = Launched (next_job_id e)
        ∧ jobs (fst r)
          = <[next_job_id e := mkJob (next_job_id e) pid pgid None cmd running None]> (jobs e)
        ∧ task_queue (fst r) = next_job_id e :: task_queue e
        ∧ next_job_id (fst r) = next_job_id e + 1
        ∧ foreground_job (fst r) = foreground_job e
        ∧ terminal_owner (fst r) = terminal_owner e).
Proof.
  unfold _execute_background_command.
  destruct (last_two (Py.rstrip command)) as [[a|] prev]; simpl; [|by left; right].
  destruct (negb (Ascii.eqb a "&")); [by left; left|].
  destruct (match prev with Some b => Ascii.eqb b "&" | None => false end);
    [by left; left|].
  destruct (Py.rstrip (drop_last (Py.rstrip command))) as [|c r] eqn:Hcmd;
    [by left; right|].
  destruct sp as [pid pgid|]; simpl.
  - right; right. exists pid, pgid, (String c r). done.
  - right; left. done.
Qed.

Lemma same_process_refl j : same_process j j.
Proof. by repeat split. Qed.

Lemma same_process_trans j1 j2 j3 :
  same_process j1 j2 → same_process j2 j3 → same_process j1 j3.
Proof. unfold same_process. intuition congruence. Qed.

Lemma frame_refl e : frame e e.
Proof.
  repeat split. intros k. destruct (jobs e !! k); eauto using same_process_refl.
Qed.

Lemma frame_trans e1 e2 e3 : frame e1 e2 → frame e2 e3 → frame e1 e3.
Proof.
  intros (Hq1 & Hn1 & Hj1) (Hq2 & Hn2 & Hj2).
  repeat split; [congruence | congruence |].
  intros k. specialize (Hj1 k). specialize (Hj2 k).
  destruct (jobs e1 !! k) as [j|].
  - destruct Hj1 as (j' & Hk & Hs). rewrite Hk in Hj2.
    destruct Hj2 as (j'' & Hk' & Hs'). eauto using same_process_trans.
  - by rewrite Hj1 in Hj2.
Qed.

Lemma frame_fields e e' :
  jobs e' = jobs e → task_queue e' = task_queue e →
  next_job_id e' = next_job_id e → frame e e'.
Proof.
  intros Hj Hq Hn. repeat split; [done | done |].
  intros k. rewrite Hj. destruct (jobs e !! k); eauto using same_process_refl.
Qed.

Lemma frame_update_job k0 f e :
  (∀ x, same_process x (f x)) → frame e (update_job k0 f e).
Proof.
  intros Hf. repeat split. intros k. simpl.
  rewrite lookup_alter. case_decide as E.
  - subst. destruct (jobs e !! k); simpl; eauto.
  - destruct (jobs e !! k); eauto using same_process_refl.
Qed.

Lemma frame_with_status k0 s e : frame e (update_job k0 (with_status s) e).
Proof. apply frame_update_job. intros x. by repeat split. Qed.

Lemma frame_finish k0 c e :
  frame e (update_job k0
             (λ j, with_exit_code c (with_status done (with_returncode (Some c) j)))
             e).
Proof. apply frame_update_job. intros x. by repeat split. Qed.

Lemma frame_with_foreground f e : frame e (with_foreground f e).
Proof. by apply frame_fields. Qed.

Lemma frame_with_monitors ms e : frame e (with_monitors ms e).
Proof. by apply frame_fields. Qed.

Lemma frame_set_foreground os pgid e :
  frame e (_set_foreground_process_group os e pgid).1.
Proof.
  unfold _set_foreground_process_group.
  destruct (negb (posix os)); [apply frame_refl|].
  destruct (tcsetpgrp_ok os pgid); [by apply frame_fields | apply frame_refl].
Qed.

Lemma frame_restore os e : frame e (_restore_terminal_control os e).1.
Proof.
  unfold _restore_terminal_control.
  destruct (negb (posix os) || negb (saved_terminal e)); [apply frame_refl|].
  destruct (restore_ok os); [by apply frame_fields | apply frame_refl].
Qed.

Create HintDb frame discriminated.
#[local] Hint Resolve frame_refl frame_with_status frame_finish
  frame_with_foreground frame_with_monitors frame_set_foreground
  frame_restore : frame.

Lemma frame_fg_begin os job_id e : frame e (fg_begin os job_id e).1.
Proof.
  unfold fg_begin.
  destruct (jobs e !! job_id) as [j|]; [|apply frame_refl].
  destruct (is_finished (job_status j)); [apply frame_refl|]. simpl.
  eapply frame_trans; [apply (frame_with_foreground (Some job_id))|].
  eapply frame_trans;
    [|destruct (job_pgid j);
       [destruct (truthy_opt _ && posix os)|]; eauto with frame].
  destruct (Status_eqb (job_status j) stopped); [|apply frame_refl].
  destruct (_send_signal_to_job _ _ _ _).1; eauto with frame.
Qed.

Lemma frame_fg_end os w job_id e : frame e (fg_end os w job_id e).
Proof.
  unfold fg_end.
  destruct (jobs e !! job_id) as [j|]; [|apply frame_refl].
  destruct (wait w j); [| |apply frame_refl].
  - eapply frame_trans; [|apply frame_finish].
    eapply frame_trans; [|apply frame_with_foreground].
    destruct (truthy_opt _ && posix os); eauto with frame.
  - eapply frame_trans; [|apply frame_with_foreground].
    destruct (posix os); eauto with frame.
Qed.

Lemma frame_fg os w job_id e : frame e (_bring_job_to_foreground os w job_id e).
Proof.
  unfold _bring_job_to_foreground.
  pose proof (frame_fg_begin os job_id e) as H.
  destruct (fg_begin os job_id e) as [e1 [|]]; simpl in H; [|done].
  eauto using frame_trans, frame_fg_end.
Qed.

Lemma frame_resume os job_id e : frame e (_resume_background_job os job_id e).
Proof.
  unfold _resume_background_job.
  destruct (jobs e !! job_id) as [j|]; [|apply frame_refl].
  destruct (is_finished (job_status j)); [apply frame_refl|].
  destruct (negb _); [apply frame_refl|].
  destruct (_send_signal_to_job _ _ _ _).1; eauto with frame.
Qed.

Lemma frame_suspend os e : frame e (_suspend_foreground_job os e).1.
Proof.
  unfold _suspend_foreground_job.
  destruct (negb (truthy_opt _)); [apply frame_refl|].
  destruct (foreground_job e) as [job_id|]; [|apply frame_refl].
  destruct (jobs e !! job_id) as [j|]; [|apply frame_with_foreground].
  destruct (negb _); [apply frame_refl|].
  destruct (_send_signal_to_job _ _ _ _).1; [|apply frame_refl]. simpl.
  eapply frame_trans; [|apply frame_with_foreground].
  eapply frame_trans; [apply (frame_with_status job_id stopped)|].
  destruct (posix os); eauto with frame.
Qed.

Lemma frame_interrupt os e : frame e (_interrupt_foreground_job os e).1.
Proof.
  unfold _interrupt_foreground_job.
  destruct (negb (truthy_opt _)); [apply frame_refl|].
  destruct (foreground_job e) as [job_id|]; [|apply frame_refl].
  destruct (jobs e !! job_id) as [j|]; [|apply frame_with_foreground].
  destruct (negb _); [apply frame_refl|].
  destruct (_send_signal_to_job _ _ _ _).1; [|apply frame_refl]. simpl.
  destruct (posix os); eauto with frame.
Qed.

Lemma frame_monitor os job_id e : frame e (monitor_tick os job_id e).
Proof.
  unfold monitor_tick.
  destruct (decide _); [|apply frame_refl].
  destruct (jobs e !! job_id) as [j|]; [|apply frame_with_monitors].
  destruct (poll os j).
  - destruct (Status_eqb _ _); eauto with frame.
  - eapply frame_trans; [apply frame_finish | apply frame_with_monitors].
  - eapply frame_trans; [apply frame_with_status | apply frame_with_monitors].
Qed.

Lemma cleanup_job_same os j : same_process j (cleanup_job os j).
Proof. unfold cleanup_job. by destruct (job_status j); repeat split. Qed.

Lemma frame_cleanup os e : frame e (_cleanup_all_jobs os e).
Proof.
  repeat split. intros k. simpl. rewrite lookup_fmap.
  destruct (jobs e !! k); simpl; eauto using cleanup_job_same.
Qed.

(** Every operation but a launch is a frame step. *)
Lemma step_frame e op :
  (∀ command sp, op ≠ Background command sp) → frame e (step e op).
Proof.
  intros Hop. destruct op; simpl;
    eauto using frame_fg, frame_resume, frame_suspend, frame_interrupt,
                frame_monitor, frame_cleanup.
  by destruct (Hop command sp).
Qed.

(** What one operation does to the ids, the selection sequence and the
    keys of the table. *)
Lemma step_effect e op :
  match assigned e op with
  | Some k =>
      k = next_job_id e
      ∧ next_job_id (step e op) = k + 1
      ∧ task_queue (step e op) = k :: task_queue e
      ∧ ∃ job, jobs (step e op) = <[k := job]> (jobs e)
               ∧ job_id job = k ∧ job_status job = running
  | None =>
      next_job_id e ≤ next_job_id (step e op)
      ∧ task_queue (step e op) = task_queue e
      ∧ ∀ k, match jobs e !! k with
             | Some j => ∃ j', jobs (step e op) !! k = Some j' ∧ same_process j j'
             | None => jobs (step e op) !! k = None
             end
  end.
Proof.
  destruct op as [command sp| | | | | |];
    [| match goal with
       | |- context [assigned e ?o] =>
           destruct (step_frame e o ltac:(done)) as (Hq & Hn & Hj)
       end; simpl assigned; cbv iota; split; [lia | by split] ..].
  simpl.
  destruct (launch_cases command sp e) as [[H|H]|[H|H]].
  - rewrite H; simpl. split; [lia|]. split; [done|]. apply frame_refl.
  - rewrite H; simpl. split; [lia|]. split; [done|]. apply frame_refl.
  - destruct H as (_ & -> & Hj & -> & -> & _).
    split; [lia|]. split; [done|]. rewrite Hj. apply frame_refl.
  - destruct H as (pid & pgid & cmd & _ & -> & -> & -> & -> & _).
    repeat split. by eexists.
Qed.

Lemma step_wf e op : wf e → wf (step e op).
Proof.
  intros Hwf k j' Hk. pose proof (step_effect e op) as H.
  destruct (assigned e op) as [k0|].
  - destruct H as (-> & Hn & _ & job & Hj & Hid & _). rewrite Hn, Hj in *.
    destruct (decide (k = next_job_id e)) as [->|Hne].
    + rewrite lookup_insert_eq in Hk. simplify_eq. split; [done | lia].
    + rewrite lookup_insert_ne in Hk by done.
      destruct (Hwf _ _ Hk). split; [done | lia].
  - destruct H as (Hn & _ & Hj). specialize (Hj k).
    destruct (jobs e !! k) as [j|] eqn:E; [|congruence].
    destruct Hj as (j'' & Hk' & Hid & _). simplify_eq.
    destruct (Hwf _ _ E). split; [congruence | lia].
Qed.

(** A whole session. *)
Lemma run_effect ops : ∀ e,
  wf e →
  let (e', ids) := run e ops in
  wf e'
  ∧ next_job_id e ≤ next_job_id e'
  ∧ StronglySorted Z.lt ids
  ∧ Forall (λ k, next_job_id e ≤ k < next_job_id e') ids
  ∧ task_queue e' = (reverse ids ++ task_queue e)%list
  ∧ ∀ k, is_Some (jobs e' !! k) → is_Some (jobs e !! k) ∨ k ∈ ids.
Proof.
  induction ops as [|op ops IH]; intros e Hwf; simpl.
  - split_and!; [done | lia | constructor | constructor | done | by left].
  - specialize (IH (step e op) (step_wf e op Hwf)).
    pose proof (step_effect e op) as Hs.
    destruct (run (step e op) ops) as [e' ids].
    destruct IH as (Hwf' & Hn & Hsort & Hall & Hq & Hdom).
    destruct (assigned e op) as [k0|].
    + destruct Hs as (-> & Hn0 & Hq0 & job & Hj & _).
      split_and!; [done | lia | | | |].
      * constructor; [done|]. eapply Forall_impl; [exact Hall|].
        intros k Hk. simpl in Hk. lia.
      * constructor; [lia|]. eapply Forall_impl; [exact Hall|].
        intros k Hk. simpl in Hk. lia.
      * rewrite Hq, Hq0, reverse_cons. by rewrite <- app_assoc.
      * intros k Hk. destruct (Hdom k Hk) as [H|H]; [|right; by constructor].
        rewrite Hj in H. destruct (decide (k = next_job_id e)) as [->|Hne].
        -- right. constructor.
        -- rewrite lookup_insert_ne in H by done. by left.
    + destruct Hs as (Hn0 & Hq0 & Hj).
      split_and!; [done | lia | done | | congruence |].
      * eapply Forall_impl; [exact Hall|]. intros k Hk. simpl in Hk. lia.
      * intros k Hk. destruct (Hdom k Hk) as [H|H]; [|by right].
        left. specialize (Hj k). destruct (jobs e !! k); [done|].
        rewrite Hj in H. by destruct H.
Qed.

(** C3.  In every session the ids handed out to background launches grow
    strictly in launch order, hence none is handed out twice; every entry of
    the job table sits under the id it was launched with, and no later
    operation gives that id to another launch or the entry another id,
    also once the job is done or cleaned up. *)
Theorem job_ids_strictly_increasing (ops : list Op) :
  let (e, ids) := run init ops in
  StronglySorted Z.lt ids
  ∧ NoDup ids
  ∧ (∀ k, k ∈ ids → 1 ≤ k < next_job_id e)
  ∧ (∀ k j, jobs e !! k = Some j → job_id j = k ∧ k ∈ ids)
  ∧ (∀ op k j, jobs e !! k = Some j →
       assigned e op ≠ Some k
       ∧ ∃ j', jobs (step e op) !! k = Some j' ∧ job_id j' = k).
Proof.
  pose proof (run_effect ops init init_wf) as H.
  destruct (run init ops) as [e ids].
  destruct H as (Hwf & Hn & Hsort & Hall & Hq & Hdom).
  split; [done|]. split.
  { clear -Hsort. induction Hsort as [|k ids Hs IH Hk]; constructor; [|done].
    intros Hin. rewrite Forall_forall in Hk.
    apply Hk in Hin. lia. }
  split.
  { intros k Hk. rewrite Forall_forall in Hall. by apply Hall. }
  split.
  { intros k j Hk. destruct (Hwf _ _ Hk) as [Hid _]. split; [done|].
    destruct (Hdom k) as [H|H]; [by eexists | | done].
    simpl in H. rewrite lookup_empty in H. by destruct H. }
  intros op k j Hk. destruct (Hwf _ _ Hk) as [Hid Hlt].
  pose proof (step_effect e op) as Hs. split.
  - intros Ha. rewrite Ha in Hs. destruct Hs as (-> & _). lia.
  - destruct (assigned e op) as [k0|].
    + destruct Hs as (-> & _ & _ & job & Hj & _). rewrite Hj.
      rewrite lookup_insert_ne by lia. eauto.
    + destruct Hs as (_ & _ & Hj). specialize (Hj k). rewrite Hk in Hj.
      destruct Hj as (j' & Hk' & Hid' & _). exists j'. split; [done | congruence].
Qed.

(** *** Job specs *)

#[local] Arguments Py.int : simpl never.
#[local] Arguments Ascii.eqb : simpl never.
#[local] Arguments String.eqb : simpl never.

(** The four readings of a job spec, on any state of the executor. *)
Lemma parse_job_spec_cases (e : Executor) (spec : string) :
  let s := Py.strip spec in
  ((s = "+" ∨ s = "%+") → _parse_job_spec e spec = head (task_queue e))
  ∧ ((s = "-" ∨ s = "%-") → _parse_job_spec e spec = task_queue e !! 1%nat)
  ∧ (∀ n, Py.int s = Some n ∨ (∃ b, s = String "%" b ∧ Py.int b = Some n) →
          _parse_job_spec e spec = lookup_id e n)
  ∧ (s ≠ "+" → s ≠ "%+" → s ≠ "-" → s ≠ "%-" →
     Py.int s = None → (∀ b, s = String "%" b → Py.int b = None) →
     _parse_job_spec e spec = None).
Proof.
  unfold _parse_job_spec, lookup_id. simpl.
  set (s := Py.strip spec). split_and!.
  - intros [->| ->]; simpl; by destruct (task_queue e).
  - intros [->| ->]; simpl; destruct (task_queue e) as [|a [|b q]]; simpl; try done.
    all: destruct (1 <? _) eqn:E; [done|]; apply Z.ltb_ge in E; lia.
  - intros n [Hn|(b & Hs & Hn)].
    + destruct (String.eqb_spec s "+") as [E|_]; [by rewrite E in Hn|].
      destruct (String.eqb_spec s "%+") as [E|_]; [by rewrite E in Hn|].
      destruct (String.eqb_spec s "-") as [E|_]; [by rewrite E in Hn|].
      destruct (String.eqb_spec s "%-") as [E|_]; [by rewrite E in Hn|].
      simpl.
      destruct s as [|c r]; [done|]. simpl. rewrite andb_true_r.
      destruct (Ascii.eqb_spec "%" c) as [<-|_];
        [by rewrite PyFacts.int_percent in Hn|].
      by rewrite Hn.
    + rewrite Hs.
      destruct b as [|c r]; [done|].
      destruct (String.eqb_spec (String "%" (String c r)) "%+") as [E|_];
        [by injection E as -> ->|].
      destruct (String.eqb_spec (String "%" (String c r)) "%-") as [E|_];
        [by injection E as -> ->|].
      simpl. destruct r; by rewrite Hn.
  - intros H1 H2 H3 H4 Hn Hb.
    destruct (String.eqb_spec s "+"); [done|].
    destruct (String.eqb_spec s "%+"); [done|].
    destruct (String.eqb_spec s "-"); [done|].
    destruct (String.eqb_spec s "%-"); [done|].
    simpl.
    destruct s as [|c r]; [done|]. simpl. rewrite andb_true_r.
    destruct (Ascii.eqb_spec "%" c) as [<-|_].
    + destruct r as [|c' r']; simpl; [done|]. by rewrite (Hb _ eq_refl).
    + by rewrite Hn.
Qed.

(** C1.  After any session the selection sequence lists the launched ids
    most recent first.  [%+] and [+] resolve to the id launched last, [%-]
    and [-] to the one launched before it; [%N] and [N], with [N] a decimal
    numeral or anything else [int] reads as the number [n], resolve to [n]
    when the table has a job [n]; every other spec resolves to no job, and
    [fg] and [bg] then answer "no such job". *)
Theorem job_spec_resolution (ops : list Op) (spec : string) :
  let e := (run init ops).1 in
  let ids := (run init ops).2 in
  let s := Py.strip spec in
  task_queue e = reverse ids
  ∧ ((s = "+" ∨ s = "%+") → _parse_job_spec e spec = last ids)
  ∧ ((s = "-" ∨ s = "%-") → _parse_job_spec e spec = reverse ids !! 1%nat)
  ∧ (∀ N, Py.is_numeral N = true →
          (String.length N <= Py.max_str_digits)%nat →
          s = N ∨ s = String "%" N →
          _parse_job_spec e spec = lookup_id e (Py.numeral_value 0 N))
  ∧ (∀ n, Py.int s = Some n ∨ (∃ b, s = String "%" b ∧ Py.int b = Some n) →
          _parse_job_spec e spec = lookup_id e n)
  ∧ (s ≠ "+" → s ≠ "%+" → s ≠ "-" → s ≠ "%-" →
     Py.int s = None → (∀ b, s = String "%" b → Py.int b = None) →
     _parse_job_spec e spec = None)
  ∧ (∀ command cmd more,
       Py.split (Py.strip command) = cmd :: spec :: more →
       (cmd = "fg" →
        _handle_job_control_command e command
        = from_option ToForeground (NoSuchJob "fg") (_parse_job_spec e spec))
       ∧ (cmd = "bg" →
          _handle_job_control_command e command
          = from_option ToBackground (NoSuchJob "bg") (_parse_job_spec e spec))).
Proof.
  pose proof (run_effect ops init init_wf) as H.
  destruct (run init ops) as [e ids].
  destruct H as (_ & _ & _ & _ & Hq & _). simpl in Hq. rewrite app_nil_r in Hq.
  destruct (parse_job_spec_cases e spec) as (Hplus & Hminus & Hnum & Hother).
  cbv zeta. cbn [fst snd]. split_and!; [done | | | | done | done |].
  - intros H. by rewrite (Hplus H), Hq, head_reverse.
  - intros H. by rewrite (Hminus H), Hq.
  - intros N HN Hlen [Hs|Hs]; apply Hnum.
    + left. rewrite Hs. by apply PyFacts.int_numeral.
    + right. exists N. split; [done|]. by apply PyFacts.int_numeral.
  - intros command cmd more Hparts. unfold _handle_job_control_command.
    rewrite Hparts. split; intros ->;
      by destruct (_parse_job_spec e spec).
Qed.

(** The five kinds of spec on the session of three launches. *)
Lemma job_spec_resolution_witness :
  let e := (run init three_launches).1 in
  _parse_job_spec e " %+ " = Some 3
  ∧ _parse_job_spec e "-" = Some 1
  ∧ _parse_job_spec e "%1" = Some 1
  ∧ _parse_job_spec e "2" = None
  ∧ _parse_job_spec e "%x" = None.
Proof.
  cbv zeta.
  pose proof (job_spec_resolution three_launches " %+ ") as (_ & H1 & _).
  pose proof (job_spec_resolution three_launches "-") as (_ & _ & H2 & _).
  pose proof (job_spec_resolution three_launches "%1") as (_ & _ & _ & H3 & _).
  pose proof (job_spec_resolution three_launches "2") as (_ & _ & _ & H4 & _).
  pose proof (job_spec_resolution three_launches "%x")
    as (_ & _ & _ & _ & _ & H5 & _).
  split_and!.
  - rewrite H1; [reflexivity | by right].
  - rewrite H2; [reflexivity | by left].
  - rewrite (H3 "1");
      [reflexivity | reflexivity | unfold Py.max_str_digits; simpl; lia
      | by right].
  - rewrite (H4 "2");
      [reflexivity | reflexivity | unfold Py.max_str_digits; simpl; lia
      | by left].
  - apply H5; try done. by intros b [= <-].
Defined.

(** *** Signals *)

(** The job is in the table, nothing is sent to it, and the call fails:
    the rule does not hold as worded. *)
Lemma signal_without_group_counterexample :
  is_Some (jobs no_group_session !! 1)
  ∧ _send_signal_to_job deaf_os no_group_session 1 SIGTERM = (false, [])
  ∧ ¬ group_first_always deaf_os no_group_session 1 SIGTERM.
Proof.
  split_and!.
  - by eexists.
  - reflexivity.
  - intros [(pgid & ok & H) _]. discriminate H.
Qed.

(** C5, amended.  A signal for a tracked job that has a process group id and
    a pid on record goes to the group first; when that fails it goes to the
    pid; the call fails exactly when both deliveries fail.  For a tracked
    job with no group id or no pid on record nothing is sent and the call
    fails. *)
Theorem signal_group_then_pid os e job_id sig j :
  jobs e !! job_id = Some j →
  let r := _send_signal_to_job os e job_id sig in
  match job_pgid j with
  | Some pgid =>
      if (pgid =? 0) || (job_pid j =? 0) then r = (false, [])
      else
        let g := killpg_ok os pgid sig in
        let p := kill_ok os (job_pid j) sig in
        head r.2 = Some (KillPg pgid sig g)
        ∧ r.2 = (if g then [KillPg pgid sig true]
                 else [KillPg pgid sig false; Kill (job_pid j) sig p])
        ∧ r.1 = g || p
        ∧ (r.1 = false ↔ g = false ∧ p = false)
  | None => r = (false, [])
  end.
Proof.
  intros Hj. unfold _send_signal_to_job, signal_job. rewrite Hj.
  destruct (job_pgid j) as [pgid|]; simpl; [|done].
  destruct (pgid =? 0); simpl; [done|].
  destruct (job_pid j =? 0); simpl; [done|].
  destruct (killpg_ok os pgid sig), (kill_ok os (job_pid j) sig);
    simpl; split_and!; try done; try (split; [done | by intros []]);
    by split; [intros _ | ].
Qed.

(** The group call fails, the pid call goes through. *)
Lemma signal_group_then_pid_witness :
  let os := mkOS true (λ _ _, false) (λ _ _, true) (λ _, true) true true
                 (λ _, StillRunning) in
  let e := (run init [Background "sleep 100 &" (Spawned 4242 (Some 4242))]).1 in
  (_send_signal_to_job os e 1 SIGTSTP).2
  = [KillPg 4242 SIGTSTP false; Kill 4242 SIGTSTP true]
  ∧ (_send_signal_to_job os e 1 SIGTSTP).1 = true.
Proof.
  cbv zeta.
  pose proof (signal_group_then_pid
                (mkOS true (λ _ _, false) (λ _ _, true) (λ _, true) true true
                      (λ _, StillRunning))
                (run init [Background "sleep 100 &" (Spawned 4242 (Some 4242))]).1
                1 SIGTSTP
                (mkJob 1 4242 (Some 4242) None "sleep 100" running None)
                eq_refl) as (_ & Hcalls & Hok & _).
  split; [exact Hcalls | exact Hok].
Defined.

(** *** Finished jobs *)


(** C2, the defect.  After the cleanup the job is done with exit code -1 and
    its monitor thread is still looping; at its next turn the monitor,
    whatever the operating system answers then, records the exit status of
    the process over the exit code of the finished job. *)
Theorem monitor_overwrites_finished_job (os : OS) :
  (job_status <$> jobs after_cleanup !! 1) = Some done
  ∧ (job_exit_code <$> jobs after_cleanup !! 1) = Some (Some (-1))
  ∧ 1 ∈ monitors after_cleanup
  ∧ (job_status <$> jobs (step after_cleanup (Monitor os 1)) !! 1)
    = Some done
  ∧ (job_exit_code <$> jobs (step after_cleanup (Monitor os 1)) !! 1)
    = Some (Some (-15)).
Proof. split_and!; reflexivity. Qed.

(** *** The foreground reference *)

(** The reference is set while the shell still owns the terminal. *)
Lemma foreground_without_terminal_counterexample :
  foreground_job waiting_without_terminal = Some 1
  ∧ terminal_owner waiting_without_terminal = None
  ∧ ¬ foreground_owns_terminal waiting_without_terminal.
Proof.
  split_and!; [reflexivity | reflexivity |].
  intros H. destruct (H 1 eq_refl) as (j & pgid & _ & _ & _ & Hown).
  discriminate Hown.
Qed.

Lemma restore_foreground os e :
  foreground_job (_restore_terminal_control os e).1 = foreground_job e.
Proof. unfold _restore_terminal_control. by repeat case_match. Qed.

Lemma set_foreground_foreground os pgid e :
  foreground_job (_set_foreground_process_group os e pgid).1 = foreground_job e.
Proof. unfold _set_foreground_process_group. by repeat case_match. Qed.

Lemma fg_begin_sets os job_id e :
  let r := fg_begin os job_id e in
  if r.2
  then foreground_job r.1 = Some job_id
       ∧ ∃ j, jobs e !! job_id = Some j ∧ is_finished (job_status j) = false
  else r.1 = e
       ∧ ∀ j, jobs e !! job_id = Some j → is_finished (job_status j) = true.
Proof.
  unfold fg_begin. destruct (jobs e !! job_id) as [j|]; simpl; [|done].
  destruct (is_finished (job_status j)) eqn:E; simpl.
  - split; [done|]. by intros j' [= <-].
  - split; [|by exists j].
    destruct (job_pgid j) as [pgid|];
      repeat case_match; rewrite ?set_foreground_foreground; done.
Qed.

Lemma fg_end_clears os w job_id e :
  is_Some (jobs e !! job_id) → w ≠ WaitInterrupted →
  foreground_job (fg_end os w job_id e) = None.
Proof.
  intros [j Hj] Hw. unfold fg_end. rewrite Hj.
  unfold wait. destruct (job_returncode j) as [c|]; [|destruct w as [c| |]];
    simpl; try done; by repeat case_match.
Qed.

Lemma suspend_clears os e e' :
  _suspend_foreground_job os e = (e', true) →
  foreground_job e' = None
  ∧ ∃ k j, foreground_job e = Some k ∧ jobs e' !! k = Some j
           ∧ job_status j = stopped.
Proof.
  unfold _suspend_foreground_job.
  destruct (negb (truthy_opt _)); [done|].
  destruct (foreground_job e) as [k|]; [|done].
  destruct (jobs e !! k) as [j|] eqn:Hj; [|done].
  destruct (negb _); [done|].
  destruct (_send_signal_to_job _ _ _ _).1; [|done].
  intros [= <-]. split; [done|]. exists k, (with_status stopped j).
  split; [done|]. split; [|done].
  assert (H : alter (with_status stopped) k (jobs e) !! k
              = Some (with_status stopped j))
    by (by rewrite lookup_alter_eq, Hj).
  unfold _restore_terminal_control. by repeat case_match.
Qed.

Lemma others_never_set_foreground e op :
  (∀ os w k, op ≠ Foreground os w k) →
  foreground_job (step e op) = foreground_job e
  ∨ foreground_job (step e op) = None.
Proof.
  intros Hop.
  destruct op as [command sp|os w job_id|os job_id|os|os|os job_id|os]; simpl.
  - destruct (launch_cases command sp e) as [[H|H]|[H|H]].
    + rewrite H. by left.
    + rewrite H. by left.
    + destruct H as (_ & _ & _ & _ & _ & -> & _). by left.
    + destruct H as (pid & pgid & cmd & _ & _ & _ & _ & _ & -> & _). by left.
  - by destruct (Hop os w job_id).
  - unfold _resume_background_job. repeat case_match; by left.
  - unfold _suspend_foreground_job.
    repeat case_match; simpl; auto.
  - unfold _interrupt_foreground_job.
    repeat case_match; simpl; rewrite ?restore_foreground; auto.
  - unfold monitor_tick. repeat case_match; by left.
  - by left.
Qed.

(** C6, amended.  The foreground reference is set when bring-to-foreground
    starts to wait for a tracked job that is not done or failed, before the
    continue signal and the hand-over of the terminal are tried and whether
    or not they succeed; no other operation sets it.  It is cleared when the
    wait returns, when the wait raises an error, and when a suspend signal
    stops the foreground job. *)
Theorem foreground_reference_lifecycle os w job_id e :
  (let r := fg_begin os job_id e in
   if r.2
   then foreground_job r.1 = Some job_id
        ∧ ∃ j, jobs e !! job_id = Some j ∧ is_finished (job_status j) = false
   else r.1 = e
        ∧ ∀ j, jobs e !! job_id = Some j → is_finished (job_status j) = true)
  ∧ (∀ op, (∀ os' w' k, op ≠ Foreground os' w' k) →
           foreground_job (step e op) = foreground_job e
           ∨ foreground_job (step e op) = None)
  ∧ (is_Some (jobs e !! job_id) → w ≠ WaitInterrupted →
     foreground_job (fg_end os w job_id e) = None)
  ∧ (∀ e', _suspend_foreground_job os e = (e', true) →
           foreground_job e' = None
           ∧ ∃ k j, foreground_job e = Some k ∧ jobs e' !! k = Some j
                    ∧ job_status j = stopped)
  ∧ (foreground_job e = None → w ≠ WaitInterrupted →
     foreground_job (_bring_job_to_foreground os w job_id e) = None).
Proof.
  split_and!.
  - apply fg_begin_sets.
  - apply others_never_set_foreground.
  - apply fg_end_clears.
  - apply suspend_clears.
  - intros He Hw. unfold _bring_job_to_foreground.
    pose proof (fg_begin_sets os job_id e) as Hb.
    pose proof (frame_fg_begin os job_id e) as (_ & _ & Hf).
    destruct (fg_begin os job_id e) as [e1 [|]]; simpl in *.
    + destruct Hb as (_ & j & Hj & _). specialize (Hf job_id).
      rewrite Hj in Hf. destruct Hf as (j' & Hj' & _).
      apply fg_end_clears; [by eexists | done].
    + by destruct Hb as [-> _].
Qed.

(** One job brought to the foreground: set during the wait, cleared when
    the wait returns or raises. *)
Lemma foreground_reference_lifecycle_witness :
  let e := (run init [Background "sleep 100 &" (Spawned 4242 (Some 4242))]).1 in
  foreground_job (fg_begin willing_os 1 e).1 = Some 1
  ∧ foreground_job (_bring_job_to_foreground willing_os (WaitExit 0) 1 e) = None
  ∧ foreground_job (_bring_job_to_foreground willing_os WaitRaises 1 e) = None.
Proof.
  cbv zeta. split_and!.
  - exact (proj1 (proj1 (foreground_reference_lifecycle willing_os (WaitExit 0) 1
       (run init [Background "sleep 100 &" (Spawned 4242 (Some 4242))]).1))).
  - apply (foreground_reference_lifecycle willing_os (WaitExit 0) 1); done.
  - apply (foreground_reference_lifecycle willing_os WaitRaises 1); done.
Defined.

End JobFacts.

Module JsonFacts.
Import Text Json.

Lemma app_cons x (a b : string) : String x a ++ b = String x (a ++ b).
Proof. reflexivity. Qed.

Lemma app_assoc (a b c : string) : (a ++ b) ++ c = a ++ (b ++ c).
Proof.
  induction a as [|x a IH]; [done|]. by rewrite !app_cons, IH.
Qed.

Lemma app_nil_r (a : string) : a ++ "" = a.
Proof. induction a as [|x a IH]; [done|]. by rewrite app_cons, IH. Qed.

Lemma length_app (a b : string) :
  String.length (a ++ b) = (String.length a + String.length b)%nat.
Proof.
  induction a as [|x a IH]; [done|]. rewrite app_cons. simpl. by rewrite IH.
Qed.

#[local] Arguments N.shiftr : simpl never.
#[local] Arguments N.shiftl : simpl never.
#[local] Arguments N.land : simpl never.
#[local] Arguments N.lor : simpl never.

(** *** Bits *)








(** *** Reading back what was written *)
















Lemma members_unfold fuel s acc :
  members (S fuel) s acc
  = match scanstring s with
    | None => None
    | Some (key, s1) =>
        match skip_ws s1 with
        | String ":" s2 =>
            match scan_once fuel (skip_ws s2) with
            | None => None
            | Some (value, s3) =>
                let acc' := set_member key value acc in
                match skip_ws s3 with
                | String "}" rest => Some (Object acc', rest)
                | String "," s4 =>
                    match skip_ws s4 with
                    | String q s5 =>
                        if Ascii.eqb q dquote then members fuel s5 acc'
                        else None
                    | EmptyString => None
                    end
                | _ => None
                end
            end
        | _ => None
        end
    end.
Proof. reflexivity. Qed.












(** *** The fuel of the reader *)

Lemma length_skip_ws s : (String.length (skip_ws s) <= String.length s)%nat.
Proof.
  induction s as [|c r IH]; simpl; [lia|]. destruct (is_ws c); simpl; lia.
Qed.

Lemma length_scanstring_bounded n : ∀ s t rest,
  (String.length s <= n)%nat →
  scanstring s = Some (t, rest) → (String.length rest < String.length s)%nat.
Proof.
  induction n as [|n IH]; intros s t rest Hn H;
    destruct s as [|c r]; try done; [simpl in Hn; lia|].
  cbn [scanstring] in H.
  assert (Hstep : ∀ x (r' : string) t' rest',
             (String.length r' < String.length (String c r))%nat →
             prepend x (scanstring r') = Some (t', rest') →
             (String.length rest' < String.length (String c r))%nat).
  { intros x r' t' rest' Hlt Hp.
    destruct (scanstring r') as [[t0 rest0]|] eqn:E; [|done].
    simpl in Hp. simplify_eq. apply IH in E; [lia|]. simpl in *. lia. }
  destruct (Ascii.eqb c dquote); [simplify_eq; simpl; lia|].
  destruct (Ascii.eqb c backslash).
  - destruct r as [|e r']; [done|].
    destruct (Ascii.eqb e "u").
    + destruct r' as [|h1 [|h2 [|h3 [|h4 r'']]]]; try done.
      destruct (hex4 h1 h2 h3 h4) as [n'|]; [|done].
      destruct r'' as [|a1 [|a2 [|a3 [|a4 [|a5 [|a6 r3]]]]]];
        try (eapply Hstep; [|exact H]; simpl; lia).
      destruct (if high_surrogate n' then _ else None);
        (eapply Hstep; [|exact H]; simpl; lia).
    + destruct (unescape e); [|done]. eapply Hstep; [|exact H]. simpl; lia.
  - destruct (N_of_ascii c <? 32)%N; [done|].
    eapply Hstep; [|exact H]. simpl; lia.
Qed.

Lemma length_scanstring s t rest :
  scanstring s = Some (t, rest) → (String.length rest < String.length s)%nat.
Proof. by apply (length_scanstring_bounded (String.length s)). Qed.

Lemma length_drop n s : (String.length (Py.drop n s) <= String.length s)%nat.
Proof.
  revert s. induction n as [|n IH]; intros [|c r]; simpl; try lia.
  specialize (IH r). lia.
Qed.

Lemma length_digits s :
  (String.length (digits s).2 <= String.length s)%nat.
Proof.
  induction s as [|c r IH]; simpl; [lia|].
  destruct (is_digit c); [|simpl; lia].
  destruct (digits r) as [run rest]. simpl in *. lia.
Qed.

Lemma length_fraction s :
  (String.length (fraction s).2 <= String.length s)%nat.
Proof.
  unfold fraction. destruct s as [|c r]; [simpl; lia|].
  destruct (Ascii.eqb_spec c ".") as [->|Hne].
  - pose proof (length_digits r). destruct (digits r) as [[|d run] rest];
      simpl in *; lia.
  - repeat case_match; simpl; try lia; by simplify_eq.
Qed.

Lemma length_exponent s :
  (String.length (exponent s).2 <= String.length s)%nat.
Proof.
  unfold exponent. destruct s as [|e r]; [simpl; lia|].
  destruct (Ascii.eqb e "e" || Ascii.eqb e "E"); [|simpl; lia].
  assert (H : ∀ sign r', (String.length r' <= String.length r)%nat →
            (String.length
               (match digits r' with
                | (EmptyString, _) => (EmptyString, String e r)
                | (run, rest) => (String e (sign ++ run), rest)
                end).2 <= String.length (String e r))%nat).
  { intros sign r' Hr'. pose proof (length_digits r').
    destruct (digits r') as [[|d run] rest]; simpl in *; lia. }
  destruct r as [|c r']; [apply (H "" ""); simpl; lia|].
  destruct (Ascii.eqb_spec c "+") as [->|H1]; [apply H; simpl; lia|].
  destruct (Ascii.eqb_spec c "-") as [->|H2]; [apply H; simpl; lia|].
  assert (Hc : (match String c r' with
                | String "+" r'0 => ("+", r'0)
                | String "-" r'0 => ("-", r'0)
                | _ => ("", String c r')
                end) = ("", String c r')).
  { repeat case_match; by simplify_eq. }
  rewrite Hc. by apply H.
Qed.

Lemma length_match_number s v rest :
  match_number s = Some (v, rest) →
  (String.length rest <= String.length s)%nat.
Proof.
  unfold match_number.
  assert (H : ∀ sign s1, (String.length s1 <= String.length s)%nat →
            match s1 with
            | String c r =>
                if is_digit c then
                  let (integer, rest) :=
                    if Ascii.eqb c "0" then (String c EmptyString, r)
                    else let (run, rest) := digits r in (String c run, rest) in
                  let (frac, rest1) := fraction rest in
                  let (exp, rest2) := exponent rest1 in
                  match frac, exp with
                  | EmptyString, EmptyString =>
                      if (String.length integer <=? max_str_digits)%nat
                      then Some (Number false (sign ++ integer), rest2)
                      else None
                  | _, _ =>
                      Some (Number true (sign ++ integer ++ frac ++ exp), rest2)
                  end
                else None
            | EmptyString => None
            end = Some (v, rest) →
            (String.length rest <= String.length s)%nat).
  { intros sign [|c r] Hs1 H; [done|].
    destruct (is_digit c); [|done].
    destruct (if Ascii.eqb c "0" then _ else _) as [integer rest0] eqn:E0.
    assert (String.length rest0 <= String.length r)%nat.
    { destruct (Ascii.eqb c "0"); [by simplify_eq|].
      pose proof (length_digits r). destruct (digits r). by simplify_eq. }
    pose proof (length_fraction rest0).
    destruct (fraction rest0) as [frac rest1].
    pose proof (length_exponent rest1).
    destruct (exponent rest1) as [exp rest2].
    simpl in *.
    assert (rest = rest2) by (repeat case_match; by simplify_eq).
    subst. lia. }
  destruct s as [|c r]; [done|].
  destruct (Ascii.eqb_spec c "-") as [->|Hne].
  - intros Hm. apply (H "-" r); [simpl; lia | done].
  - assert (Hc : (match String c r with
                  | String "-" r0 => ("-", r0)
                  | _ => (EmptyString, String c r)
                  end) = (EmptyString, String c r))
      by (by destruct c as [[] [] [] [] [] [] [] []]).
    rewrite Hc. by apply (H "" (String c r)).
Qed.

Lemma length_match_constant names : ∀ s v rest,
  match_constant names s = Some (v, rest) →
  (String.length rest <= String.length s)%nat.
Proof.
  induction names as [|name more IH]; intros s v rest; simpl; [done|].
  destruct (Py.startswith s name); [|by apply IH].
  intros [= _ <-]. apply length_drop.
Qed.

Lemma scan_once_unfold fuel s :
  scan_once (S fuel) s
  = match s with
    | String c r =>
        if Ascii.eqb c dquote then
          match scanstring r with
          | Some (t, rest) => Some (Str t, rest)
          | None => None
          end
        else if Ascii.eqb c "{" then
          match skip_ws r with
          | String "}" rest => Some (Object [], rest)
          | String q r' =>
              if Ascii.eqb q dquote then members fuel r' [] else None
          | EmptyString => None
          end
        else if Ascii.eqb c "[" then
          match skip_ws r with
          | String "]" rest => Some (Array [], rest)
          | r' => elements fuel r' []
          end
        else
          match match_constant constants s with
          | Some found => Some found
          | None => match_number s
          end
    | EmptyString => None
    end.
Proof. reflexivity. Qed.

Lemma elements_unfold fuel s acc :
  elements (S fuel) s acc
  = match scan_once fuel s with
    | None => None
    | Some (value, s1) =>
        match skip_ws s1 with
        | String "]" rest => Some (Array (acc ++ [value]), rest)
        | String "," s2 => elements fuel (skip_ws s2) (acc ++ [value])
        | _ => None
        end
    end.
Proof. reflexivity. Qed.

(** What is left after a value is no longer than the text. *)
Lemma length_scan fuel :
  (∀ s v rest, scan_once fuel s = Some (v, rest) →
     (String.length rest <= String.length s)%nat)
  ∧ (∀ s acc v rest, members fuel s acc = Some (v, rest) →
       (String.length rest <= String.length s)%nat)
  ∧ (∀ s acc v rest, elements fuel s acc = Some (v, rest) →
       (String.length rest <= String.length s)%nat).
Proof.
  induction fuel as [|fuel (IHs & IHm & IHe)]; [done|]. split_and!.
  - intros s v rest. rewrite scan_once_unfold.
    destruct s as [|c r]; [done|].
    destruct (Ascii.eqb c dquote).
    { destruct (scanstring r) as [[t rest']|] eqn:E; [|done].
      intros [= _ <-]. apply length_scanstring in E. simpl. lia. }
    pose proof (length_skip_ws r) as Hws.
    destruct (Ascii.eqb c "{").
    { destruct (skip_ws r) as [|q r'] eqn:E; [done|].
      assert (Hm : (if Ascii.eqb q dquote then members fuel r' [] else None)
                   = Some (v, rest) →
                   (String.length rest <= String.length (String c r))%nat).
      { destruct (Ascii.eqb q dquote); [|done].
        intros H%IHm. simpl in *. lia. }
      destruct (Ascii.eqb_spec q "}") as [->|Hne].
      - intros [= _ <-]. simpl in *. lia.
      - intros H. apply Hm. revert H.
        by destruct q as [[] [] [] [] [] [] [] []]. }
    destruct (Ascii.eqb c "[").
    { destruct (skip_ws r) as [|q r'] eqn:E.
      - intros H%IHe. simpl in *. lia.
      - destruct (Ascii.eqb_spec q "]") as [->|Hne].
        + intros [= _ <-]. simpl in *. lia.
        + intros H.
          assert (He : elements fuel (String q r') [] = Some (v, rest))
            by (revert H; by destruct q as [[] [] [] [] [] [] [] []]).
          apply IHe in He. simpl in *. lia. }
    destruct (match_constant constants (String c r)) as [found|] eqn:E.
    { intros [= ->]. by apply length_match_constant in E. }
    apply length_match_number.
  - intros s acc v rest. rewrite members_unfold.
    destruct (scanstring s) as [[key s1]|] eqn:E; [|done].
    apply length_scanstring in E.
    pose proof (length_skip_ws s1) as H1.
    destruct (skip_ws s1) as [|c s2]; [done|].
    destruct (Ascii.eqb_spec c ":") as [->|Hne];
      [|by destruct c as [[] [] [] [] [] [] [] []]].
    pose proof (length_skip_ws s2) as H2.
    destruct (scan_once fuel (skip_ws s2)) as [[value s3]|] eqn:E3; [|done].
    apply IHs in E3. lazy zeta.
    pose proof (length_skip_ws s3) as H3.
    destruct (skip_ws s3) as [|c' s4]; [done|].
    destruct (Ascii.eqb_spec c' "}") as [->|Hne1].
    { intros [= _ <-]. simpl in *. lia. }
    destruct (Ascii.eqb_spec c' ",") as [->|Hne2];
      [|by destruct c' as [[] [] [] [] [] [] [] []]].
    pose proof (length_skip_ws s4) as H4.
    destruct (skip_ws s4) as [|q s5]; [done|].
    destruct (Ascii.eqb q dquote); [|done].
    intros H%IHm. simpl in *. lia.
  - intros s acc v rest. rewrite elements_unfold.
    destruct (scan_once fuel s) as [[value s1]|] eqn:E; [|done].
    apply IHs in E.
    pose proof (length_skip_ws s1) as H1.
    destruct (skip_ws s1) as [|c s2]; [done|].
    destruct (Ascii.eqb_spec c "]") as [->|Hne1].
    { intros [= _ <-]. simpl in *. lia. }
    destruct (Ascii.eqb_spec c ",") as [->|Hne2];
      [|by destruct c as [[] [] [] [] [] [] [] []]].
    pose proof (length_skip_ws s2) as H2.
    intros H%IHe. simpl in *. lia.
Qed.

(** With fuel for twice the length of the text, one more unit changes
    nothing: the reader never stops for lack of fuel. *)
Lemma one_more fuel :
  (∀ s, (2 * String.length s < fuel)%nat →
     scan_once (S fuel) s = scan_once fuel s)
  ∧ (∀ s acc, (2 * String.length s + 1 < fuel)%nat →
       members (S fuel) s acc = members fuel s acc)
  ∧ (∀ s acc, (2 * String.length s + 1 < fuel)%nat →
       elements (S fuel) s acc = elements fuel s acc).
Proof.
  induction fuel as [|fuel (IHs & IHm & IHe)]; [split_and!; intros; lia|].
  destruct (length_scan fuel) as (Ls & _ & _).
  split_and!.
  - intros s Hs. rewrite (scan_once_unfold (S fuel)), (scan_once_unfold fuel).
    destruct s as [|c r]; [done|].
    destruct (Ascii.eqb c dquote); [done|].
    pose proof (length_skip_ws r) as Hws.
    destruct (Ascii.eqb c "{").
    { destruct (skip_ws r) as [|q r'] eqn:E; [done|].
      rewrite IHm by (simpl in *; lia).
      by destruct q as [[] [] [] [] [] [] [] []]. }
    destruct (Ascii.eqb c "["); [|done].
    destruct (skip_ws r) as [|q r'] eqn:E.
    + apply IHe. simpl in *. lia.
    + assert (He : elements (S fuel) (String q r') []
                   = elements fuel (String q r') [])
        by (apply IHe; simpl in *; lia).
      destruct (Ascii.eqb_spec q "]") as [->|Hne]; [done|].
      by destruct q as [[] [] [] [] [] [] [] []].
  - intros s acc Hs.
    rewrite (members_unfold (S fuel)), (members_unfold fuel).
    destruct (scanstring s) as [[key s1]|] eqn:E; [|done].
    apply length_scanstring in E.
    pose proof (length_skip_ws s1) as H1.
    destruct (skip_ws s1) as [|c s2]; [done|].
    destruct (Ascii.eqb_spec c ":") as [->|Hne];
      [|by destruct c as [[] [] [] [] [] [] [] []]].
    pose proof (length_skip_ws s2) as H2.
    rewrite IHs by (simpl in *; lia).
    destruct (scan_once fuel (skip_ws s2)) as [[value s3]|] eqn:E3;
      [|done].
    apply Ls in E3. lazy zeta.
    pose proof (length_skip_ws s3) as H3.
    destruct (skip_ws s3) as [|c' s4]; [done|].
    destruct (Ascii.eqb_spec c' ",") as [->|Hne'];
      [|by destruct c' as [[] [] [] [] [] [] [] []]].
    pose proof (length_skip_ws s4) as H4.
    destruct (skip_ws s4) as [|q s5]; [done|].
    rewrite IHm by (simpl in *; lia). done.
  - intros s acc Hs.
    rewrite (elements_unfold (S fuel)), (elements_unfold fuel).
    rewrite IHs by lia.
    destruct (scan_once fuel s) as [[value s1]|] eqn:E; [|done].
    apply Ls in E.
    pose proof (length_skip_ws s1) as H1.
    destruct (skip_ws s1) as [|c s2]; [done|].
    destruct (Ascii.eqb_spec c ",") as [->|Hne];
      [|by destruct c as [[] [] [] [] [] [] [] []]].
    pose proof (length_skip_ws s2) as H2.
    rewrite IHe by (simpl in *; lia). done.
Qed.

Lemma enough_fuel fuel extra s :
  (2 * String.length s < fuel)%nat →
  scan_once (fuel + extra) s = scan_once fuel s.
Proof.
  intros Hs. induction extra as [|extra IH]; [by rewrite Nat.add_0_r|].
  rewrite Nat.add_succ_r, <- IH. apply (one_more (fuel + extra)). lia.
Qed.

(** [loads] has all the fuel it can use. *)
Lemma loads_fuel s extra :
  scan_once (S (2 * String.length s) + extra) (skip_ws s)
  = scan_once (S (2 * String.length s)) (skip_ws s).
Proof. apply enough_fuel. pose proof (length_skip_ws s). lia. Qed.

End JsonFacts.

Module ShellFacts.
Import Shell.

#[local] Arguments Ascii.eqb : simpl never.
#[local] Arguments String.eqb : simpl never.

(** *** The steps in front of the alias step *)

Lemma with_log_same e : with_log (log e) e = e.
Proof. by destruct e. Qed.

Lemma with_log_twice l l' e : with_log l (with_log l' e) = with_log l e.
Proof. done. Qed.

Lemma say_with_log u e : say u e = with_log (log e ++ [u]) e.
Proof. done. Qed.

Lemma evaluate_log w expression e r e' :
  _evaluate_arithmetic_expression w expression e = (r, e') →
  ∃ l, e' = with_log l e.
Proof.
  unfold _evaluate_arithmetic_expression. intros H.
  repeat case_match; simplify_eq;
    eauto using eq_sym, with_log_same, say_with_log.
Qed.

Lemma assignment_updates_log w tokens : ∀ assignments e r e',
  assignment_updates w tokens assignments e = (r, e') →
  ∃ l, e' = with_log l e.
Proof.
  induction tokens as [|token rest IH]; intros assignments e r e' H; simpl in H.
  - simplify_eq. eauto using eq_sym, with_log_same.
  - destruct (Py.partition "=" token) as [[name value]|];
      [|simplify_eq; eauto using eq_sym, with_log_same].
    destruct (negb (_is_valid_identifier name));
      [simplify_eq; eauto using eq_sym, with_log_same|].
    destruct (has_arithmetic value); [|by eapply IH].
    destruct (_evaluate_arithmetic_expression w value e) as [r1 e1] eqn:E.
    apply evaluate_log in E as [l1 ->].
    destruct r1; apply IH in H as [l ->]; by exists l.
Qed.

Lemma assignment_only_continue w command e e' :
  _handle_assignment_only w command e = Ok false e' →
  ∃ l, e' = with_log l e.
Proof.
  unfold _handle_assignment_only. intros H.
  destruct (negb (Py.contains "=" command) || Py.startswith command "alias");
    [simplify_eq; eauto using eq_sym, with_log_same|].
  destruct (match Shlex.split command with
            | Shlex.Tokens ts => ts | _ => [] end) as [|first others];
    [simplify_eq; eauto using eq_sym, with_log_same|].
  destruct (forallb (Py.contains "=") (first :: others)).
  - destruct (assignment_updates w (first :: others) [] e) as [r e1] eqn:E.
    apply assignment_updates_log in E as [l ->].
    destruct r as [assignments|]; [|simplify_eq; by exists l].
    by destruct (setenv_all assignments _) as [env []].
  - destruct (Py.partition "=" first) as [[name partial_value]|];
      [|simplify_eq; eauto using eq_sym, with_log_same].
    destruct (negb (_is_valid_identifier name));
      [simplify_eq; eauto using eq_sym, with_log_same|].
    destruct (has_arithmetic _);
      [|simplify_eq; eauto using eq_sym, with_log_same].
    destruct (_evaluate_arithmetic_expression w _ e) as [r e1] eqn:E.
    apply evaluate_log in E as [l ->].
    destruct r as [evaluated|]; [|simplify_eq; by exists l].
    simpl in H. by destruct (Py.contains _ evaluated).
Qed.

Lemma settings_continue w normalized e e' :
  settings w normalized e = Ok None e' → ∃ l, e' = with_log l e.
Proof.
  unfold settings, _handle_alias_management, _handle_export_command,
    _handle_unset_command.
  intros H.
  destruct (String.eqb normalized "alias"); [done|].
  destruct (Py.startswith normalized "alias "); [done|].
  destruct (Py.startswith normalized "unalias"); [done|].
  destruct (negb (Py.startswith normalized "export")).
  - destruct (negb (Py.startswith normalized "unset ")).
    + destruct (_handle_assignment_only w normalized e) as [[] e4|] eqn:E;
        try done.
      simplify_eq. by eapply assignment_only_continue.
    + repeat case_match; simplify_eq.
  - repeat case_match; simplify_eq.
Qed.

Lemma early_continue w command e e' :
  early w command e = Ok None e' →
  script_active e = false ∧ ∃ l, e' = with_log l e.
Proof.
  unfold early, _handle_environment_commands, _handle_script_commands.
  intros H.
  repeat (case_match; simplify_eq);
    (split; [done | by eapply settings_continue]).
Qed.

(** *** [cd] *)

Lemma is_cd_shape n :
  is_cd n = true → n = "cd" ∨ ∃ r, n = String "c" (String "d" (String " " r)).
Proof.
  unfold is_cd. intros H. apply orb_prop in H as [H|H].
  - left. by apply String.eqb_eq.
  - right. destruct n as [|a [|b [|c r]]]; simpl in H; try done;
      rewrite ?andb_false_r in H; try done.
    rewrite andb_true_r in H.
    apply andb_prop in H as [Ha H]. apply andb_prop in H as [Hb Hc].
    apply Ascii.eqb_eq in Ha, Hb, Hc. subst. by eexists.
Qed.

Lemma dispatch_cd w command e :
  is_cd (Py.strip command) = true →
  _has_shell_operator command = false →
  dispatch w command e
  = match _handle_cd_command w (Py.strip command) e with
    | Ok _ e' => Ok (ChangeDirectory (Py.strip command)) (say UpdateCache e')
    | Raise text e' => Raise text e'
    end.
Proof.
  intros Hcd Hop. unfold dispatch. cbv zeta. rewrite Hop.
  fold (is_cd (Py.strip command)). rewrite Hcd.
  destruct (is_cd_shape _ Hcd) as [->|[r ->]]; reflexivity.
Qed.

(** C7.  When the operating system refuses the directory a [cd] command
    asks for, the handler returns normally, the working directory and the
    previous directory are as before, and the error is displayed and logged
    with the text of the OS error; a line the dispatcher takes for a [cd]
    command ends as such, not as a failure of the dispatcher. *)
Theorem cd_failure_changes_nothing w command e text :
  chdir w (cwd e) (cd_target w e command) = OSError text →
  let e' := say (Context command ("cd: " ++ text))
                (say (DisplayError command ("cd: " ++ text)) e) in
  _handle_cd_command w command e = Ok tt e'
  ∧ cwd e' = cwd e
  ∧ previous_directory e' = previous_directory e
  ∧ log e' = (log e ++ [DisplayError command ("cd: " ++ text);
                        Context command ("cd: " ++ text)])%list
  ∧ (∀ line, Py.strip line = command → is_cd command = true →
             _has_shell_operator line = false →
             dispatch w line e = Ok (ChangeDirectory command) (say UpdateCache e'))
  ∧ (∀ line e0, early w line e0 = Ok None e → Py.strip line ≠ "" →
                Py.strip (_expand_alias e line) = command →
                is_cd command = true →
                _has_shell_operator (_expand_alias e line) = false →
                execute w line e0 = (ChangeDirectory command, say UpdateCache e')).
Proof.
  intros H. cbv zeta.
  assert (Hcd : _handle_cd_command w command e
                = Ok tt (say (Context command ("cd: " ++ text))
                             (say (DisplayError command ("cd: " ++ text)) e))).
  { unfold _handle_cd_command. by rewrite H. }
  split_and!; try done.
  - simpl. by rewrite <- app_assoc.
  - intros line <- Hiscd Hop. rewrite dispatch_cd by done. by rewrite Hcd.
  - intros line e0 Hearly Hline Hx Hiscd Hop. unfold execute.
    destruct (Py.strip line) eqn:E; [done|]. rewrite Hearly.
    cbv zeta. rewrite dispatch_cd by (by rewrite ?Hx). by rewrite Hx, Hcd.
Qed.

(** [cd /nonexistent] in the sample world. *)
Lemma cd_failure_changes_nothing_witness :
  (execute sample_world "cd /nonexistent" sample_executor).1
  = ChangeDirectory "cd /nonexistent"
  ∧ cwd (execute sample_world "cd /nonexistent" sample_executor).2 = "/home/u"
  ∧ previous_directory (execute sample_world "cd /nonexistent" sample_executor).2
    = "/tmp"
  ∧ log (execute sample_world "cd /nonexistent" sample_executor).2
    = [DisplayError "cd /nonexistent"
         "cd: [Errno 2] No such file or directory: '/nonexistent'";
       Context "cd /nonexistent"
         "cd: [Errno 2] No such file or directory: '/nonexistent'";
       UpdateCache].
Proof.
  pose proof (cd_failure_changes_nothing sample_world "cd /nonexistent"
                sample_executor
                "[Errno 2] No such file or directory: '/nonexistent'"
                eq_refl) as (_ & _ & _ & _ & _ & H).
  rewrite (H "cd /nonexistent" sample_executor) by done.
  by split_and!.
Defined.

(** *** Bare [.], [..] and [-] *)

(** C10.  A line that is just [.], [..] or [-] makes the auto-cd step call
    the [cd] handler with [cd .], [cd ..] or [cd -], whatever the
    known-command test and the directory test would say ([.] is itself a
    known command); the handler asks the operating system for [.], [..] or
    the previous directory.  Such a line reaches the auto-cd step when
    script mode is off and the token is neither an alias nor configured as
    an interactive command, and it then leaves the executor as the line
    [cd .], [cd ..] or [cd -] does, up to the refresh of the completion
    cache that only the latter triggers. *)
Theorem bare_dot_dash_changes_directory w e cmd :
  cmd = "." ∨ cmd = ".." ∨ cmd = "-" →
  (∀ line, Py.strip line = cmd →
     _handle_auto_cd w line e
     = match _handle_cd_command w ("cd " ++ cmd) e with
       | Ok _ e' => Ok true e'
       | Raise text e' => Raise text e'
       end)
  ∧ _is_known_command w e "." = true
  ∧ cd_target w e ("cd " ++ cmd)
    = (if String.eqb cmd "-"
       then match previous_directory e with
            | "" => home w
            | previous => previous
            end
       else cmd)
  ∧ (script_active e = false → aliases e !! cmd = None →
     in_list cmd (interactive_commands w) = false →
     execute w cmd e
     = match _handle_cd_command w ("cd " ++ cmd) e with
       | Ok _ e' => (AutoChangeDirectory, e')
       | Raise text e' => caught cmd text e'
       end)
  ∧ (script_active e = false → aliases e !! "cd" = None →
     execute w ("cd " ++ cmd) e
     = match _handle_cd_command w ("cd " ++ cmd) e with
       | Ok _ e' => (ChangeDirectory ("cd " ++ cmd), say UpdateCache e')
       | Raise text e' => caught ("cd " ++ cmd) text e'
       end).
Proof.
  intros Hcmd. split_and!.
  - intros line Hline. unfold _handle_auto_cd. cbv zeta. rewrite Hline.
    by destruct Hcmd as [->|[->| ->]].
  - reflexivity.
  - by destruct Hcmd as [->|[->| ->]].
  - intros Hs Ha Hi.
    assert (Hearly : early w cmd e = Ok None e).
    { unfold early, settings. cbv zeta.
      destruct Hcmd as [->|[->| ->]]; simpl; by rewrite Hs. }
    assert (Hexp : _expand_alias e cmd = cmd).
    { unfold _expand_alias.
      replace (Shlex.split cmd) with (Shlex.Tokens [cmd])
        by (by destruct Hcmd as [->|[->| ->]]).
      by rewrite Ha. }
    assert (Hint : _is_interactive_command w e cmd = Some false).
    { unfold _is_interactive_command.
      destruct Hcmd as [->|[->| ->]]; simpl; simpl in Hi; by rewrite Hi. }
    unfold execute. rewrite Hearly. cbv zeta. rewrite Hexp.
    assert (Hd : dispatch w cmd e
                 = match _handle_cd_command w ("cd " ++ cmd) e with
                   | Ok _ e' => Ok AutoChangeDirectory e'
                   | Raise text e' => Raise text e'
                   end).
    { unfold dispatch. cbv zeta. rewrite Hint. unfold _handle_auto_cd.
      destruct Hcmd as [->|[->| ->]]; simpl;
        by destruct (_handle_cd_command w _ e). }
    rewrite Hd.
    destruct Hcmd as [->|[->| ->]]; simpl;
      by destruct (_handle_cd_command w _ e).
  - intros Hs Ha.
    assert (Hearly : early w ("cd " ++ cmd) e = Ok None e).
    { unfold early, settings. cbv zeta.
      destruct Hcmd as [->|[->| ->]]; simpl; by rewrite Hs. }
    assert (Hexp : _expand_alias e ("cd " ++ cmd) = "cd " ++ cmd).
    { unfold _expand_alias.
      replace (Shlex.split ("cd " ++ cmd)) with (Shlex.Tokens ["cd"; cmd])
        by (by destruct Hcmd as [->|[->| ->]]).
      by rewrite Ha. }
    unfold execute. rewrite Hearly. cbv zeta. rewrite Hexp.
    rewrite dispatch_cd by (by destruct Hcmd as [->|[->| ->]]).
    destruct Hcmd as [->|[->| ->]]; simpl;
      by destruct (_handle_cd_command w _ e).
Qed.

(** The bare line [-] takes the sample session back to [/tmp]. *)
Lemma bare_dot_dash_changes_directory_witness :
  execute sample_world "-" sample_executor
  = (AutoChangeDirectory,
     say (Context "cd -" "Changed directory to: /tmp")
         (with_directories "/tmp" "/home/u" sample_executor)).
Proof.
  pose proof (bare_dot_dash_changes_directory sample_world sample_executor "-"
                (or_intror (or_intror eq_refl))) as (_ & _ & _ & H & _).
  by rewrite H.
Defined.

(** *** Syntax errors in [alias], [export] and [unset] *)

(** The names the executor accepts are the identifiers and the identifiers
    followed by one newline: the [$] of the pattern also matches in front of
    a last newline. *)
Lemma identifier_tail_split r :
  identifier_tail r
  = all_alnum_ r
    || match before_newline r with
       | Some base => all_alnum_ base
       | None => false
       end.
Proof.
  induction r as [|c r IH]; [done|].
  cbn [identifier_tail all_alnum_ before_newline].
  destruct (is_alnum_ c) eqn:Hc.
  - destruct (Ascii.eqb_spec c "010") as [->|_]; [done|].
    rewrite IH. cbn [andb].
    destruct (before_newline r) as [base|]; [|done].
    cbn [fmap option_fmap option_map all_alnum_]. by rewrite Hc.
  - cbn [andb orb].
    destruct (Ascii.eqb c "010" && String.eqb r ""); [done|].
    destruct (before_newline r) as [base|]; [|done].
    cbn [fmap option_fmap option_map all_alnum_]. by rewrite Hc.
Qed.

Lemma valid_identifier_split name :
  _is_valid_identifier name
  = strict_identifier name || identifier_and_newline name.
Proof.
  destruct name as [|c r]; [done|].
  unfold _is_valid_identifier, strict_identifier, identifier_and_newline.
  rewrite identifier_tail_split. cbn [before_newline].
  destruct (Ascii.eqb_spec c "010") as [->|_].
  - replace (Ascii.eqb "010" "010") with true by reflexivity.
    replace (is_alpha_ "010") with false by reflexivity.
    destruct (String.eqb r ""); [reflexivity|].
    by destruct (before_newline r).
  - cbn [andb].
    destruct (before_newline r) as [base|];
      cbn [fmap option_fmap option_map strict_identifier];
      destruct (is_alpha_ c); simpl; by rewrite ?orb_false_r.
Qed.

Lemma bad_name_refused name :
  strict_identifier name = false → identifier_and_newline name = false →
  _is_valid_identifier name = false.
Proof. intros Hs Hn. by rewrite valid_identifier_split, Hs, Hn. Qed.

Lemma alias_updates_bad tokens :
  Exists bad_token tokens →
  ∀ updates, ∃ message, alias_updates tokens updates = inl message.
Proof.
  induction tokens as [|token rest IH]; intros Hbad updates;
    [by apply Exists_nil in Hbad|].
  simpl. unfold bad_token in Hbad.
  destruct (Py.partition "=" token) as [[name value]|] eqn:E; [|by eexists].
  destruct (_is_valid_identifier name) eqn:Ev; simpl; [|by eexists].
  apply IH. apply Exists_cons in Hbad as [Hbad|Hbad]; [|done].
  rewrite E in Hbad. destruct Hbad as [Hs Hn].
  by rewrite (bad_name_refused name Hs Hn) in Ev.
Qed.

Lemma export_updates_bad tokens :
  Exists bad_token tokens →
  ∀ updates, ∃ message, export_updates tokens updates = inl message.
Proof.
  induction tokens as [|token rest IH]; intros Hbad updates;
    [by apply Exists_nil in Hbad|].
  simpl. unfold bad_token in Hbad.
  destruct (Py.partition "=" token) as [[name value]|] eqn:E; [|by eexists].
  destruct (_is_valid_identifier name) eqn:Ev; simpl; [|by eexists].
  apply IH. apply Exists_cons in Hbad as [Hbad|Hbad]; [|done].
  rewrite E in Hbad. destruct Hbad as [Hs Hn].
  by rewrite (bad_name_refused name Hs Hn) in Ev.
Qed.

(** [unset FOO 1bad]: [1bad] is no identifier, yet [FOO] is removed and no
    error is displayed. *)
Lemma unset_invalid_name_counterexample :
  let r := _handle_unset_command "unset FOO 1bad" sample_executor in
  bad_token "1bad"
  ∧ environ sample_executor !! "FOO" = Some "1"
  ∧ environ r.1 !! "FOO" = None
  ∧ log r.1 = [Print "[green]Unset:[/green] FOO"].
Proof. cbv zeta. by split_and!. Qed.

(** The names left aside below: [foo] followed by a newline is no
    identifier, yet it passes [_is_valid_identifier], and [alias] and
    [export] take it for a name. *)
Lemma newline_name_is_accepted :
  let name := "foo" ++ newline in
  strict_identifier name = false
  ∧ identifier_and_newline name = true
  ∧ _is_valid_identifier name = true
  ∧ aliases (_handle_alias_command sample_world
               ("alias 'foo" ++ newline ++ "=bar'") sample_executor)
    !! name = Some "bar"
  ∧ ∃ e', _handle_export_command ("export 'foo" ++ newline ++ "=bar'")
                                 sample_executor = Ok true e'
          ∧ environ e' !! name = Some "bar".
Proof. cbv zeta. split_and!; try reflexivity. by eexists. Qed.

(** C8, amended.  An [alias] or [export] line with a token that has no [=],
    or whose name is not an identifier (the names that are an identifier
    followed by one newline left aside), is answered by one displayed error
    and nothing else: the alias table, the alias file and the environment
    are as before, also for the valid tokens in front of the bad one.  The
    same holds through the dispatcher.  [unset] checks no syntax: it deletes
    the named variables that are set and prints which ones, or that none
    was. *)
Theorem invalid_alias_or_export_changes_nothing w command tokens e :
  Shlex.split command = Shlex.Tokens tokens →
  Exists bad_token (tail tokens) →
  (∃ message,
      _handle_alias_command w command e = say (DisplayError command message) e)
  ∧ (Py.startswith command "export" = true →
     ∃ message,
       _handle_export_command command e
       = Ok true (say (DisplayError command message) e))
  ∧ (Py.startswith command "alias " = true →
     ∃ message,
       settings w command e
       = Ok (Some AliasManagement) (say (DisplayError command message) e))
  ∧ (Py.startswith command "export" = true →
     ∃ message,
       settings w command e
       = Ok (Some Export) (say (DisplayError command message) e))
  ∧ (Py.startswith command "unset " = true →
     ∃ text,
       _handle_unset_command command e
       = (say (Print text)
              (with_environ (unset_all (tail tokens) (environ e)).2 e), true)).
Proof.
  intros Hsplit Hbad.
  assert (Hlen : ∃ t0 t1 ts, tokens = t0 :: t1 :: ts).
  { destruct tokens as [|t0 [|t1 ts]]; simpl in Hbad;
      try (by apply Exists_nil in Hbad). by exists t0, t1, ts. }
  destruct Hlen as (t0 & t1 & ts & ->). simpl in Hbad.
  assert (Halias : ∃ message,
             _handle_alias_command w command e
             = say (DisplayError command message) e).
  { unfold _handle_alias_command. rewrite Hsplit. simpl tail.
    destruct (alias_updates_bad _ Hbad []) as [message ->]. by exists message. }
  assert (Hexport : Py.startswith command "export" = true →
             ∃ message,
               _handle_export_command command e
               = Ok true (say (DisplayError command message) e)).
  { intros Hp. unfold _handle_export_command. rewrite Hp, Hsplit.
    cbn [negb tail].
    destruct (export_updates_bad _ Hbad []) as [message ->]. by exists message. }
  split_and!; [done | done | | |].
  - intros Hp. destruct Halias as [message Hm]. exists message.
    unfold settings, _handle_alias_management. rewrite Hp, Hm.
    by destruct (String.eqb command "alias") eqn:E;
      [apply String.eqb_eq in E; subst|].
  - intros Hp. destruct (Hexport Hp) as [message Hm]. exists message.
    destruct command as [|c r]; [done|]. pose proof Hp as Hc. simpl in Hc.
    apply andb_prop in Hc as [Hc _]. apply Ascii.eqb_eq in Hc. subst c.
    unfold settings, _handle_alias_management.
    replace (String.eqb (String "e" r) "alias") with false by reflexivity.
    replace (Py.startswith (String "e" r) "alias ") with false by reflexivity.
    replace (Py.startswith (String "e" r) "unalias") with false by reflexivity.
    by rewrite Hm.
  - intros Hp. unfold _handle_unset_command. rewrite Hp, Hsplit.
    cbn [negb tail length Nat.ltb Nat.leb].
    destruct (unset_all (t1 :: ts) (environ e)) as [removed env] eqn:E.
    destruct removed; by eexists.
Qed.

(** A bad name after a good definition, and an assignment with no [=]. *)
Lemma invalid_alias_or_export_changes_nothing_witness :
  (∃ message,
      _handle_alias_command sample_world "alias g='git status' 1x=3"
                            sample_executor
      = say (DisplayError "alias g='git status' 1x=3" message) sample_executor)
  ∧ (∃ message,
        _handle_export_command "export A=1 B" sample_executor
        = Ok true (say (DisplayError "export A=1 B" message) sample_executor)).
Proof.
  split.
  - refine (proj1 (invalid_alias_or_export_changes_nothing sample_world
                     "alias g='git status' 1x=3"
                     ["alias"; "g=git status"; "1x=3"]
                     sample_executor eq_refl _)).
    apply Exists_cons_tl, Exists_cons_hd. by split.
  - refine (proj1 (proj2 (invalid_alias_or_export_changes_nothing sample_world
                     "export A=1 B" ["export"; "A=1"; "B"]
                     sample_executor eq_refl _)) eq_refl).
    apply Exists_cons_tl, Exists_cons_hd. exact I.
Defined.

(** *** The alias step *)

(** With [e] an alias of [export], the line [e FOO=bar] is run as a regular
    command and the environment stays as it is; had classification started
    again at alias management, [export] would have set [FOO]. *)
Lemma alias_to_export_counterexample :
  aliases sample_executor !! "e" = Some "export"
  ∧ execute sample_world "e FOO=bar" sample_executor
    = (RegularCapture "export FOO=bar", sample_executor)
  ∧ (execute_restarting sample_world "e FOO=bar" sample_executor).1 = Export
  ∧ environ (execute_restarting sample_world "e FOO=bar" sample_executor).2
    !! "FOO" = Some "bar"
  ∧ execute sample_world "e FOO=bar" sample_executor
    ≠ execute_restarting sample_world "e FOO=bar" sample_executor.
Proof. split_and!; try reflexivity. intros H. discriminate H. Qed.

(** C4, amended.  When a line gets as far as the alias step and its first
    token is an alias with a value that is not empty, the line becomes the
    value followed by the other tokens, each quoted again, and the
    dispatcher goes on with the tests that follow the alias step ([files],
    job control, [exit], ...) on that text.  Alias management, [export],
    [unset] and assignments are not tried on it, and it is not expanded a
    second time. *)
Theorem alias_expanded_once w line e e' first args value :
  Py.strip line ≠ "" →
  early w line e = Ok None e' →
  Shlex.split line = Shlex.Tokens (first :: args) →
  aliases e !! first = Some value →
  value ≠ "" →
  let expanded :=
    Py.strip (value ++ " " ++ Py.join " " (Shlex.quote <$> args)) in
  _expand_alias e' line = expanded
  ∧ execute w line e
    = match dispatch w expanded e' with
      | Ok decision e'' => (decision, e'')
      | Raise text e'' => caught expanded text e''
      end.
Proof.
  intros Hline Hearly Hsplit Halias Hvalue. cbv zeta.
  destruct (early_continue _ _ _ _ Hearly) as (_ & l & He').
  assert (Hexp : _expand_alias e' line
                 = Py.strip (value ++ " " ++ Py.join " " (Shlex.quote <$> args))).
  { unfold _expand_alias. rewrite Hsplit, He'.
    change (aliases (with_log l e)) with (aliases e). rewrite Halias.
    by destruct value. }
  split; [done|].
  unfold execute. destruct (Py.strip line); [done|].
  rewrite Hearly. cbv zeta. rewrite Hexp.
  by destruct (dispatch w _ e').
Qed.

(** [a] is expanded to [b], the argument is quoted again, and [b] is not
    expanded to [c]. *)
Lemma alias_expanded_once_witness :
  execute sample_world "a 'x y'" chained_aliases
  = (RegularCapture "b 'x y'", chained_aliases).
Proof.
  pose proof (alias_expanded_once sample_world "a 'x y'" chained_aliases
                chained_aliases "a" ["x y"] "b") as H.
  cbv zeta in H. destruct H as [_ H]; try done.
Defined.

(** *** The alias store *)



(** The strings of this model have no surrogates. *)
Lemma of_string_valid s :
  Text.valid (Text.of_string s) = true
  ∧ Text.pair_free (Text.of_string s) = true.
Proof.
  induction s as [|c r [IHv IHp]]; [done|].
  pose proof (N_ascii_bounded c) as Hc.
  cbn [Text.of_string Text.valid forallb Text.pair_free].
  fold (Text.valid (Text.of_string r)). rewrite IHv, IHp.
  unfold Text.code_point, Text.high_surrogate.
  replace (N_of_ascii c <? 1114112)%N with true
    by (symmetry; apply N.ltb_lt; lia).
  replace (55296 <=? N_of_ascii c)%N with false
    by (symmetry; apply N.leb_gt; lia).
  done.
Qed.


Lemma items_valid d :
  Forall (λ kv, Text.valid kv.1 = true ∧ Text.valid kv.2 = true) (Text.items d).
Proof.
  unfold Text.items. apply Forall_fmap, Forall_forall.
  intros [k v] _. simpl. split; apply of_string_valid.
Qed.








End ShellFacts.

(** * Further properties of the executor *)

Module JobSessions.
Import Jobs JobStates.

#[local] Arguments Py.int : simpl never.
#[local] Arguments Ascii.eqb : simpl never.
#[local] Arguments String.eqb : simpl never.

Lemma run_cons e op ops : (run e (op :: ops)).1 = (run (step e op) ops).1.
Proof. simpl. by destruct (run (step e op) ops). Qed.

Lemma run_wf ops : ∀ e, wf e → wf (run e ops).1.
Proof.
  induction ops as [|op ops IH]; intros e Hwf; [done|].
  rewrite run_cons. apply IH. by apply JobFacts.step_wf.
Qed.

Lemma session_wf ops : wf (run init ops).1.
Proof. apply run_wf, JobFacts.init_wf. Qed.

(** One operation keeps every entry, with its id, pid, group and command. *)
Lemma step_keeps e op k j :
  wf e → jobs e !! k = Some j →
  ∃ j', jobs (step e op) !! k = Some j' ∧ same_process j j'.
Proof.
  intros Hwf Hk. pose proof (JobFacts.step_effect e op) as H.
  destruct (assigned e op) as [k0|].
  - destruct H as (-> & _ & _ & job & Hj & _). rewrite Hj.
    destruct (Hwf _ _ Hk) as [_ Hlt].
    rewrite lookup_insert_ne by lia. eauto using JobFacts.same_process_refl.
  - destruct H as (_ & _ & H). specialize (H k). by rewrite Hk in H.
Qed.



(** X2.  No operation, the monitor threads included, ever takes an entry out
    of the job table: a job that was launched is in the table after every
    later session, under the same id and with the pid, process group and
    command it was launched with. *)
Theorem job_entries_are_never_removed (before after : list Op) (k : Z) (j : Job) :
  jobs (run init before).1 !! k = Some j →
  ∃ j', jobs (run (run init before).1 after).1 !! k = Some j'
        ∧ job_id j' = job_id j ∧ job_pid j' = job_pid j
        ∧ job_pgid j' = job_pgid j ∧ job_command j' = job_command j.
Proof.
  intros Hk. pose proof (session_wf before) as Hwf.
  revert j Hwf Hk. generalize (run init before).1.
  induction after as [|op ops IH]; intros e j Hwf Hk.
  - exists j. split; [exact Hk | done].
  - rewrite run_cons.
    destruct (step_keeps e op k j Hwf Hk) as (j1 & Hk1 & H1).
    destruct (IH _ _ (JobFacts.step_wf e op Hwf) Hk1) as (j2 & Hk2 & H2).
    exists j2. split; [done|].
    destruct H1 as (? & ? & ? & ?), H2 as (? & ? & ? & ?).
    split_and!; congruence.
Qed.

(** The entry of the first job after its monitor, a cleanup and a second
    launch. *)
Lemma job_entries_are_never_removed_witness :
  ∃ j', jobs (run (run init [Background "sleep 100 &" (Spawned 4242 (Some 4242))]).1
                  [Monitor sigterm_os 1; Cleanup willing_os;
                   Background "top &" (Spawned 4250 None)]).1 !! 1 = Some j'
        ∧ job_id j' = 1 ∧ job_pid j' = 4242
        ∧ job_pgid j' = Some 4242 ∧ job_command j' = "sleep 100".
Proof.
  apply (job_entries_are_never_removed
           [Background "sleep 100 &" (Spawned 4242 (Some 4242))] _ 1
           (mkJob 1 4242 (Some 4242) None "sleep 100" running None)).
  reflexivity.
Defined.

Lemma calm_refl e : calm e e.
Proof. split; [done|]. intros k j' H. eauto. Qed.

Lemma calm_trans e1 e2 e3 : calm e1 e2 → calm e2 e3 → calm e1 e3.
Proof.
  intros [M1 H1] [M2 H2]. split; [congruence|]. intros k j3 H3.
  destruct (H2 _ _ H3) as (j2 & Hk2 & F2).
  destruct (H1 _ _ Hk2) as (j1 & Hk1 & F1). eauto.
Qed.

Lemma calm_fields e e' :
  jobs e' = jobs e → monitors e' = monitors e → calm e e'.
Proof. intros Hj Hm. split; [done|]. intros k j' H. rewrite Hj in H. eauto. Qed.

Lemma calm_update_job k0 f e :
  (∀ x, job_status (f x) = failed → job_status x = failed) →
  calm e (update_job k0 f e).
Proof.
  intros Hf. split; [done|]. intros k j'. simpl.
  rewrite lookup_alter. case_decide as E.
  - subst. destruct (jobs e !! k) as [j|]; simpl; [|done].
    intros [= <-]. eauto.
  - eauto.
Qed.

Lemma calm_with_status k0 s e :
  s ≠ failed → calm e (update_job k0 (with_status s) e).
Proof. intros Hs. apply calm_update_job. simpl. by intros x ?. Qed.

Lemma calm_finish k0 c e :
  calm e (update_job k0
            (λ j, with_exit_code c (with_status done (with_returncode (Some c) j)))
            e).
Proof. by apply calm_update_job. Qed.

Lemma calm_with_foreground f e : calm e (with_foreground f e).
Proof. by apply calm_fields. Qed.

Lemma calm_set_foreground os pgid e :
  calm e (_set_foreground_process_group os e pgid).1.
Proof.
  unfold _set_foreground_process_group.
  destruct (negb (posix os)); [apply calm_refl|].
  destruct (tcsetpgrp_ok os pgid); [by apply calm_fields | apply calm_refl].
Qed.

Lemma calm_restore os e : calm e (_restore_terminal_control os e).1.
Proof.
  unfold _restore_terminal_control.
  destruct (negb (posix os) || negb (saved_terminal e)); [apply calm_refl|].
  destruct (restore_ok os); [by apply calm_fields | apply calm_refl].
Qed.

Create HintDb calm discriminated.
#[local] Hint Resolve calm_refl calm_finish calm_with_foreground
  calm_set_foreground calm_restore : calm.
#[local] Hint Extern 1 (calm _ (update_job _ (with_status _) _)) =>
  apply calm_with_status; discriminate : calm.

Lemma calm_fg_begin os job_id e : calm e (fg_begin os job_id e).1.
Proof.
  unfold fg_begin.
  destruct (jobs e !! job_id) as [j|]; [|apply calm_refl].
  destruct (is_finished (job_status j)); [apply calm_refl|]. simpl.
  eapply calm_trans; [apply (calm_with_foreground (Some job_id))|].
  eapply calm_trans;
    [|destruct (job_pgid j);
       [destruct (truthy_opt _ && posix os)|]; eauto with calm].
  destruct (Status_eqb (job_status j) stopped); [|apply calm_refl].
  destruct (_send_signal_to_job _ _ _ _).1; eauto with calm.
Qed.

Lemma calm_fg_end os w job_id e : calm e (fg_end os w job_id e).
Proof.
  unfold fg_end.
  destruct (jobs e !! job_id) as [j|]; [|apply calm_refl].
  destruct (wait w j); [| |apply calm_refl].
  - eapply calm_trans; [|apply calm_finish].
    eapply calm_trans; [|apply calm_with_foreground].
    destruct (truthy_opt _ && posix os); eauto with calm.
  - eapply calm_trans; [|apply calm_with_foreground].
    destruct (posix os); eauto with calm.
Qed.

Lemma calm_fg os w job_id e : calm e (_bring_job_to_foreground os w job_id e).
Proof.
  unfold _bring_job_to_foreground.
  pose proof (calm_fg_begin os job_id e) as H.
  destruct (fg_begin os job_id e) as [e1 [|]]; simpl in H; [|done].
  eauto using calm_trans, calm_fg_end.
Qed.

Lemma calm_resume os job_id e : calm e (_resume_background_job os job_id e).
Proof.
  unfold _resume_background_job.
  destruct (jobs e !! job_id) as [j|]; [|apply calm_refl].
  destruct (is_finished (job_status j)); [apply calm_refl|].
  destruct (negb _); [apply calm_refl|].
  destruct (_send_signal_to_job _ _ _ _).1; eauto with calm.
Qed.

Lemma calm_suspend os e : calm e (_suspend_foreground_job os e).1.
Proof.
  unfold _suspend_foreground_job.
  destruct (negb (truthy_opt _)); [apply calm_refl|].
  destruct (foreground_job e) as [job_id|]; [|apply calm_refl].
  destruct (jobs e !! job_id) as [j|]; [|apply calm_with_foreground].
  destruct (negb _); [apply calm_refl|].
  destruct (_send_signal_to_job _ _ _ _).1; [|apply calm_refl]. simpl.
  eapply calm_trans; [|apply calm_with_foreground].
  eapply calm_trans; [apply (calm_with_status job_id stopped); discriminate|].
  destruct (posix os); eauto with calm.
Qed.

Lemma calm_interrupt os e : calm e (_interrupt_foreground_job os e).1.
Proof.
  unfold _interrupt_foreground_job.
  destruct (negb (truthy_opt _)); [apply calm_refl|].
  destruct (foreground_job e) as [job_id|]; [|apply calm_refl].
  destruct (jobs e !! job_id) as [j|]; [|apply calm_with_foreground].
  destruct (negb _); [apply calm_refl|].
  destruct (_send_signal_to_job _ _ _ _).1; [|apply calm_refl]. simpl.
  destruct (posix os); eauto with calm.
Qed.

Lemma calm_cleanup os e : calm e (_cleanup_all_jobs os e).
Proof.
  split; [done|]. intros k j'. simpl. rewrite lookup_fmap.
  destruct (jobs e !! k) as [j|]; simpl; [|done]. intros [= <-].
  exists j. split; [done|]. unfold cleanup_job.
  destruct (job_status j) eqn:E; simpl; congruence.
Qed.

(** Every operation of the main thread but a launch is a calm step. *)
Lemma step_calm e op :
  main_thread op → (∀ command sp, op ≠ Background command sp) →
  calm e (step e op).
Proof.
  intros Hm Hb.
  destruct op as [command sp|os w k|os k|os|os|os k|os]; simpl;
    eauto using calm_fg, calm_resume, calm_suspend, calm_interrupt,
                calm_cleanup.
  - by destruct (Hb command sp).
  - by destruct (Hm os k).
Qed.

(** X3.  The status [failed] is written by the monitor threads only: a job
    that is failed after an operation of the main thread was failed before
    it. *)
Theorem only_the_monitor_marks_failed (e : Executor) (op : Op) (k : Z) (j' : Job) :
  main_thread op →
  jobs (step e op) !! k = Some j' →
  job_status j' = failed →
  ∃ j, jobs e !! k = Some j ∧ job_status j = failed.
Proof.
  intros Hm Hk Hf.
  assert (Hcalm : (∀ command sp, op ≠ Background command sp) →
                  ∃ j, jobs e !! k = Some j ∧ job_status j = failed).
  { intros Hb. destruct (step_calm e op Hm Hb) as [_ H].
    destruct (H _ _ Hk) as (j & Hj & F). eauto. }
  destruct op as [command sp| | | | | |]; try (apply Hcalm; discriminate).
  clear Hcalm. simpl in Hk.
  destruct (JobFacts.launch_cases command sp e)
    as [[H|H]|[H|(pid & pgid & cmd & _ & _ & Hj & _)]].
  - rewrite H in Hk. eauto.
  - rewrite H in Hk. eauto.
  - destruct H as (_ & _ & Hj & _). rewrite Hj in Hk. eauto.
  - rewrite Hj in Hk.
    destruct (decide (k = next_job_id e)) as [->|Hne].
    + rewrite lookup_insert_eq in Hk. by simplify_eq.
    + rewrite lookup_insert_ne in Hk by done. eauto.
Qed.

(** A job whose monitor could not poll it is failed, and a cleanup keeps it
    so. *)
Lemma only_the_monitor_marks_failed_witness :
  ∃ j, jobs after_failed_poll !! 1 = Some j ∧ job_status j = failed.
Proof.
  apply (only_the_monitor_marks_failed after_failed_poll (Cleanup willing_os) 1
           (mkJob 1 4242 (Some 4242) None "sleep 100" failed None)).
  - intros ??; discriminate.
  - reflexivity.
  - reflexivity.
Defined.

(** X4.  A monitor thread is started by the launch of its job and by nothing
    else: after any operation the threads that run are threads that ran
    before it, or the thread of the job the operation launched.  A job whose
    monitor ended when it saw the job stopped is not watched again after
    [bg] or [fg]. *)
Theorem monitor_is_never_restarted (e : Executor) (op : Op) (k : Z) :
  k ∈ monitors (step e op) →
  k ∈ monitors e ∨ assigned e op = Some k.
Proof.
  destruct op as [command sp|os w k0|os k0|os|os|os k0|os]; simpl;
    try (by left);
    try (intros H; left; revert H;
         match goal with
         | |- context [monitors ?e'] =>
             assert (Hc : calm e e') by
               eauto using calm_fg, calm_resume, calm_suspend, calm_interrupt,
                           calm_cleanup;
             destruct Hc as [-> _]; done
         end).
  - unfold _execute_background_command.
    destruct (last_two (Py.rstrip command)) as [[a|] prev]; simpl; [|by left].
    destruct (negb (Ascii.eqb a "&")); [by left|].
    destruct (match prev with Some b => Ascii.eqb b "&" | None => false end);
      [by left|].
    destruct (Py.rstrip (drop_last (Py.rstrip command))) as [|c r]; [by left|].
    destruct sp as [pid pgid|]; simpl; [|by left].
    intros [->%elem_of_singleton|H]%elem_of_union; [by right | by left].
  - unfold monitor_tick. intros Hk. left. revert Hk.
    destruct (decide _); [|done].
    destruct (jobs e !! k0) as [j|]; [destruct (poll os j)|]; simpl;
      try destruct (Status_eqb _ _); simpl;
      first [done | by intros [? _]%elem_of_difference].
Qed.

(** The monitor of job 1 after [bg] on it is the one its launch started. *)
Lemma monitor_is_never_restarted_witness :
  1 ∈ monitors (run init [Background "sleep 100 &" (Spawned 4242 (Some 4242))]).1
  ∨ assigned (run init [Background "sleep 100 &" (Spawned 4242 (Some 4242))]).1
             (Resume willing_os 1) = Some 1.
Proof.
  apply monitor_is_never_restarted.
  apply (bool_decide_unpack _). vm_compute. exact I.
Defined.

(** *** Cleanup *)

Lemma cleanup_job_finished os j :
  is_finished (job_status (cleanup_job os j)) = true.
Proof. unfold cleanup_job. by destruct (job_status j) eqn:E; simpl; rewrite ?E. Qed.

Lemma cleanup_job_twice os os' j :
  cleanup_job os' (cleanup_job os j) = cleanup_job os j.
Proof.
  pose proof (cleanup_job_finished os j) as H.
  unfold cleanup_job at 1. by destruct (job_status (cleanup_job os j)).
Qed.

(** X5.  After [_cleanup_all_jobs] every job of the table is done or failed.
    A job that was finished is left as it was; a job that was running or
    stopped is marked done with the exit code -1, whatever its process
    answers. *)
Theorem cleanup_leaves_no_live_job (os : OS) (e : Executor) (k : Z) (j : Job) :
  jobs e !! k = Some j →
  ∃ j', jobs (_cleanup_all_jobs os e) !! k = Some j'
        ∧ is_finished (job_status j') = true
        ∧ (is_finished (job_status j) = true → j' = j)
        ∧ (is_finished (job_status j) = false →
           job_status j' = done ∧ job_exit_code j' = Some (-1)).
Proof.
  intros Hk. exists (cleanup_job os j). simpl. rewrite lookup_fmap, Hk.
  split_and!; [done | apply cleanup_job_finished | |];
    unfold cleanup_job; by destruct (job_status j).
Qed.

(** The job of the session [after_cleanup]. *)
Lemma cleanup_leaves_no_live_job_witness :
  ∃ j', jobs after_cleanup !! 1 = Some j'
        ∧ is_finished (job_status j') = true
        ∧ (false = true →
           j' = mkJob 1 4242 (Some 4242) None "sleep 100" running None)
        ∧ (false = false →
           job_status j' = done ∧ job_exit_code j' = Some (-1)).
Proof.
  apply (cleanup_leaves_no_live_job sigterm_os
           (run init [Background "sleep 100 &" (Spawned 4242 (Some 4242))]).1 1
           (mkJob 1 4242 (Some 4242) None "sleep 100" running None)).
  reflexivity.
Defined.

(** X6.  Cleaning up twice is cleaning up once: the second run changes
    nothing, whatever the operating system answers to either. *)
Theorem cleanup_is_idempotent (os os' : OS) (e : Executor) :
  _cleanup_all_jobs os' (_cleanup_all_jobs os e) = _cleanup_all_jobs os e.
Proof.
  unfold _cleanup_all_jobs, with_jobs. simpl. f_equal.
  rewrite <- map_fmap_compose. apply map_fmap_ext. intros k j _.
  apply cleanup_job_twice.
Qed.

(** *** [fg] and [bg] without a job spec *)

Lemma first_job_ext wanted wanted' table queue :
  (∀ s, wanted s = wanted' s) →
  first_job wanted table queue = first_job wanted' table queue.
Proof.
  intros H. induction queue as [|k queue IH]; simpl; [done|].
  destruct (table !! k); [|done]. by rewrite H, IH.
Qed.

Lemma first_job_spec wanted table queue :
  match first_job wanted table queue with
  | Some k =>
      ∃ newer older j,
        queue = (newer ++ k :: older)%list
        ∧ table !! k = Some j ∧ wanted (job_status j) = true
        ∧ ∀ k' j', k' ∈ newer → table !! k' = Some j' →
                   wanted (job_status j') = false
  | None =>
      ∀ k j, k ∈ queue → table !! k = Some j → wanted (job_status j) = false
  end.
Proof.
  induction queue as [|k0 queue IH]; simpl.
  - intros k j H. by apply elem_of_nil in H.
  - destruct (table !! k0) as [j0|] eqn:E0.
    + destruct (wanted (job_status j0)) eqn:W0.
      * exists [], queue, j0. split_and!; [done..|].
        intros k' j' H. by apply elem_of_nil in H.
      * destruct (first_job wanted table queue) as [k|].
        -- destruct IH as (newer & older & j & -> & Hk & Hw & Hn).
           exists (k0 :: newer), older, j. split_and!; [done..|].
           intros k' j' [->|H]%elem_of_cons Hk'; [congruence | eauto].
        -- intros k j [->|H]%elem_of_cons Hk; [congruence | eauto].
    + destruct (first_job wanted table queue) as [k|].
      * destruct IH as (newer & older & j & -> & Hk & Hw & Hn).
        exists (k0 :: newer), older, j. split_and!; [done..|].
        intros k' j' [->|H]%elem_of_cons Hk'; [congruence | eauto].
      * intros k j [->|H]%elem_of_cons Hk; [congruence | eauto].
Qed.

(** X7.  [fg] without a job spec takes the most recently launched job that
    is running or stopped, [bg] without one the most recently launched job
    that is stopped: every job launched after the one taken has another
    status.  When no job has a wanted status the answer is "no ...  job
    found". *)
Theorem bare_fg_and_bg_take_the_newest_job (e : Executor) (command cmd : string) :
  Py.split (Py.strip command) = [cmd] →
  cmd = "fg" ∨ cmd = "bg" →
  match _handle_job_control_command e command with
  | ToForeground k | ToBackground k =>
      ∃ newer older j,
        task_queue e = (newer ++ k :: older)%list
        ∧ jobs e !! k = Some j ∧ wanted_by cmd (job_status j) = true
        ∧ (∀ k' j', k' ∈ newer → jobs e !! k' = Some j' →
                    wanted_by cmd (job_status j') = false)
        ∧ _handle_job_control_command e command
          = (if String.eqb cmd "fg" then ToForeground k else ToBackground k)
  | NoJobFound cmd' =>
      cmd' = cmd
      ∧ ∀ k j, k ∈ task_queue e → jobs e !! k = Some j →
               wanted_by cmd (job_status j) = false
  | _ => False
  end.
Proof.
  intros Hparts Hcmd. unfold _handle_job_control_command. rewrite Hparts.
  assert (Hw : ∀ s, wanted_by "fg" s = Status_eqb s running || Status_eqb s stopped)
    by (by intros []).
  destruct Hcmd as [-> | ->].
  - replace (String.eqb "fg" "jobs") with false by reflexivity.
    replace (String.eqb "fg" "fg") with true by reflexivity. simpl.
    pose proof (first_job_spec (wanted_by "fg") (jobs e) (task_queue e)) as H.
    rewrite (first_job_ext _ _ (jobs e) (task_queue e) Hw) in H.
    destruct (first_job _ (jobs e) (task_queue e)) as [k|]; [|done].
    destruct H as (newer & older & j & ? & ? & ? & ?).
    exists newer, older, j. by split_and!.
  - replace (String.eqb "bg" "jobs") with false by reflexivity.
    replace (String.eqb "bg" "fg") with false by reflexivity.
    replace (String.eqb "bg" "bg") with true by reflexivity. simpl.
    pose proof (first_job_spec (wanted_by "bg") (jobs e) (task_queue e)) as H.
    change (wanted_by "bg") with (λ s, Status_eqb s stopped) in H.
    destruct (first_job _ (jobs e) (task_queue e)) as [k|]; [|done].
    destruct H as (newer & older & j & ? & ? & ? & ?).
    exists newer, older, j. by split_and!.
Qed.

(** The newest job is done: a bare [fg] takes the one launched before it. *)
Lemma bare_fg_and_bg_take_the_newest_job_witness :
  ∃ newer older j,
    task_queue newest_done = (newer ++ 1 :: older)%list
    ∧ jobs newest_done !! 1 = Some j ∧ wanted_by "fg" (job_status j) = true
    ∧ (∀ k' j', k' ∈ newer → jobs newest_done !! k' = Some j' →
                wanted_by "fg" (job_status j') = false)
    ∧ _handle_job_control_command newest_done " fg " = ToForeground 1.
Proof.
  exact (bare_fg_and_bg_take_the_newest_job newest_done " fg " "fg"
           eq_refl (or_introl eq_refl)).
Defined.

Lemma rstrip_rstrip s : Py.rstrip (Py.rstrip s) = Py.rstrip s.
Proof.
  induction s as [|c r IH]; [done|]. simpl.
  destruct (Py.rstrip r) as [|c' r'] eqn:E.
  - destruct (Py.isspace c) eqn:Hc; [done|]. simpl. by rewrite Hc.
  - simpl in *. by rewrite IH.
Qed.

Lemma rev_app_last s : ∀ a acc,
  String.rev_app (s ++ String a "") acc = String a (String.rev_app s acc).
Proof.
  induction s as [|c r IH]; intros a acc; [done|].
  rewrite JsonFacts.app_cons. simpl. apply IH.
Qed.

Lemma drop_last_last s : s ≠ "" → ∃ a, s = drop_last s ++ String a "".
Proof.
  induction s as [|c r IH]; [done|]. intros _.
  destruct r as [|c' r']; [by exists c|].
  destruct IH as [a Ha]; [done|]. exists a.
  change (drop_last (String c (String c' r')))
    with (String c (drop_last (String c' r'))).
  by rewrite JsonFacts.app_cons, <- Ha.
Qed.

(** The character [last_two] reads first is the last one of the text. *)
Lemma last_two_last s a prev :
  last_two s = (Some a, prev) → s = drop_last s ++ String a "".
Proof.
  intros H. destruct (decide (s = "")) as [->|Hs]; [done|].
  destruct (drop_last_last s Hs) as [x Hx].
  unfold last_two, String.rev in H. rewrite Hx, rev_app_last in H.
  destruct (String.rev_app (drop_last s) ""); by simplify_eq.
Qed.

(** What [rstrip] takes off is whitespace. *)
Lemma rstrip_blanks s :
  ∃ blanks, Builtins.blank blanks = true ∧ s = Py.rstrip s ++ blanks.
Proof.
  induction s as [|c r (blanks & Hb & Hr)]; [by exists ""|]. simpl.
  destruct (Py.rstrip r) as [|c' r'] eqn:E.
  - destruct (Py.isspace c) eqn:Hc.
    + exists (String c r). split; [|done]. simpl. rewrite Hc. simpl.
      change ("" ++ blanks) with blanks in Hr. by rewrite Hr.
    + exists blanks. split; [done|]. rewrite JsonFacts.app_cons. by f_equal.
  - exists blanks. split; [done|]. rewrite JsonFacts.app_cons. by f_equal.
Qed.

(** X8.  A launch hands out the next id and enters the job as running,
    without an exit code, under the command [stripped[:i].rstrip()]: the
    line is that command, whitespace, the [&] and whitespace again, and the
    command is not empty and does not end in whitespace.  Its monitor runs,
    and the job is the one a bare [fg] and the spec [%+] select. *)
Theorem launched_job_is_the_one_fg_takes
        (command : string) (sp : Spawn) (e e' : Executor) (k : Z) :
  _execute_background_command command sp e = (e', Launched k) →
  k = next_job_id e
  ∧ (∃ j, jobs e' !! k = Some j ∧ job_status j = running
          ∧ job_exit_code j = None
          ∧ job_command j = Py.rstrip (drop_last (Py.rstrip command))
          ∧ job_command j ≠ ""
          ∧ Py.rstrip (job_command j) = job_command j
          ∧ ∃ before after,
              Builtins.blank before = true ∧ Builtins.blank after = true
              ∧ command = job_command j ++ before ++ "&" ++ after)
  ∧ _handle_job_control_command e' "fg" = ToForeground k
  ∧ _parse_job_spec e' "%+" = Some k
  ∧ k ∈ monitors e'.
Proof.
  unfold _execute_background_command.
  destruct (last_two (Py.rstrip command)) as [[a|] prev] eqn:Hlast;
    [|by intros [= _ ?]].
  destruct (negb (Ascii.eqb a "&")) eqn:Ha; [by intros [= _ ?]|].
  destruct (match prev with Some b => Ascii.eqb b "&" | None => false end);
    [by intros [= _ ?]|].
  destruct (Py.rstrip (drop_last (Py.rstrip command))) as [|c r] eqn:Hcmd;
    [by intros [= _ ?]|].
  destruct sp as [pid pgid|]; [|by intros [= _ ?]].
  intros [= <- <-]. split; [done|]. split_and!.
  - eexists. split; [apply lookup_insert_eq|].
    cbn [job_command job_status job_exit_code].
    split_and!; [done | done | done | done | |].
    + rewrite <- Hcmd. apply rstrip_rstrip.
    + apply negb_false_iff, Ascii.eqb_eq in Ha. subst a.
      apply last_two_last in Hlast.
      destruct (rstrip_blanks command) as (after & Hafter & Hc).
      destruct (rstrip_blanks (drop_last (Py.rstrip command)))
        as (before & Hbefore & Hd).
      exists before, after. split_and!; [done | done |].
      rewrite Hcmd in Hd.
      rewrite Hc at 1. rewrite Hlast at 1. rewrite Hd at 1.
      by rewrite !JsonFacts.app_assoc.
  - unfold _handle_job_control_command.
    replace (Py.split (Py.strip "fg")) with ["fg"] by reflexivity.
    replace (String.eqb "fg" "jobs") with false by reflexivity.
    replace (String.eqb "fg" "fg") with true by reflexivity.
    simpl. by rewrite lookup_insert_eq.
  - reflexivity.
  - simpl. apply elem_of_union_l. by apply elem_of_singleton.
Qed.

(** The first launch of a session: [sleep 100] is what is recorded. *)
Lemma launched_job_is_the_one_fg_takes_witness :
  1 = next_job_id init
  ∧ (∃ j, jobs (run init [Background "sleep 100 & " (Spawned 4242 None)]).1 !! 1
          = Some j
          ∧ job_status j = running
          ∧ job_exit_code j = None
          ∧ job_command j = "sleep 100"
          ∧ job_command j ≠ ""
          ∧ Py.rstrip (job_command j) = job_command j
          ∧ ∃ before after,
              Builtins.blank before = true ∧ Builtins.blank after = true
              ∧ "sleep 100 & " = job_command j ++ before ++ "&" ++ after)
  ∧ _handle_job_control_command
      (run init [Background "sleep 100 & " (Spawned 4242 None)]).1 "fg"
    = ToForeground 1
  ∧ _parse_job_spec
      (run init [Background "sleep 100 & " (Spawned 4242 None)]).1 "%+"
    = Some 1
  ∧ 1 ∈ monitors (run init [Background "sleep 100 & " (Spawned 4242 None)]).1.
Proof.
  apply (launched_job_is_the_one_fg_takes "sleep 100 & " (Spawned 4242 None)
           init).
  reflexivity.
Defined.

(** *** Suspending and resuming *)

Lemma with_status_back j :
  job_status j = running → with_status running (with_status stopped j) = j.
Proof. destruct j. simpl. by intros ->. Qed.

Lemma jobs_restore os e : jobs (_restore_terminal_control os e).1 = jobs e.
Proof.
  unfold _restore_terminal_control.
  destruct (negb (posix os) || negb (saved_terminal e)); [done|].
  by destruct (restore_ok os).
Qed.

Lemma foreground_restore os e :
  foreground_job (_restore_terminal_control os e).1 = foreground_job e.
Proof.
  unfold _restore_terminal_control.
  destruct (negb (posix os) || negb (saved_terminal e)); [done|].
  by destruct (restore_ok os).
Qed.

(** X9.  Suspending the foreground job and resuming it in the background
    gives the job table back as it was before the suspension, provided
    SIGTSTP and SIGCONT are delivered; the foreground reference is cleared. *)
Theorem suspend_then_resume_restores_the_table
        (os os' : OS) (e e1 : Executor) (k : Z) :
  foreground_job e = Some k →
  _suspend_foreground_job os e = (e1, true) →
  (_send_signal_to_job os' e1 k SIGCONT).1 = true →
  jobs (_resume_background_job os' k e1) = jobs e
  ∧ foreground_job (_resume_background_job os' k e1) = None.
Proof.
  intros Hfg Hs Hcont. unfold _suspend_foreground_job in Hs.
  rewrite Hfg in Hs.
  destruct (negb (truthy_opt (Some k))); [by simplify_eq|].
  destruct (jobs e !! k) as [j|] eqn:Hk; [|by simplify_eq].
  destruct (Status_eqb (job_status j) running) eqn:Hrun; [|by simplify_eq].
  simpl in Hs.
  destruct (_send_signal_to_job os e k SIGTSTP).1; [|by simplify_eq].
  assert (Hj : job_status j = running) by (by destruct (job_status j)).
  set (e0 := update_job k (with_status stopped) e) in Hs.
  assert (He1 : jobs e1 = jobs e0 ∧ foreground_job e1 = None).
  { destruct (posix os); simplify_eq; simpl; [|done].
    by rewrite jobs_restore. }
  destruct He1 as [Hj1 Hf1].
  assert (Hk1 : jobs e1 !! k = Some (with_status stopped j)).
  { rewrite Hj1. unfold e0. simpl. by rewrite lookup_alter_eq, Hk. }
  unfold _resume_background_job. rewrite Hk1. simpl. rewrite Hcont. simpl.
  split; [|done]. rewrite Hj1. unfold e0. simpl.
  apply map_eq. intros i. rewrite !lookup_alter.
  case_decide as E; [subst i|done].
  rewrite Hk. rewrite decide_True by done. simpl. f_equal.
  by apply with_status_back.
Qed.

(** The job of [waiting], suspended and resumed. *)
Lemma suspend_then_resume_restores_the_table_witness :
  jobs (_resume_background_job willing_os 1
          (_suspend_foreground_job willing_os waiting).1)
  = jobs waiting
  ∧ foreground_job (_resume_background_job willing_os 1
                      (_suspend_foreground_job willing_os waiting).1) = None.
Proof.
  apply (suspend_then_resume_restores_the_table willing_os willing_os waiting);
    reflexivity.
Defined.

(** *** The terminal *)

Lemma owner_restore os e :
  restore_ok os = true → posix os = true → saved_terminal e = true →
  terminal_owner (_restore_terminal_control os e).1 = None.
Proof.
  intros Hr Hp Hs. unfold _restore_terminal_control. by rewrite Hr, Hp, Hs.
Qed.

Lemma owner_restore_none os e :
  terminal_owner e = None →
  terminal_owner (_restore_terminal_control os e).1 = None.
Proof.
  intros H. unfold _restore_terminal_control.
  destruct (negb (posix os) || negb (saved_terminal e)); [done|].
  by destruct (restore_ok os).
Qed.

Lemma set_foreground_terminal os pgid e :
  let r := (_set_foreground_process_group os e pgid).1 in
  jobs r = jobs e
  ∧ (terminal_owner r = terminal_owner e
     ∨ (posix os = true ∧ saved_terminal r = true)).
Proof.
  unfold _set_foreground_process_group.
  destruct (posix os); simpl; [|by auto].
  destruct (tcsetpgrp_ok os pgid); simpl; auto.
Qed.

(** What [fg_begin] leaves of the terminal when the wait is reached: it
    is with the shell still, or it was handed over on a POSIX system, the
    job has a process group and the settings are saved. *)
Lemma fg_begin_terminal os job_id e e1 :
  terminal_owner e = None →
  fg_begin os job_id e = (e1, true) →
  ∃ j1, jobs e1 !! job_id = Some j1
        ∧ (terminal_owner e1 = None
           ∨ (posix os = true ∧ saved_terminal e1 = true
              ∧ truthy_opt (job_pgid j1) = true)).
Proof.
  intros Ho. unfold fg_begin.
  destruct (jobs e !! job_id) as [j|] eqn:Hk; [|by intros [= _ ?]].
  destruct (is_finished (job_status j)); [by intros [= _ ?]|].
  set (e1' := with_foreground (Some job_id) e).
  set (e2 := if Status_eqb (job_status j) stopped
             then if (_send_signal_to_job os e1' job_id SIGCONT).1
                  then update_job job_id (with_status running) e1'
                  else e1'
             else e1').
  assert (H2 : terminal_owner e2 = None
               ∧ ∃ j2, jobs e2 !! job_id = Some j2 ∧ job_pgid j2 = job_pgid j).
  { unfold e2.
    destruct (Status_eqb (job_status j) stopped);
      [destruct (_send_signal_to_job os e1' job_id SIGCONT).1|];
      simpl; (split; [done|]);
      rewrite ?lookup_alter_eq, Hk; simpl; eauto. }
  destruct H2 as (Ho2 & j2 & Hk2 & Hp2).
  intros [= <-].
  destruct (job_pgid j) as [pgid|] eqn:Hpg; [|by eauto].
  destruct (truthy_opt (Some pgid)) eqn:Ht; simpl; [|by eauto].
  destruct (posix os) eqn:Hposix; simpl; [|by eauto].
  destruct (set_foreground_terminal os pgid e2) as [Hj [H|[_ H]]];
    rewrite Hj; exists j2; (split; [done|]).
  - left. congruence.
  - right. rewrite Hp2. done.
Qed.

Lemma fg_end_terminal os w job_id e1 j1 :
  restore_ok os = true →
  w ≠ WaitInterrupted →
  jobs e1 !! job_id = Some j1 →
  terminal_owner e1 = None
  ∨ (posix os = true ∧ saved_terminal e1 = true
     ∧ truthy_opt (job_pgid j1) = true) →
  terminal_owner (fg_end os w job_id e1) = None.
Proof.
  intros Hr Hw Hk Ho. unfold fg_end. rewrite Hk.
  assert (Hwait : wait w j1 ≠ WaitInterrupted).
  { unfold wait. by destruct (job_returncode j1). }
  destruct (wait w j1) as [c| |]; [| |done]; simpl.
  - destruct Ho as [Ho|(Hp & Hs & Ht)].
    + destruct (truthy_opt (job_pgid j1) && posix os);
        [by apply owner_restore_none | done].
    + rewrite Ht, Hp. simpl. by apply owner_restore.
  - destruct Ho as [Ho|(Hp & Hs & Ht)].
    + destruct (posix os); [by apply owner_restore_none | done].
    + rewrite Hp. by apply owner_restore.
Qed.

(** X10.  When the shell owns the terminal and [_bring_job_to_foreground]
    returns (the wait ends with an exit status or with an exception), the
    shell owns the terminal again, provided the operating system lets it
    take the terminal back. *)
Theorem terminal_returns_after_foreground
        (os : OS) (w : Wait) (job_id : Z) (e : Executor) :
  terminal_owner e = None →
  restore_ok os = true →
  w ≠ WaitInterrupted →
  terminal_owner (_bring_job_to_foreground os w job_id e) = None.
Proof.
  intros Ho Hr Hw. unfold _bring_job_to_foreground.
  destruct (fg_begin os job_id e) as [e1 waiting] eqn:Hb.
  destruct waiting.
  - destruct (fg_begin_terminal os job_id e e1 Ho Hb) as (j1 & Hk & H).
    by apply (fg_end_terminal os w job_id e1 j1).
  - unfold fg_begin in Hb.
    destruct (jobs e !! job_id) as [j|]; [|by simplify_eq].
    destruct (is_finished (job_status j)); by simplify_eq.
Qed.

(** A job runs in the foreground and exits. *)
Lemma terminal_returns_after_foreground_witness :
  terminal_owner
    (_bring_job_to_foreground willing_os (WaitExit 0) 1
       (run init [Background "sleep 100 &" (Spawned 4242 (Some 4242))]).1)
  = None.
Proof.
  apply terminal_returns_after_foreground; [reflexivity | reflexivity | discriminate].
Defined.

(** *** A job in the foreground *)

(** X11.  A running or stopped job whose wait in the foreground ends with an
    exit status is marked done with that status (the cached one if the
    process had been reaped before), keeps its id, pid, group and command,
    and the foreground reference is cleared. *)
Theorem foreground_job_ends_as_done
        (os : OS) (c : Z) (k : Z) (e : Executor) (j : Job) :
  jobs e !! k = Some j →
  is_finished (job_status j) = false →
  let e' := _bring_job_to_foreground os (WaitExit c) k e in
  let code := default c (job_returncode j) in
  foreground_job e' = None
  ∧ ∃ j', jobs e' !! k = Some j'
          ∧ job_status j' = done
          ∧ job_exit_code j' = Some code
          ∧ job_returncode j' = Some code
          ∧ same_process j j'.
Proof.
  intros Hk Hlive. cbv zeta. unfold _bring_job_to_foreground, fg_begin.
  rewrite Hk, Hlive.
  set (e1 := with_foreground (Some k) e).
  set (e2 := if Status_eqb (job_status j) stopped
             then if (_send_signal_to_job os e1 k SIGCONT).1
                  then update_job k (with_status running) e1
                  else e1
             else e1).
  assert (H2 : ∃ j2, jobs e2 !! k = Some j2
                     ∧ job_returncode j2 = job_returncode j
                     ∧ same_process j j2).
  { unfold e2.
    destruct (Status_eqb (job_status j) stopped);
      [destruct (_send_signal_to_job os e1 k SIGCONT).1|];
      simpl; rewrite ?lookup_alter_eq, Hk; simpl;
      eexists; (split; [done|]); by repeat split. }
  destruct H2 as (j2 & Hk2 & Hrc & Hsame).
  set (e3 := match job_pgid j with
             | Some pgid =>
                 if truthy_opt (job_pgid j) && posix os
                 then (_set_foreground_process_group os e2 pgid).1
                 else e2
             | None => e2
             end).
  assert (H3 : jobs e3 = jobs e2).
  { unfold e3. destruct (job_pgid j) as [pgid|]; [|done].
    destruct (truthy_opt _ && posix os); [|done].
    by destruct (set_foreground_terminal os pgid e2) as [-> _]. }
  cbn [fst snd]. unfold fg_end. rewrite H3, Hk2.
  unfold wait. rewrite Hrc.
  assert (Hjobs : ∀ x, jobs (with_foreground None
                               (if truthy_opt (job_pgid j2) && posix os
                                then (_restore_terminal_control os e3).1
                                else e3)) !! x = jobs e2 !! x).
  { intros x. simpl.
    destruct (truthy_opt (job_pgid j2) && posix os);
      by rewrite ?jobs_restore, H3. }
  destruct (job_returncode j) as [c0|]; simpl;
    (split; [done|]); rewrite lookup_alter_eq, Hjobs, Hk2; simpl;
    eexists; (split; [done|]);
    destruct Hsame as (? & ? & ? & ?); by repeat split.
Qed.

(** A job runs in the foreground and exits with status 3. *)
Lemma foreground_job_ends_as_done_witness :
  let e := (run init [Background "sleep 100 &" (Spawned 4242 (Some 4242))]).1 in
  let e' := _bring_job_to_foreground willing_os (WaitExit 3) 1 e in
  foreground_job e' = None
  ∧ ∃ j', jobs e' !! 1 = Some j'
          ∧ job_status j' = done
          ∧ job_exit_code j' = Some 3
          ∧ job_returncode j' = Some 3
          ∧ same_process
              (mkJob 1 4242 (Some 4242) None "sleep 100" running None) j'.
Proof.
  apply (foreground_job_ends_as_done willing_os 3 1
           (run init [Background "sleep 100 &" (Spawned 4242 (Some 4242))]).1
           (mkJob 1 4242 (Some 4242) None "sleep 100" running None));
    reflexivity.
Defined.

(** *** The launcher and the test in front of it *)

Lemma rev_app_nonempty r : ∀ acc, acc ≠ "" → String.rev_app r acc ≠ "".
Proof. induction r as [|c r IH]; simpl; [done|]. intros acc _. by apply IH. Qed.

Lemma last_two_none s prev : last_two s = (None, prev) → s = "".
Proof.
  destruct s as [|c r]; [done|]. unfold last_two, String.rev. simpl.
  pose proof (rev_app_nonempty r (String c "")) as H.
  destruct (String.rev_app r (String c "")) as [|x [|y t]]; [|done..].
  by destruct H.
Qed.

(** X12.  [_has_background_execution] and the test
    [_execute_background_command] makes itself agree on every line that is
    not blank: the launcher hands a line on to the passthrough runner
    exactly when the line does not end in a single [&].  As
    [_handle_interactive_command] calls the launcher only on lines that pass
    the first test, the launcher never takes that way out. *)
Theorem background_test_agrees_with_launcher
        (command : string) (sp : Spawn) (e : Executor) :
  Shell._has_background_execution command = true
  ↔ Py.rstrip command ≠ ""
    ∧ (_execute_background_command command sp e).2 ≠ Passthrough.
Proof.
  unfold Shell._has_background_execution, _execute_background_command.
  assert (Hempty : ∀ s, last_two s = (None, None) ∨ s ≠ "").
  { intros [|c r]; [by left | by right]. }
  assert (Hsome : ∀ s a prev, last_two s = (Some a, prev) → s ≠ "").
  { by intros [|c r] a prev. }
  destruct (last_two (Py.rstrip command)) as [[a|] prev] eqn:Hl.
  - apply Hsome in Hl.
    destruct (Ascii.eqb a "&"); simpl;
      [|split; [discriminate | intros [_ H]; by destruct H]].
    destruct (match prev with Some b => Ascii.eqb b "&" | None => false end);
      simpl; [split; [discriminate | intros [_ H]; by destruct H]|].
    split; [intros _|done]. split; [done|].
    destruct (Py.rstrip (drop_last (Py.rstrip command))); [done|].
    by destruct sp.
  - split; [done|]. intros [H _]. by apply last_two_none in Hl.
Qed.

(** *** The selection sequence and the [jobs] listing *)

Lemma init_mirrors : mirrors init.
Proof.
  split; [constructor|]. intros k. split.
  - intros H. by apply elem_of_nil in H.
  - simpl. rewrite lookup_empty. by intros [? ?].
Qed.

Lemma step_mirrors e op : wf e → mirrors e → mirrors (step e op).
Proof.
  intros Hwf [Hsorted Hkeys]. pose proof (JobFacts.step_effect e op) as H.
  destruct (assigned e op) as [k0|].
  - destruct H as (-> & _ & Hq & job & Hj & _). split.
    + rewrite Hq. constructor; [done|].
      apply Forall_forall. intros k [j Hk]%Hkeys.
      by destruct (Hwf _ _ Hk).
    + intros k. rewrite Hq, Hj, elem_of_cons, Hkeys.
      destruct (decide (k = next_job_id e)) as [->|Hne].
      * rewrite lookup_insert_eq. split; [eauto | by left].
      * rewrite lookup_insert_ne by done. split; [by intros [?|?] | by right].
  - destruct H as (_ & Hq & Hj). split; [by rewrite Hq|].
    intros k. rewrite Hq, Hkeys. specialize (Hj k).
    destruct (jobs e !! k) as [j|].
    + destruct Hj as (j' & -> & _). split; eauto.
    + rewrite Hj. done.
Qed.

Lemma run_mirrors ops : ∀ e, wf e → mirrors e → mirrors (run e ops).1.
Proof.
  induction ops as [|op ops IH]; intros e Hwf Hm; [done|].
  rewrite run_cons.
  apply IH; [by apply JobFacts.step_wf | by apply step_mirrors].
Qed.

Import JobList.

Lemma rows_entries e : rows e = entry_row <$> entries e.
Proof.
  unfold rows, entries. induction (task_queue e) as [|k q IH]; simpl; [done|].
  destruct (jobs e !! k); simpl; [f_equal|]; exact IH.
Qed.

Lemma elem_of_entries e k j :
  (k, j) ∈ entries e ↔ k ∈ task_queue e ∧ jobs e !! k = Some j.
Proof.
  unfold entries. rewrite list_elem_of_omap. split.
  - intros (k' & Hin & H). destruct (jobs e !! k') as [j'|] eqn:E; [|done].
    simpl in H. by simplify_eq.
  - intros [Hin Hk]. exists k. by rewrite Hk.
Qed.

Lemma elem_of_entries_aux e (q : list Z) k j :
  (k, j) ∈ omap (λ job_id, pair job_id <$> jobs e !! job_id) q → k ∈ q.
Proof.
  rewrite list_elem_of_omap. intros (k' & Hin & H).
  destruct (jobs e !! k') as [j'|]; [|done]. simpl in H. by simplify_eq.
Qed.

Lemma entries_sorted e :
  StronglySorted (λ a b, b < a) (task_queue e) →
  StronglySorted (λ a b : Z * Job, b.1 < a.1) (entries e).
Proof.
  unfold entries. induction 1 as [|k q _ IH Hall]; simpl; [constructor|].
  destruct (jobs e !! k) as [j|]; simpl; [|done].
  constructor; [done|]. apply Forall_forall. intros [k' j'] Hin.
  apply (elem_of_entries_aux e q) in Hin. simpl.
  by apply (proj1 (Forall_forall _ _) Hall).
Qed.

Lemma sorted_NoDup (l : list (Z * Job)) :
  StronglySorted (λ a b : Z * Job, b.1 < a.1) l → NoDup l.
Proof.
  induction 1 as [|x l _ IH Hall]; constructor; [|done].
  intros Hin. apply (proj1 (Forall_forall _ _) Hall) in Hin.
  simpl in Hin. lia.
Qed.

Lemma length_prefix n : ∀ s, (String.length (prefix n s) ≤ n)%nat.
Proof.
  induction n as [|n IH]; intros [|c r]; simpl; try lia.
  specialize (IH r). lia.
Qed.

Lemma command_cell_length command :
  (String.length (command_cell command) ≤ 63)%nat.
Proof.
  unfold command_cell. rewrite JsonFacts.length_app.
  pose proof (length_prefix 60 command).
  destruct (60 <? String.length command)%nat;
    [change (String.length "...") with 3%nat
    |change (String.length "") with 0%nat]; lia.
Qed.

(** X13.  After any session the [jobs] listing has one row for every job of
    the table, the most recently launched first, and no other row; the
    command cell of a row is at most 63 characters long; and the listing is
    replaced by "No jobs running" exactly when the table has no job. *)
Theorem jobs_listing_shows_every_job_once (ops : list Op) :
  let e := (run init ops).1 in
  rows e = entry_row <$> entries e
  ∧ entries e ≡ₚ map_to_list (jobs e)
  ∧ StronglySorted (λ a b : Z * Job, b.1 < a.1) (entries e)
  ∧ Forall (λ row, (String.length (row_command row) ≤ 63)%nat) (rows e)
  ∧ (_show_jobs_list e = None ↔ entries e = []).
Proof.
  cbv zeta.
  destruct (run_mirrors ops init JobFacts.init_wf init_mirrors)
    as [Hsorted Hkeys].
  set (e := (run init ops).1) in *.
  assert (Hs : StronglySorted (λ a b : Z * Job, b.1 < a.1) (entries e))
    by by apply entries_sorted.
  assert (Hp : entries e ≡ₚ map_to_list (jobs e)).
  { apply NoDup_Permutation;
      [by apply sorted_NoDup | apply NoDup_map_to_list |].
    intros [k j]. rewrite elem_of_entries, elem_of_map_to_list, Hkeys.
    split; [by intros [_ ?] | eauto]. }
  split_and!; [apply rows_entries | done | done | |].
  - rewrite rows_entries. apply Forall_fmap, Forall_forall.
    intros entry _. apply command_cell_length.
  - unfold _show_jobs_list. destruct (decide (jobs e = ∅)) as [E|E].
    + split; [intros _|done]. rewrite E, map_to_list_empty in Hp.
      by apply Permutation_nil_r in Hp.
    + split; [done|]. intros Hnil. rewrite Hnil in Hp.
      apply Permutation_nil_l in Hp. symmetry in Hp.
      by apply map_to_list_empty_iff in Hp.
Qed.

End JobSessions.

Module ShlexFacts.
Import Shlex.

#[local] Arguments Ascii.eqb : simpl never.
#[local] Arguments String.eqb : simpl never.

Lemma rev_app_rev_app s : ∀ acc acc',
  String.rev_app (String.rev_app s acc) acc' = String.rev_app acc (s ++ acc').
Proof.
  induction s as [|c r IH]; intros acc acc'; simpl; [done|].
  by rewrite IH, JsonFacts.app_cons.
Qed.

Lemma rev_rev_app s : String.rev (String.rev_app s "") = s.
Proof.
  unfold String.rev. rewrite rev_app_rev_app. simpl.
  apply JsonFacts.app_nil_r.
Qed.

Lemma nonempty_rev_app r : ∀ c acc,
  nonempty (String.rev_app r (String c acc)) = true.
Proof. induction r as [|x r IH]; intros c acc; simpl; [done | apply IH]. Qed.

(** A safe character is an ordinary one for the lexer and no whitespace
    for [strip]. *)
Lemma is_safe_plain c :
  is_safe c = true →
  is_whitespace c = false ∧ is_quote c = false
  ∧ Ascii.eqb c backslash = false ∧ Py.isspace c = false.
Proof.
  destruct c as [[] [] [] [] [] [] [] []]; vm_compute; intros H;
    first [discriminate H | done].
Qed.

Lemma lex_safe s : ∀ tok q rest,
  all_safe s = true →
  lex Word tok q (s ++ rest) = lex Word (String.rev_app s tok) q rest.
Proof.
  induction s as [|c r IH]; intros tok q rest Hs; [done|].
  simpl in Hs. apply andb_prop in Hs as [Hc Hr].
  destruct (is_safe_plain c Hc) as (Hw & Hq & Hb & _).
  rewrite JsonFacts.app_cons. simpl. rewrite Hw, Hq, Hb. by apply IH.
Qed.

Lemma lex_quoted s : ∀ tok q rest,
  lex (Quote squote) tok q (escape_squotes s ++ String squote rest)
  = lex Word (String.rev_app s tok) true rest.
Proof.
  induction s as [|c r IH]; intros tok q rest.
  - simpl. done.
  - simpl. destruct (Ascii.eqb_spec c squote) as [->|Hne].
    + rewrite !JsonFacts.app_cons. simpl.
      change (Ascii.eqb squote squote) with true.
      change (is_whitespace dquote) with false.
      change (is_quote dquote) with true.
      change (Ascii.eqb squote dquote) with false.
      change (Ascii.eqb squote backslash) with false.
      change (Ascii.eqb dquote dquote) with true.
      change (is_whitespace squote) with false.
      change (is_quote squote) with true.
      cbn [andb]. apply IH.
    + rewrite JsonFacts.app_cons. simpl.
      apply Ascii.eqb_neq in Hne. rewrite Hne.
      change (Ascii.eqb squote dquote) with false.
      rewrite andb_false_r. apply IH.
Qed.

(** The lexer reads a quoted token back, up to the end of the text or to
    the blank after it. *)
Lemma lex_quote_end a : split (quote a) = Tokens [a].
Proof.
  unfold split, quote. destruct a as [|c r] eqn:E; [done|]. rewrite <- E.
  destruct (all_safe a) eqn:Hs.
  - subst a. simpl in Hs. apply andb_prop in Hs as [Hc Hr].
    destruct (is_safe_plain c Hc) as (Hw & Hq & Hb & _).
    simpl. rewrite Hw, Hq, Hb.
    rewrite <- (JsonFacts.app_nil_r r) at 1. rewrite (lex_safe r _ _ _ Hr).
    simpl. rewrite nonempty_rev_app. simpl.
    change (String.rev_app r (String c "")) with (String.rev_app (String c r) "").
    by rewrite rev_rev_app.
  - simpl. change (is_whitespace squote) with false.
    change (Ascii.eqb squote backslash) with false.
    change (is_quote squote) with true. cbn iota.
    rewrite lex_quoted. simpl. by rewrite orb_true_r, rev_rev_app.
Qed.

Lemma lex_quote_blank a b :
  split (quote a ++ String " " b)
  = match split b with
    | Tokens ts => Tokens (a :: ts)
    | err => err
    end.
Proof.
  unfold split, quote. destruct a as [|c r] eqn:E.
  { change ("''" ++ String " " b)
      with (String squote (String squote (String " " b))).
    simpl. by destruct (lex Blank "" false b). }
  rewrite <- E. destruct (all_safe a) eqn:Hs.
  - subst a. simpl in Hs. apply andb_prop in Hs as [Hc Hr].
    destruct (is_safe_plain c Hc) as (Hw & Hq & Hb & _).
    rewrite JsonFacts.app_cons. simpl. rewrite Hw, Hq, Hb.
    rewrite (lex_safe r _ _ _ Hr). simpl. rewrite nonempty_rev_app. simpl.
    destruct (lex Blank "" false b); simpl; [|done..].
    do 2 f_equal. apply (rev_rev_app (String c r)).
  - rewrite JsonFacts.app_cons, JsonFacts.app_assoc, JsonFacts.app_cons. simpl.
    change (is_whitespace squote) with false.
    change (Ascii.eqb squote backslash) with false.
    change (is_quote squote) with true. cbn iota.
    change (String squote ("" ++ String " " b)) with (String squote (String " " b)).
    rewrite lex_quoted. simpl. rewrite orb_true_r.
    destruct (lex Blank "" false b); simpl; [|done..].
    do 2 f_equal. apply rev_rev_app.
Qed.

Lemma split_quoted_args args :
  split (Py.join " " (quote <$> args)) = Tokens args.
Proof.
  induction args as [|a [|a' args] IH]; [done | apply lex_quote_end |].
  change (Py.join " " (quote <$> a :: a' :: args))
    with (quote a ++ " " ++ Py.join " " (quote <$> a' :: args)).
  change (" " ++ ?x) with (String " " x).
  by rewrite lex_quote_blank, IH.
Qed.

Lemma emit_tokens tok r vs :
  emit tok r = Tokens vs →
  ∃ vs', r = Tokens vs' ∧ vs = String.rev tok :: vs'.
Proof. destruct r; simpl; [|done..]. intros [= <-]. eauto. Qed.

(** A text that lexes to tokens, then a blank, then more text: the tokens
    of both. *)
Lemma lex_then_blank a b : ∀ st tok q vs,
  (st = Blank → tok = "" ∧ q = false) →
  lex st tok q a = Tokens vs →
  lex st tok q (a ++ String " " b)
  = match split b with
    | Tokens ws => Tokens (vs ++ ws)
    | err => err
    end.
Proof.
  unfold split.
  induction a as [|c r IH]; intros st tok q vs Hst Ha.
  - change ("" ++ String " " b) with (String " " b). simpl in *.
    destruct st as [| |x|x]; [| |done..].
    + destruct (Hst eq_refl) as [-> ->]. simplify_eq. simpl.
      by destruct (lex Blank "" false b).
    + destruct (nonempty tok || q) eqn:E; simplify_eq.
      * by destruct (lex Blank "" false b).
      * apply orb_false_iff in E as [E ->]. destruct tok; [|done].
        by destruct (lex Blank "" false b).
  - rewrite JsonFacts.app_cons. simpl in *.
    destruct st as [| |x|x].
    + destruct (Hst eq_refl) as [-> ->]. simpl in *.
      destruct (is_whitespace c); [by apply IH|].
      destruct (Ascii.eqb c backslash); [by apply IH|].
      destruct (is_quote c); by apply IH.
    + destruct (is_whitespace c).
      * destruct (nonempty tok || q) eqn:E.
        -- apply emit_tokens in Ha as (vs' & Ha & ->).
           rewrite (IH Blank "" false vs') by done.
           by destruct (lex Blank "" false b).
        -- apply orb_false_iff in E as [E ->]. destruct tok; [|done].
           by apply IH.
      * destruct (is_quote c); [by apply IH|].
        destruct (Ascii.eqb c backslash); by apply IH.
    + destruct (Ascii.eqb c x); [by apply IH|].
      destruct (Ascii.eqb c backslash && Ascii.eqb x dquote); by apply IH.
    + destruct x as [x|]; by apply IH.
Qed.

(** *** [strip] at the ends of a text *)

Lemma rstrip_app_space s : Py.rstrip (s ++ " ") = Py.rstrip s.
Proof.
  induction s as [|c r IH]; [done|].
  rewrite JsonFacts.app_cons. simpl. by rewrite IH.
Qed.

Lemma rstrip_app s t :
  t ≠ "" → Py.rstrip t = t → Py.rstrip (s ++ t) = s ++ t.
Proof.
  intros Ht Hr. induction s as [|c r IH]; [done|].
  rewrite JsonFacts.app_cons. simpl. rewrite IH.
  destruct (r ++ t) eqn:E; [|done].
  destruct r; [|by rewrite JsonFacts.app_cons in E]. by destruct Ht.
Qed.

Lemma length_lstrip s : (String.length (Py.lstrip s) ≤ String.length s)%nat.
Proof.
  induction s as [|c r IH]; simpl; [done|].
  destruct (Py.isspace c); simpl; lia.
Qed.

Lemma lstrip_app s t :
  s ≠ "" → Py.lstrip s = s → Py.lstrip (s ++ t) = s ++ t.
Proof.
  destruct s as [|c r]; [done|]. intros _ H. simpl in H.
  rewrite JsonFacts.app_cons. simpl.
  destruct (Py.isspace c); [|done].
  pose proof (length_lstrip r) as Hl. rewrite H in Hl. simpl in Hl. lia.
Qed.

Lemma rstrip_safe s : all_safe s = true → Py.rstrip s = s.
Proof.
  induction s as [|c r IH]; [done|]. simpl.
  intros [Hc Hr]%andb_prop. rewrite (IH Hr).
  destruct (is_safe_plain c Hc) as (_ & _ & _ & ->). by destruct r.
Qed.

Lemma rstrip_quote a : quote a ≠ "" ∧ Py.rstrip (quote a) = quote a.
Proof.
  unfold quote. destruct a as [|c r] eqn:E; [done|]. rewrite <- E.
  destruct (all_safe a) eqn:Hs.
  - split; [by subst | by apply rstrip_safe].
  - split; [done|].
    change (String squote (escape_squotes a ++ String squote ""))
      with (String squote (escape_squotes a) ++ String squote "")
      at 2.
    rewrite <- (JsonFacts.app_cons squote).
    by apply rstrip_app.
Qed.

Lemma rstrip_quoted_args a args :
  let rest := Py.join " " (quote <$> a :: args) in
  rest ≠ "" ∧ Py.rstrip rest = rest.
Proof.
  revert a. induction args as [|a' args IH]; intros a.
  - apply rstrip_quote.
  - cbv zeta.
    change (Py.join " " (quote <$> a :: a' :: args))
      with (quote a ++ " " ++ Py.join " " (quote <$> a' :: args)).
    destruct (IH a') as [Hne Hr]. cbv zeta in *.
    rewrite <- JsonFacts.app_assoc. split.
    + intros H. destruct (quote a ++ " ") eqn:E.
      * destruct (quote a); [done | by rewrite JsonFacts.app_cons in E].
      * by rewrite JsonFacts.app_cons in H.
    + by apply rstrip_app.
Qed.

End ShlexFacts.

Module BuiltinFacts.
Import Shell Builtins.

#[local] Arguments Ascii.eqb : simpl never.
#[local] Arguments String.eqb : simpl never.

(** *** Blank lines *)

Lemma rstrip_blank line : blank line = true → Py.rstrip line = "".
Proof.
  induction line as [|c r IH]; simpl; [done|].
  intros [Hc Hr]%andb_prop. by rewrite (IH Hr), Hc.
Qed.

(** X14.  A line of whitespace only is dropped by [execute]: no handler sees
    it and the executor is left as it was. *)
Theorem blank_line_is_ignored (w : World) (line : string) (e : Executor) :
  blank line = true → execute w line e = (Empty, e).
Proof.
  intros H. unfold execute, Py.strip. by rewrite (rstrip_blank line H).
Qed.

(** A tab and two spaces. *)
Lemma blank_line_is_ignored_witness :
  execute sample_world (String "009" "  ") sample_executor
  = (Empty, sample_executor).
Proof. by apply blank_line_is_ignored. Defined.

(** *** [unalias] and [unset] *)

(** The alias table is a dict in insertion order. *)
Lemma dict_lookup_set k v (d : Dict) : <[k := v]> d !! k = Some v.
Proof.
  unfold insert, dict_insert, lookup, dict_lookup.
  induction d as [|[k' v'] d IH]; simpl.
  - by rewrite String.eqb_refl.
  - destruct (String.eqb_spec k k') as [->|Hne]; simpl.
    + by rewrite String.eqb_refl.
    + by destruct (String.eqb_spec k k').
Qed.



Lemma dict_del_absent k (d : Dict) : d !! k = None → delete k d = d.
Proof.
  unfold delete, dict_delete, lookup, dict_lookup.
  induction d as [|[k' v'] d IH]; simpl; [done|].
  destruct (String.eqb_spec k k') as [->|Hne]; [done|].
  intros H. by rewrite IH.
Qed.

Lemma dict_del_set k v (d : Dict) :
  d !! k = None → delete k (<[k := v]> d) = d.
Proof.
  unfold delete, dict_delete, insert, dict_insert, lookup, dict_lookup.
  induction d as [|[k' v'] d IH]; simpl.
  - by rewrite String.eqb_refl.
  - destruct (String.eqb_spec k k') as [->|Hne]; [done|].
    intros H. simpl. destruct (String.eqb_spec k k'); [done|].
    by rewrite IH.
Qed.



Lemma dict_set_keeps k v x (d : Dict) : x ∈ d.*1 → x ∈ (dict_set k v d).*1.
Proof.
  induction d as [|[k0 v0] d IH]; simpl; [by intros ?%elem_of_nil|].
  intros [->|H]%elem_of_cons;
    destruct (String.eqb_spec k k0) as [->|Hne]; simpl;
    first [by left | by right | right; by apply IH].
Qed.


(** Removing names one by one: what [unalias] does to the alias table and
    [unset] to the environment. *)
Ltac removal IH lookup_del lookup_del_ne :=
  let removed := fresh "removed" in
  let table' := fresh "table'" in
  let Hin := fresh "Hin" in
  let Hout := fresh "Hout" in
  let Hany := fresh "Hany" in
  let Hnil := fresh "Hnil" in
  match goal with
  | |- context [decide (is_Some (?table !! ?n))] =>
      destruct (decide (is_Some (table !! n))) as [Hn|Hn];
      [ specialize (IH (delete n table))
      | specialize (IH table); apply eq_None_not_Some in Hn ];
      match type of IH with
      | context [?f ?names ?t] =>
          match f with
          | _ => destruct (f names t) as [removed table']
          end
      end;
      simpl in *; destruct IH as (Hin & Hout & Hany & Hnil);
      [ split_and!;
        [ intros name [->|H]%elem_of_cons; [|by apply Hin];
          destruct (Hany n) as [H|H]; [done|];
          by rewrite H, lookup_del
        | intros name [Hne Hnot]%not_elem_of_cons;
          by rewrite (Hout _ Hnot), lookup_del_ne
        | intros name; destruct (Hany name) as [H|H]; [by left|];
          destruct (decide (name = n)) as [->|Hne];
          [ left; by rewrite H, lookup_del
          | right; by rewrite H, lookup_del_ne ]
        | split; [done|]; intros H; destruct Hn as [v Hv];
          rewrite H in Hv; [done | by left] ]
      | split_and!;
        [ intros name [->|H]%elem_of_cons; [|by apply Hin];
          destruct (Hany n) as [H|H]; congruence
        | intros name [Hne Hnot]%not_elem_of_cons; by apply Hout
        | done
        | rewrite Hnil; split;
          [ intros H name [->|Hin']%elem_of_cons; [done | by apply H]
          | intros H name Hin'; apply H; by right ] ] ]
  end.


Lemma env_lookup_del k (env : gmap string string) : delete k env !! k = None.
Proof. apply lookup_delete_eq. Qed.

Lemma env_lookup_del_ne k k' (env : gmap string string) :
  k ≠ k' → delete k env !! k' = env !! k'.
Proof. apply lookup_delete_ne. Qed.

Lemma unset_all_spec names : ∀ env,
  let r := unset_all names env in
  (∀ name, name ∈ names → r.2 !! name = None)
  ∧ (∀ name, name ∉ names → r.2 !! name = env !! name)
  ∧ (∀ name, r.2 !! name = None ∨ r.2 !! name = env !! name)
  ∧ (r.1 = [] ↔ ∀ name, name ∈ names → env !! name = None).
Proof.
  induction names as [|n names IH]; intros env; simpl.
  - split_and!; [by intros ? ?%elem_of_nil | done | by right |].
    split; [by intros _ ? ?%elem_of_nil | done].
  - removal IH env_lookup_del env_lookup_del_ne.
Qed.

Lemma save_aliases_fields w e :
  aliases (_save_aliases w e) = aliases e
  ∧ environ (_save_aliases w e) = environ e
  ∧ cwd (_save_aliases w e) = cwd e
  ∧ previous_directory (_save_aliases w e) = previous_directory e
  ∧ alias_file (_save_aliases w e)
    = (if write_ok w then Some (Json.dumps (Text.items (aliases e))) else alias_file e).
Proof. unfold _save_aliases. by destruct (write_ok w). Qed.



(** X16.  [unset n1 ...  nk] takes the line, removes the variables named and
    no other, and leaves the aliases, the alias file and the working
    directory alone. *)
Theorem unset_removes_exactly_the_named
        (command cmd : string) (names : list string) (e : Executor) :
  Py.startswith command "unset " = true →
  Shlex.split command = Shlex.Tokens (cmd :: names) →
  names ≠ [] →
  let e' := (_handle_unset_command command e).1 in
  (_handle_unset_command command e).2 = true
  ∧ (∀ name, name ∈ names → environ e' !! name = None)
  ∧ (∀ name, name ∉ names → environ e' !! name = environ e !! name)
  ∧ aliases e' = aliases e ∧ alias_file e' = alias_file e ∧ cwd e' = cwd e.
Proof.
  intros Hstart Hsplit Hnames. cbv zeta. unfold _handle_unset_command.
  rewrite Hstart, Hsplit. simpl negb. cbv iota.
  replace (length (cmd :: names) <? 2)%nat with false
    by (by destruct names).
  cbn [tail].
  destruct (unset_all_spec names (environ e)) as (Hin & Hout & _ & _).
  destruct (unset_all names (environ e)) as [removed env]. simpl in *.
  by destruct removed.
Qed.

(** One of the two names is set. *)
Lemma unset_removes_exactly_the_named_witness :
  let e' := (_handle_unset_command "unset FOO BAR" sample_executor).1 in
  (_handle_unset_command "unset FOO BAR" sample_executor).2 = true
  ∧ (∀ name, name ∈ ["FOO"; "BAR"] → environ e' !! name = None)
  ∧ (∀ name, name ∉ ["FOO"; "BAR"] →
     environ e' !! name = environ sample_executor !! name)
  ∧ aliases e' = aliases sample_executor
  ∧ alias_file e' = alias_file sample_executor
  ∧ cwd e' = cwd sample_executor.
Proof.
  apply (unset_removes_exactly_the_named "unset FOO BAR" "unset" ["FOO"; "BAR"]
           sample_executor); [reflexivity | reflexivity | discriminate].
Defined.

(** *** [alias] and [export] with definitions *)

Lemma update_all_insert k v (l : list (string * string)) :
  ∀ table : gmap string string,
  k ∉ l.*1 →
  update_all l (<[k := v]> table) = <[k := v]> (update_all l table).
Proof.
  unfold update_all.
  induction l as [|[k' v'] l IH]; intros table Hk; simpl; [done|].
  apply not_elem_of_cons in Hk as [Hne Hk]. simpl in Hne.
  rewrite <- IH by done. f_equal. by apply insert_insert_ne.
Qed.

Lemma dict_set_keys k v d :
  NoDup d.*1 →
  NoDup (dict_set k v d).*1
  ∧ ∀ x, x ∈ (dict_set k v d).*1 ↔ x = k ∨ x ∈ d.*1.
Proof.
  induction d as [|[k' v'] d IH]; simpl.
  - intros _. split; [repeat constructor; by intros ?%elem_of_nil|].
    intros x. rewrite list_elem_of_singleton.
    split; [by left | by intros [|?%elem_of_nil]].
  - intros [Hk' Hd]%NoDup_cons. destruct (String.eqb_spec k k') as [->|Hne].
    + simpl. split; [by constructor|]. intros x. rewrite elem_of_cons. tauto.
    + destruct (IH Hd) as [Hnd Hin]. simpl. split.
      * constructor; [|done]. rewrite Hin. simpl in *.
        intros [?|?]; [by subst | done].
      * intros x. rewrite !elem_of_cons, Hin. tauto.
Qed.

Lemma update_all_dict_set k v d : ∀ table : gmap string string,
  NoDup d.*1 →
  update_all (dict_set k v d) table = <[k := v]> (update_all d table).
Proof.
  induction d as [|[k' v'] d IH]; intros table Hnd; simpl; [done|].
  apply NoDup_cons in Hnd as [Hk' Hd].
  destruct (String.eqb_spec k k') as [->|Hne].
  - change (update_all ((k', v) :: d) table)
      with (update_all d (<[k' := v]> table)).
    change (update_all ((k', v') :: d) table)
      with (update_all d (<[k' := v']> table)).
    rewrite !update_all_insert by done. by rewrite insert_insert_eq.
  - change (update_all ((k', v') :: dict_set k v d) table)
      with (update_all (dict_set k v d) (<[k' := v']> table)).
    by rewrite IH.
Qed.

Lemma define_all_snoc {M : Type} `{Insert string string M} l d (table : M) :
  define_all (l ++ [d])%list table = <[d.1 := d.2]> (define_all l table).
Proof. unfold define_all. by rewrite foldl_app. Qed.

(** The same for the alias table, where a name that is set again keeps its
    place. *)
Lemma dict_update_all_keeps (l : list (string * string)) : ∀ (table : Dict) k,
  k ∈ table.*1 → k ∈ (update_all l table).*1.
Proof.
  unfold update_all.
  induction l as [|[a x] l IH]; intros table k Hk; simpl; [done|].
  apply IH. by apply dict_set_keeps.
Qed.






Lemma dict_set_nul_free name value updates :
  nul_free value = true →
  Forall (λ d, nul_free d.2 = true) updates →
  Forall (λ d, nul_free d.2 = true) (dict_set name value updates).
Proof.
  intros Hv. induction 1 as [|[k v] updates Hd Hrest IH]; simpl.
  - by repeat constructor.
  - destruct (String.eqb name k); by constructor.
Qed.

Lemma export_updates_define tokens definitions :
  Forall2 (λ token d, export_definition token = Some d) tokens definitions →
  ∀ updates seen (table : gmap string string),
  NoDup updates.*1 →
  update_all updates table = define_all seen table →
  Forall (λ d, nul_free d.2 = true) updates →
  Forall (λ d, nul_free d.2 = true) definitions →
  ∃ updates',
    export_updates tokens updates = inr updates'
    ∧ Forall (λ d, nul_free d.2 = true) updates'
    ∧ update_all updates' table = define_all (seen ++ definitions)%list table.
Proof.
  induction 1 as [|token d tokens definitions Hd _ IH];
    intros updates seen table Hnd Hup Hnul Hnul'; simpl.
  - rewrite app_nil_r. eauto.
  - unfold export_definition in Hd.
    destruct (Py.partition "=" token) as [[name value]|]; [|done].
    destruct (_is_valid_identifier name); [|done]. simpl. simplify_eq.
    apply Forall_cons in Hnul' as [Hv Hnul'].
    destruct (dict_set_keys name value updates Hnd) as [Hnd' _].
    destruct (IH (dict_set name value updates) (seen ++ [(name, value)])%list
                table Hnd')
      as (updates' & H1 & H2 & H3); [| |done|].
    { rewrite update_all_dict_set, define_all_snoc by done. by rewrite Hup. }
    { by apply dict_set_nul_free. }
    exists updates'. rewrite <- app_assoc in H3. done.
Qed.

Lemma setenv_all_nul_free updates : ∀ env,
  Forall (λ d, nul_free d.2 = true) updates →
  setenv_all updates env = (update_all updates env, true).
Proof.
  induction updates as [|[name value] updates IH]; intros env H; simpl;
    [done|].
  apply Forall_cons in H as [Hv H]. unfold nul_free in Hv. simpl in Hv.
  apply negb_true_iff in Hv. rewrite Hv. by apply IH.
Qed.

(** X18.  An [export] line whose tokens are all assignments [name=value]
    with a valid name and no NUL character in a value sets the variables in
    the order of the line, a name assigned twice keeping its last value, and
    touches neither the aliases nor the working directory. *)
Theorem export_definitions_are_made_in_order
        (command cmd : string) (tokens : list string)
        (definitions : list (string * string)) (e : Executor) :
  Py.startswith command "export" = true →
  Shlex.split command = Shlex.Tokens (cmd :: tokens) →
  tokens ≠ [] →
  mapM export_definition tokens = Some definitions →
  Forall (λ d, nul_free d.2 = true) definitions →
  ∃ e', _handle_export_command command e = Ok true e'
        ∧ environ e' = define_all definitions (environ e)
        ∧ aliases e' = aliases e ∧ alias_file e' = alias_file e
        ∧ cwd e' = cwd e.
Proof.
  intros Hstart Hsplit Htokens Hdefs Hnul. unfold _handle_export_command.
  rewrite Hstart, Hsplit. cbn [negb tail].
  destruct tokens as [|t tokens]; [done|].
  apply mapM_Some in Hdefs.
  destruct (export_updates_define _ _ Hdefs [] [] (environ e))
    as (updates & -> & Hnul' & Hup); [constructor | done | constructor | done |].
  simpl in Hup. rewrite (setenv_all_nul_free _ _ Hnul').
  eexists. split; [done|]. simpl. by rewrite Hup.
Qed.

(** Three assignments, two of them to the same name. *)
Lemma export_definitions_are_made_in_order_witness :
  ∃ e', _handle_export_command "export A=1 B='x y' A=2" sample_executor
        = Ok true e'
        ∧ environ e'
          = define_all [("A", "1"); ("B", "x y"); ("A", "2")]
                       (environ sample_executor)
        ∧ aliases e' = aliases sample_executor
        ∧ alias_file e' = alias_file sample_executor
        ∧ cwd e' = cwd sample_executor.
Proof.
  apply (export_definitions_are_made_in_order "export A=1 B='x y' A=2"
           "export" ["A=1"; "B=x y"; "A=2"]);
    [reflexivity | reflexivity | discriminate | reflexivity |].
  repeat constructor.
Defined.

(** X19.  Defining an alias that was not there and removing it again gives
    the alias table back as it was, and the alias file holds that table when
    it can be written. *)
Theorem alias_then_unalias_restores_the_table
        (w : World) (define remove cmd cmd' token name value : string)
        (e : Executor) :
  Shlex.split define = Shlex.Tokens [cmd; token] →
  alias_definition token = Some (name, value) →
  Shlex.split remove = Shlex.Tokens [cmd'; name] →
  aliases e !! name = None →
  let e1 := _handle_alias_command w define e in
  let e2 := _handle_unalias_command w remove e1 in
  aliases e1 !! name = Some value
  ∧ aliases e2 = aliases e
  ∧ (write_ok w = true → alias_file e2 = Some (Json.dumps (Text.items (aliases e))))
  ∧ environ e2 = environ e.
Proof.
  intros Hdefine Htoken Hremove Hfresh. cbv zeta.
  assert (H1 : aliases (_handle_alias_command w define e)
               = <[name := value]> (aliases e)
               ∧ environ (_handle_alias_command w define e) = environ e).
  { unfold _handle_alias_command. rewrite Hdefine. cbn [tail alias_updates].
    unfold alias_definition, quotes in Htoken.
    destruct (Py.partition "=" token) as [[name' value']|]; [|done].
    destruct (_is_valid_identifier name'); [|done]. simplify_eq. simpl.
    match goal with
    | |- context [_save_aliases w ?x] =>
        by destruct (save_aliases_fields w x) as (-> & -> & _)
    end. }
  destruct H1 as [Ha1 He1].
  set (e1 := _handle_alias_command w define e) in *.
  split; [by rewrite Ha1, dict_lookup_set|].
  unfold _handle_unalias_command. rewrite Hremove.
  cbn [length Nat.ltb Nat.leb tail unalias_all].
  rewrite Ha1, dict_lookup_set.
  rewrite decide_True by eauto.
  rewrite dict_del_set by done.
  destruct (save_aliases_fields w (with_aliases (aliases e) e1))
    as (Ha & He & _ & _ & Hf).
  simpl. rewrite Ha, He, Hf. simpl. split_and!; [done | by intros -> | done].
Qed.

(** The alias [g] is defined and removed. *)
Lemma alias_then_unalias_restores_the_table_witness :
  let e1 := _handle_alias_command sample_world "alias g='git status'"
              sample_executor in
  let e2 := _handle_unalias_command sample_world "unalias g" e1 in
  aliases e1 !! "g" = Some "git status"
  ∧ aliases e2 = aliases sample_executor
  ∧ (write_ok sample_world = true →
     alias_file e2 = Some (Json.dumps (Text.items (aliases sample_executor))))
  ∧ environ e2 = environ sample_executor.
Proof.
  apply (alias_then_unalias_restores_the_table sample_world
           "alias g='git status'" "unalias g" "alias" "unalias"
           "g=git status" "g" "git status" sample_executor);
    reflexivity.
Defined.

Lemma partition_contains c token d :
  Py.partition c token = Some d → Py.contains (String c "") token = true.
Proof.
  revert d. induction token as [|x r IH]; intros d; simpl; [done|].
  rewrite (Ascii.eqb_sym c x). destruct (Ascii.eqb x c); [done|]. simpl.
  destruct (Py.partition c r) as [[a b]|] eqn:E; [|done].
  intros _. destruct r; [done|]. by apply (IH (a, b)).
Qed.

Lemma assignment_updates_define w tokens definitions :
  Forall2 (λ token d, export_definition token = Some d) tokens definitions →
  ∀ updates seen (table : gmap string string) e,
  NoDup updates.*1 →
  update_all updates table = define_all seen table →
  Forall (λ d, nul_free d.2 = true) updates →
  Forall (λ d, plain_value d.2 = true ∧ nul_free d.2 = true) definitions →
  ∃ updates',
    assignment_updates w tokens updates e = (Some updates', e)
    ∧ Forall (λ d, nul_free d.2 = true) updates'
    ∧ update_all updates' table = define_all (seen ++ definitions)%list table.
Proof.
  induction 1 as [|token d tokens definitions Hd _ IH];
    intros updates seen table e Hnd Hup Hnul Hplain; simpl.
  - rewrite app_nil_r. eauto.
  - unfold export_definition in Hd.
    destruct (Py.partition "=" token) as [[name value]|]; [|done].
    destruct (_is_valid_identifier name); [|done]. simpl. simplify_eq.
    apply Forall_cons in Hplain as [[Hp Hv] Hplain].
    unfold plain_value in Hp. simpl in Hp. apply negb_true_iff in Hp.
    rewrite Hp.
    destruct (dict_set_keys name value updates Hnd) as [Hnd' _].
    destruct (IH (dict_set name value updates) (seen ++ [(name, value)])%list
                table e Hnd')
      as (updates' & H1 & H2 & H3); [| |done|].
    { rewrite update_all_dict_set, define_all_snoc by done. by rewrite Hup. }
    { by apply dict_set_nul_free. }
    exists updates'. rewrite <- app_assoc in H3. done.
Qed.

Lemma definitions_have_equals tokens definitions :
  Forall2 (λ token d, export_definition token = Some d) tokens definitions →
  forallb (Py.contains "=") tokens = true.
Proof.
  induction 1 as [|token d tokens definitions Hd _ IH]; [done|].
  simpl. rewrite IH, andb_true_r. unfold export_definition in Hd.
  destruct (Py.partition "=" token) as [d'|] eqn:E; [|done].
  by apply (partition_contains _ _ _ E).
Qed.

(** X20.  A line made of assignments [name=value] only, with valid names and
    values that hold neither an arithmetic expansion nor a NUL character, is
    taken by [_handle_assignment_only], which sets the variables in the
    order of the line and changes nothing else, unless the line begins with
    the text [alias]: such a line is refused by the first test of the
    handler, which answers [False] and leaves the executor as it is. *)
Theorem assignment_line_sets_the_variables
        (w : World) (command : string) (tokens : list string)
        (definitions : list (string * string)) (e : Executor) :
  Shlex.split command = Shlex.Tokens tokens →
  tokens ≠ [] →
  mapM export_definition tokens = Some definitions →
  Forall (λ d, plain_value d.2 = true ∧ nul_free d.2 = true) definitions →
  Py.contains "=" command = true →
  if Py.startswith command "alias"
  then _handle_assignment_only w command e = Ok false e
  else ∃ e', _handle_assignment_only w command e = Ok true e'
             ∧ environ e' = define_all definitions (environ e)
             ∧ aliases e' = aliases e ∧ alias_file e' = alias_file e
             ∧ cwd e' = cwd e.
Proof.
  intros Hsplit Htokens Hdefs Hplain Heq.
  unfold _handle_assignment_only. rewrite Heq. cbn [negb orb].
  destruct (Py.startswith command "alias"); [done|]. rewrite Hsplit.
  destruct tokens as [|t tokens]; [done|].
  apply mapM_Some in Hdefs.
  rewrite (definitions_have_equals _ _ Hdefs).
  destruct (assignment_updates_define w _ _ Hdefs [] [] (environ e) e)
    as (updates & -> & Hnul' & Hup); [constructor | done | constructor | done |].
  simpl in Hup. rewrite (setenv_all_nul_free _ _ Hnul').
  eexists. split; [done|]. simpl. by rewrite Hup.
Qed.

(** Three assignments, two of them to the same name; and the line
    [alias_x=1], which is refused and ends at the captured runner. *)
Lemma assignment_line_sets_the_variables_witness :
  (∃ e', _handle_assignment_only sample_world "A=1 B='x y' A=2" sample_executor
         = Ok true e'
         ∧ environ e'
           = define_all [("A", "1"); ("B", "x y"); ("A", "2")]
                        (environ sample_executor)
         ∧ aliases e' = aliases sample_executor
         ∧ alias_file e' = alias_file sample_executor
         ∧ cwd e' = cwd sample_executor)
  ∧ _handle_assignment_only sample_world "alias_x=1" sample_executor
    = Ok false sample_executor
  ∧ execute sample_world "alias_x=1" sample_executor
    = (RegularCapture "alias_x=1", sample_executor).
Proof.
  split_and!.
  - apply (assignment_line_sets_the_variables sample_world "A=1 B='x y' A=2"
             ["A=1"; "B=x y"; "A=2"]);
      [reflexivity | discriminate | reflexivity | | reflexivity].
    repeat constructor.
  - apply (assignment_line_sets_the_variables sample_world "alias_x=1"
             ["alias_x=1"] [("alias_x", "1")]);
      [reflexivity | discriminate | reflexivity | | reflexivity].
    repeat constructor.
  - reflexivity.
Defined.

(** *** Alias expansion *)

(** X21.  Alias expansion re-quotes the arguments so that they survive: when
    the first word of a line is an alias whose value is not empty, has no
    whitespace at its ends and lexes to some tokens, the expanded line lexes
    to those tokens followed by the arguments of the original line, each one
    unchanged.  An alias whose value is empty is not expanded: the line
    stays as it is. *)
Theorem alias_expansion_keeps_the_arguments
        (e : Executor) (line first value : string) (args values : list string) :
  Shlex.split line = Shlex.Tokens (first :: args) →
  aliases e !! first = Some value →
  Py.lstrip value = value →
  Py.rstrip value = value →
  Shlex.split value = Shlex.Tokens values →
  if decide (value = "")
  then _expand_alias e line = line
  else Shlex.split (_expand_alias e line) = Shlex.Tokens (values ++ args).
Proof.
  intros Hline Halias Hl Hr Hvalue. unfold _expand_alias.
  rewrite Hline, Halias.
  destruct (decide (value = "")) as [->|Hne]; [done|].
  destruct value as [|c v] eqn:E; [done|].
  rewrite <- E in *. clear E c v. unfold Py.strip.
  destruct args as [|a args].
  - change (Py.join " " (Shlex.quote <$> [])) with "".
    change (" " ++ "") with " ".
    rewrite ShlexFacts.rstrip_app_space, Hr, Hl, app_nil_r. done.
  - destruct (ShlexFacts.rstrip_quoted_args a args) as [Hne' Hr'].
    cbv zeta in *.
    set (rest := Py.join " " (Shlex.quote <$> a :: args)) in *.
    assert (Hrest : " " ++ rest ≠ "") by done.
    rewrite <- JsonFacts.app_assoc.
    rewrite ShlexFacts.rstrip_app by done.
    rewrite JsonFacts.app_assoc.
    rewrite ShlexFacts.lstrip_app by done.
    change (" " ++ rest) with (String " " rest).
    unfold Shlex.split in *.
    rewrite (ShlexFacts.lex_then_blank value rest _ _ _ values) by done.
    unfold rest. by rewrite ShlexFacts.split_quoted_args.
Qed.

(** An argument with a space in it and one with a glob character; and the
    alias [x] that [alias x=] defines, with the empty value. *)
Lemma alias_expansion_keeps_the_arguments_witness :
  Shlex.split (_expand_alias sample_executor "ll 'my file' *.txt")
  = Shlex.Tokens (["ls"; "-la"] ++ ["my file"; "*.txt"])
  ∧ aliases (_handle_alias_command sample_world "alias x=" sample_executor)
    !! "x" = Some ""
  ∧ _expand_alias (_handle_alias_command sample_world "alias x=" sample_executor)
                  "x a b"
    = "x a b".
Proof.
  split_and!.
  - apply (alias_expansion_keeps_the_arguments sample_executor
             "ll 'my file' *.txt" "ll" "ls -la");
      reflexivity.
  - reflexivity.
  - apply (alias_expansion_keeps_the_arguments
             (_handle_alias_command sample_world "alias x=" sample_executor)
             "x a b" "x" "" ["a"; "b"] []);
      reflexivity.
Defined.

(** *** [cd -] *)

(** X22.  After a [cd] that succeeds, [cd -] asks for the directory the
    shell was in before; when the operating system enters it, the working
    directory is the old one again and the previous directory is the one
    just left.  The aliases and the environment are untouched. *)
Theorem cd_dash_returns (w : World) (command new_dir : string) (e : Executor) :
  chdir w (cwd e) (cd_target w e command) = Entered new_dir →
  cwd e ≠ "" →
  chdir w new_dir (cwd e) = Entered (cwd e) →
  ∃ e1 e2,
    _handle_cd_command w command e = Ok tt e1
    ∧ cwd e1 = new_dir ∧ previous_directory e1 = cwd e
    ∧ _handle_cd_command w "cd -" e1 = Ok tt e2
    ∧ cwd e2 = cwd e ∧ previous_directory e2 = new_dir
    ∧ aliases e2 = aliases e ∧ environ e2 = environ e.
Proof.
  intros Hgo Hcwd Hback. unfold _handle_cd_command at 1. rewrite Hgo.
  eexists. eexists. split; [reflexivity|].
  set (e1 := say _ _).
  assert (H1 : cwd e1 = new_dir ∧ previous_directory e1 = cwd e
               ∧ aliases e1 = aliases e ∧ environ e1 = environ e).
  { unfold e1. by destruct (cd_feedback_enabled w). }
  destruct H1 as (Hc1 & Hp1 & Ha1 & He1).
  assert (Ht : cd_target w e1 "cd -" = cwd e).
  { unfold cd_target.
    replace (Py.strip (Py.drop 3 "cd -")) with "-" by reflexivity.
    cbv iota. replace (String.eqb "-" "-") with true by reflexivity.
    rewrite Hp1. by destruct (cwd e). }
  unfold _handle_cd_command. rewrite Ht, Hc1, Hback.
  split_and!; [done | done | reflexivity | |..];
    by destruct (cd_feedback_enabled w).
Qed.

(** From [/home/u] to [/tmp] and back. *)
Lemma cd_dash_returns_witness :
  ∃ e1 e2,
    _handle_cd_command absolute_world "cd /tmp" sample_executor = Ok tt e1
    ∧ cwd e1 = "/tmp" ∧ previous_directory e1 = cwd sample_executor
    ∧ _handle_cd_command absolute_world "cd -" e1 = Ok tt e2
    ∧ cwd e2 = cwd sample_executor ∧ previous_directory e2 = "/tmp"
    ∧ aliases e2 = aliases sample_executor
    ∧ environ e2 = environ sample_executor.
Proof.
  apply (cd_dash_returns absolute_world "cd /tmp" "/tmp" sample_executor);
    first [reflexivity | discriminate].
Defined.

(** *** Lines with [||] *)

Lemma elem_of_tail_in {A} (x : A) l : x ∈ tail l → x ∈ l.
Proof. destruct l; simpl; [done|]. by right. Qed.

Lemma split_on_empty_part s :
  Py.contains "||" s = true → "" ∈ tail (Py.split_on "|" s).
Proof.
  induction s as [|c r IH]; [done|].
  cbn [Py.contains]. intros [H|H]%orb_prop.
  - destruct r as [|c' r']; simpl in H; [by rewrite andb_false_r in H|].
    rewrite andb_true_r in H. apply andb_prop in H as [Hc Hc'].
    apply Ascii.eqb_eq in Hc, Hc'. subst c c'. simpl. by left.
  - specialize (IH H). simpl.
    destruct (Ascii.eqb c "|").
    + simpl. by apply elem_of_tail_in.
    + by destruct (Py.split_on "|" r).
Qed.

Lemma contains_shorter c sub s :
  Py.contains (String c sub) s = true →
  Py.contains (String c "") s = true.
Proof.
  induction s as [|x r IH]; simpl; [done|].
  intros [H|H]%orb_prop.
  - apply andb_prop in H as [-> _]. done.
  - by rewrite (IH H), orb_true_r.
Qed.

Lemma pipeline_all_words w parts :
  pipeline_interactive w parts = Some false →
  ∀ part, part ∈ parts → first_word part ≠ None.
Proof.
  induction parts as [|p parts IH]; simpl; [by intros _ ? ?%elem_of_nil|].
  destruct (first_word p) as [word|] eqn:E; [|done].
  destruct (in_list word (interactive_commands w)); [done|].
  intros H part [->|Hin]%elem_of_cons; [by rewrite E | by apply IH].
Qed.

Lemma double_pipe_not_plain w e command :
  Py.contains "||" command = true →
  _is_interactive_command w e command ≠ Some false.
Proof.
  intros Hc H. unfold _is_interactive_command in H.
  destruct (_is_local_executable_invocation w e command); [done|].
  destruct (_has_background_execution command); [done|].
  destruct (_is_recursive_ls command); [done|].
  destruct (first_word command) as [base_cmd|]; [|done].
  destruct (in_list _ ["jobs"; "fg"; "bg"]); [done|].
  destruct (in_list _ (interactive_commands w)); [done|].
  rewrite (contains_shorter _ _ _ Hc) in H.
  apply (pipeline_all_words _ _ H "").
  - by apply elem_of_tail_in, split_on_empty_part.
  - done.
Qed.

(** X23.  A line with [||] in it reaches the captured runner only as a [cd]
    line with a shell operator.  On any other line the test for interactive
    commands never answers "not interactive": a part of the pipeline is
    empty, so the test answers "interactive" from an earlier part or fails
    with an IndexError. *)
Theorem double_pipe_runs_only_behind_cd
        (w : World) (command : string) (e : Executor) :
  Py.contains "||" command = true →
  _is_interactive_command w e command ≠ Some false
  ∧ ∀ ran e', dispatch w command e = Ok (RegularCapture ran) e' →
              is_cd (Py.strip command) = true ∧ ran = command ∧ e' = e.
Proof.
  intros Hc. pose proof (double_pipe_not_plain w e command Hc) as Hi.
  split; [done|]. intros ran e'.
  unfold dispatch, is_cd. cbv zeta.
  destruct (Py.startswith (Py.strip command) "files"); [done|].
  destruct (in_list _ _ || _ || _); [done|].
  destruct (String.eqb (Py.strip command) "exit"); [done|].
  destruct (String.eqb (Py.strip command) "clear"); [done|].
  destruct (String.eqb (Py.strip command) "cd" || _).
  - destruct (_has_shell_operator command); [by intros [= <- <-]|].
    by destruct (_handle_cd_command w (Py.strip command) e).
  - destruct (Py.startswith (Py.strip command) "source "); [done|].
    destruct (String.eqb (Py.strip command) "deactivate"); [done|].
    destruct (Py.endswith _ _ || _ || _); [done|].
    destruct (_is_interactive_command w e command) as [[|]|]; [| done | done].
    unfold _handle_interactive_command.
    by destruct (_has_background_execution command).
Qed.

(** A [cd] line with [||]. *)
Lemma double_pipe_runs_only_behind_cd_witness :
  _is_interactive_command sample_world sample_executor "cd /nowhere || ls"
  ≠ Some false
  ∧ ∀ ran e',
      dispatch sample_world "cd /nowhere || ls" sample_executor
      = Ok (RegularCapture ran) e' →
      is_cd (Py.strip "cd /nowhere || ls") = true
      ∧ ran = "cd /nowhere || ls" ∧ e' = sample_executor.
Proof.
  apply (double_pipe_runs_only_behind_cd sample_world "cd /nowhere || ls"
           sample_executor).
  reflexivity.
Defined.

End BuiltinFacts.

Module RegularFacts.
Import Shell Regular.

#[local] Arguments Ascii.eqb : simpl never.
#[local] Arguments String.eqb : simpl never.

(** A text that occurs in a line has its last characters in the line too. *)
Lemma startswith_tail c sub s :
  Py.startswith s (String c sub) = true →
  ∃ r, s = String c r ∧ Py.startswith r sub = true.
Proof.
  destruct s as [|x r]; simpl; [done|].
  intros [Hc Hr]%andb_prop. apply Ascii.eqb_eq in Hc. subst. eauto.
Qed.

Lemma contains_tail c sub s :
  Py.contains (String c sub) s = true → Py.contains sub s = true.
Proof.
  induction s as [|x r IH]; [done|].
  cbn [Py.contains]. intros [H|H]%orb_prop.
  - apply startswith_tail in H as (r' & [= <- <-] & Hr).
    destruct r as [|y r]; cbn [Py.contains];
      by rewrite Hr, ?orb_true_r.
  - by rewrite (IH H), orb_true_r.
Qed.

(** X24.  [_has_shell_redirection] and [_has_shell_operator] answer the same
    on every line; hence a line whose empty result [_handle_regular_command]
    passes over in silence is always run through [_build_shell_invocation]. *)
Theorem operator_tests_agree (command : string) :
  _has_shell_redirection command = _has_shell_operator command
  ∧ (has_redirection_or_pipe command = true →
     needs_shell_invocation command = true).
Proof.
  assert (H : _has_shell_redirection command = _has_shell_operator command).
  { unfold _has_shell_redirection, _has_shell_operator. simpl.
    destruct (Py.contains ">" command) eqn:Hgt.
    - by rewrite !orb_true_r.
    - destruct (Py.contains "2>" command) eqn:H2;
        [by rewrite (contains_tail _ _ _ H2) in Hgt|].
      destruct (Py.contains "&>" command) eqn:H3;
        [by rewrite (contains_tail _ _ _ H3) in Hgt|].
      destruct (Py.contains "|" command), (Py.contains "<" command),
        (Py.contains ";" command), (Py.contains "&&" command),
        (Py.contains "||" command); reflexivity. }
  split; [done|]. unfold has_redirection_or_pipe, needs_shell_invocation.
  cbv zeta. rewrite H. intros ->. by rewrite orb_true_r.
Qed.

End RegularFacts.

Module FilesFacts.
Import Shell Files.

#[local] Arguments Ascii.eqb : simpl never.
#[local] Arguments String.eqb : simpl never.
#[local] Arguments Py.int : simpl never.

Lemma clamp_bounds n : 5 ≤ clamp n ≤ 100.
Proof. unfold clamp. lia. Qed.

(** The loop keeps the bound on the number of entries. *)
Lemma files_options_bound w e (n : nat) : ∀ tokens o o',
  (length tokens ≤ n)%nat →
  5 ≤ max_entries o ≤ 100 →
  files_options w e tokens o = inr o' →
  5 ≤ max_entries o' ≤ 100.
Proof.
  induction n as [|n IH]; intros tokens o o' Hlen Ho.
  - destruct tokens; [|simpl in Hlen; lia]. simpl. by intros [= <-].
  - destruct tokens as [|token rest]; [simpl; by intros [= <-]|].
    simpl in Hlen. cbn [files_options].
    destruct (in_list token ["-a"; "--all"]);
      [apply IH; [lia | done]|].
    destruct (in_list token ["-p"; "--preview"]).
    { destruct rest as [|target rest']; [done|].
      apply IH; [simpl in Hlen; lia | done]. }
    destruct (Py.startswith token "--preview="); [apply IH; [lia | done]|].
    destruct (in_list token ["-m"; "--max"]).
    { destruct rest as [|max_value rest']; [done|].
      destruct (Py.int max_value) as [k|]; [|done].
      apply IH; [simpl in Hlen; lia | apply clamp_bounds]. }
    destruct (Py.startswith token "--max=").
    { destruct (Py.int (after_equals token)) as [k|]; [|done].
      apply IH; [lia | apply clamp_bounds]. }
    destruct (Py.startswith token "-"); [done|].
    destruct (positional_set o); [done|].
    apply IH; [lia | done].
Qed.

(** X25.  Whatever [-m], [--max] and [--max=] options a [files] line
    carries, when the line is accepted the number of entries of each kind to
    display is between 5 and 100: at most 100 directories and 100 files are
    shown, and fewer than 5 only when there are no more. *)
Theorem files_shows_between_5_and_100_entries
        (w : World) (e : Executor) (command : string) (o : Options) :
  _handle_files_command w e command = inr o →
  5 ≤ max_entries o ≤ 100
  ∧ ∀ (A : Type) (entries : list A),
      (length (displayed o entries) ≤ 100)%nat
      ∧ (length (displayed o entries) < 5 →
         displayed o entries = entries)%nat.
Proof.
  unfold _handle_files_command.
  destruct (Shlex.split command) as [tokens| |]; [|done..].
  intros H.
  assert (Hb : 5 ≤ max_entries o ≤ 100).
  { apply (files_options_bound w e (length (tail tokens)) (tail tokens)
             (defaults e) o); [done | simpl; lia | done]. }
  split; [done|]. intros A entries. unfold displayed.
  replace (0 <=? max_entries o) with true by (symmetry; apply Z.leb_le; lia).
  rewrite length_take. split; [lia|].
  intros Hlt. apply take_ge. lia.
Qed.

(** [--max=5000] is taken as 100. *)
Lemma files_shows_between_5_and_100_entries_witness :
  5 ≤ 100 ≤ 100
  ∧ ∀ (A : Type) (entries : list A),
      (length (displayed (mkOptions "/home/u" true None 100 false) entries)
       ≤ 100)%nat
      ∧ (length (displayed (mkOptions "/home/u" true None 100 false) entries)
         < 5 →
         displayed (mkOptions "/home/u" true None 100 false) entries
         = entries)%nat.
Proof.
  apply (files_shows_between_5_and_100_entries sample_world sample_executor
           "files -a --max=5000" (mkOptions "/home/u" true None 100 false)).
  reflexivity.
Defined.

End FilesFacts.

Module SourceFacts.
Import Shell Source.

#[local] Arguments Ascii.eqb : simpl never.
#[local] Arguments String.eqb : simpl never.

Lemma putenv_insert key value env env' :
  putenv key value env = inr env' →
  env' = <[key := value]> env.
Proof.
  unfold putenv. destruct (_ || _); [done|].
  destruct key; [done|]. by intros [= <-].
Qed.

(** The loop unsets nothing and leaves the keys it passes over alone. *)
Lemma adopt_keeps old_env lines : ∀ env changes,
  let env' := (adopt old_env lines env changes).1 in
  (∀ k, is_Some (env !! k) → is_Some (env' !! k))
  ∧ (∀ k, skipped k = true → env' !! k = env !! k).
Proof.
  induction lines as [|line rest IH]; intros env changes; [done|].
  cbv zeta. cbn [adopt].
  destruct (Py.contains "=" line && negb (Py.startswith line "_="));
    [|apply IH].
  destruct (Py.partition "=" line) as [[key value]|]; [|apply IH].
  destruct (skipped key) eqn:Hkey; [apply IH|].
  destruct (putenv key value env) as [text|env1] eqn:Hput; [done|].
  apply putenv_insert in Hput. subst env1.
  match goal with
  | |- context [adopt _ _ _ ?c] =>
      destruct (IH (<[key := value]> env) c) as [H1 H2]
  end.
  split.
  - intros k Hk. apply H1. destruct (decide (k = key)) as [->|Hne].
    + rewrite lookup_insert_eq. eauto.
    + by rewrite lookup_insert_ne.
  - intros k Hk. rewrite (H2 k Hk).
    apply lookup_insert_ne. intros ->. congruence.
Qed.

(** X26.  Whatever the sourced file does and whatever the subprocess prints,
    [source] never removes a variable from the environment of the shell, and
    it never changes [PS1], [PS2], [_] or a variable whose name starts with
    [BASH_FUNC_]; this holds also when the command ends in an error. *)
Theorem source_never_unsets_a_variable
        (w : World) (exists_ : string → bool) (shell : string → Run)
        (command : string) (env : gmap string string) :
  let env' := environment (_handle_source_command w exists_ shell command env) in
  (∀ k, is_Some (env !! k) → is_Some (env' !! k))
  ∧ (∀ k, skipped k = true → env' !! k = env !! k).
Proof.
  cbv zeta. unfold _handle_source_command.
  destruct (Py.strip (Py.drop 7 command)) as [|c r]; [done|].
  destruct (negb (exists_ _)); [done|].
  unfold _execute_source_like_command.
  destruct (shell _) as [result|text]; [|done].
  destruct (returncode result =? 0); [|done].
  pose proof (adopt_keeps env (Py.split_on newline (stdout result)) env
                (mkChanges [] [])) as H.
  by destruct (adopt _ _ _ _) as [env' [text|changes]].
Qed.

Lemma assign_keys {V} (k : string) (v : V) d :
  NoDup d.*1 →
  NoDup (assign k v d).*1
  ∧ ∀ x, x ∈ assign k v d → x = (k, v) ∨ (x ∈ d ∧ x.1 ≠ k).
Proof.
  induction d as [|[k' v'] d IH]; simpl.
  - intros _. split; [repeat constructor; by intros ?%elem_of_nil|].
    intros x ->%list_elem_of_singleton. by left.
  - intros [Hk' Hd]%NoDup_cons. destruct (String.eqb_spec k k') as [->|Hne].
    + simpl. split; [by constructor|].
      intros x [->|H]%elem_of_cons; [by left|]. right.
      split; [by right|]. intros Hx. apply Hk'. rewrite <- Hx.
      by apply list_elem_of_fmap_2.
    + destruct (IH Hd) as [Hnd Hin]. simpl. split.
      * constructor; [|done]. intros [[k0 v0] [Hk0 H0]]%list_elem_of_fmap.
        simpl in Hk0. subst k0.
        destruct (Hin _ H0) as [[= -> _]|[H1 _]]; [done|].
        apply Hk'. by apply (list_elem_of_fmap_2 fst _ (k', v0)).
      * intros x [->|H]%elem_of_cons; [right; split; [by left | by intros ?]|].
        destruct (Hin _ H) as [->|[H1 H2]]; [by left|].
        right. split; [by right | done].
Qed.

Lemma adopt_reported old_env lines : ∀ env changes env' changes',
  reported old_env env changes →
  adopt old_env lines env changes = (env', inr changes') →
  reported old_env env' changes'.
Proof.
  induction lines as [|line rest IH]; intros env changes env' changes' Hinv;
    cbn [adopt]; [by intros [= <- <-]|].
  destruct (Py.contains "=" line && negb (Py.startswith line "_="));
    [|by apply IH].
  destruct (Py.partition "=" line) as [[key value]|]; [|by apply IH].
  destruct (skipped key); [by apply IH|].
  destruct (putenv key value env) as [text|env1] eqn:Hput; [done|].
  apply putenv_insert in Hput. subst env1.
  apply IH. destruct Hinv as (Hn & Hc & Hnew & Hchanged).
  destruct (old_env !! key) as [old|] eqn:Hold.
  - assert (Hnew' : ∀ k v, (k, v) ∈ new_vars changes →
              old_env !! k = None ∧ <[key := value]> env !! k = Some v).
    { intros k v Hin. destruct (Hnew _ _ Hin) as [H1 H2]. split; [done|].
      rewrite lookup_insert_ne; [done | congruence]. }
    destruct (String.eqb_spec old value) as [->|Hne]; simpl.
    + by split_and!.
    + destruct (assign_keys key (old, value) (changed_vars changes) Hc)
        as [Hc' Hin'].
      split_and!; [done..|].
      intros k o v [[= -> -> ->]|[Hin _]]%Hin'; [done | by apply Hchanged].
  - destruct (assign_keys key value (new_vars changes) Hn) as [Hn' Hin'].
    simpl. split_and!; [done..| |done].
    intros k v [[= -> ->]|[Hin Hk]]%Hin'.
    + by rewrite lookup_insert_eq.
    + destruct (Hnew _ _ Hin) as [H1 H2]. simpl in Hk.
      by rewrite lookup_insert_ne.
Qed.

(** X27.  When [source] succeeds, a variable it reports as new was not set
    before and is set to the reported value now; a variable it reports as
    changed was set before, to the old value reported, which is not the new
    one; and no variable is reported twice in either list. *)
Theorem source_reports_new_and_changed
        (w : World) (exists_ : string → bool) (shell : string → Run)
        (command : string) (env env' : gmap string string) (changes : Changes) :
  _handle_source_command w exists_ shell command env = Adopted env' changes →
  (∀ k v, (k, v) ∈ new_vars changes → env !! k = None ∧ env' !! k = Some v)
  ∧ (∀ k old v, (k, (old, v)) ∈ changed_vars changes →
                env !! k = Some old ∧ old ≠ v)
  ∧ NoDup (new_vars changes).*1 ∧ NoDup (changed_vars changes).*1.
Proof.
  unfold _handle_source_command.
  destruct (Py.strip (Py.drop 7 command)) as [|c r]; [done|].
  destruct (negb (exists_ _)); [done|].
  unfold _execute_source_like_command.
  destruct (shell _) as [result|text]; [|done].
  destruct (returncode result =? 0); [|done].
  destruct (adopt _ _ _ _) as [env1 [text|changes1]] eqn:Hadopt; [done|].
  intros [= <- <-].
  assert (H0 : reported env env (mkChanges [] [])).
  { split_and!; [constructor | constructor | |]; simpl.
    - by intros ? ? ?%elem_of_nil.
    - by intros ? ? ? ?%elem_of_nil. }
  by destruct (adopt_reported _ _ _ _ _ _ H0 Hadopt) as (? & ? & ? & ?).
Qed.

(** The subprocess prints a new variable, another value for [FOO] and [_]. *)
Lemma source_reports_new_and_changed_witness :
  let changes := mkChanges [("NEW", "1")] [("FOO", ("1", "2"))] in
  let env' := <["NEW" := "1"]> (<["FOO" := "2"]> (environ sample_executor)) in
  (∀ k v, (k, v) ∈ new_vars changes →
          environ sample_executor !! k = None ∧ env' !! k = Some v)
  ∧ (∀ k old v, (k, (old, v)) ∈ changed_vars changes →
                environ sample_executor !! k = Some old ∧ old ≠ v)
  ∧ NoDup (new_vars changes).*1 ∧ NoDup (changed_vars changes).*1.
Proof.
  apply (source_reports_new_and_changed sample_world (λ _, true)
           (printing three_lines) "source /etc/profile").
  vm_compute. reflexivity.
Defined.

End SourceFacts.

Module VenvFacts.
Import Shell Venv.

#[local] Arguments Ascii.eqb : simpl never.
#[local] Arguments String.eqb : simpl never.

(** *** Splitting and joining at a separator *)

Lemma split_on_cons c s :
  ∃ p ps, Py.split_on c s = p :: ps.
Proof.
  destruct s as [|x r]; simpl; [by eauto|].
  destruct (Ascii.eqb x c); [by eauto|].
  destruct (Py.split_on c r); eauto.
Qed.

Lemma split_on_parts c s :
  Forall (λ part, Py.contains (String c "") part = false) (Py.split_on c s).
Proof.
  induction s as [|x r IH]; simpl; [by repeat constructor|].
  destruct (Ascii.eqb x c) eqn:E; [by constructor|].
  destruct (Py.split_on c r) as [|p ps];
    [by repeat constructor; simpl; rewrite Ascii.eqb_sym, E|].
  apply Forall_cons in IH as [Hp Hps]. constructor; [|done].
  simpl. rewrite Ascii.eqb_sym, E. simpl.
  destruct p; [done|]. exact Hp.
Qed.

Lemma split_on_app c p rest :
  Py.contains (String c "") p = false →
  Py.split_on c (p ++ String c rest) = p :: Py.split_on c rest.
Proof.
  induction p as [|x p IH]; intros Hp.
  - change ("" ++ String c rest) with (String c rest). simpl.
    by rewrite Ascii.eqb_refl.
  - rewrite JsonFacts.app_cons. simpl in *.
    apply orb_false_iff in Hp as [Hx Hp]. rewrite andb_true_r in Hx.
    rewrite Ascii.eqb_sym, Hx.
    rewrite IH; [done|]. by destruct p.
Qed.

Lemma split_on_plain c p :
  Py.contains (String c "") p = false → Py.split_on c p = [p].
Proof.
  induction p as [|x p IH]; intros Hp; [done|]. simpl in *.
  apply orb_false_iff in Hp as [Hx Hp]. rewrite andb_true_r in Hx.
  rewrite Ascii.eqb_sym, Hx. rewrite IH; [done|]. by destruct p.
Qed.

(** Joining parts that have no separator in them and splitting the text
    again gives the parts back. *)
Lemma split_on_join c parts :
  parts ≠ [] →
  Forall (λ part, Py.contains (String c "") part = false) parts →
  Py.split_on c (Py.join (String c "") parts) = parts.
Proof.
  intros Hne Hall. induction Hall as [|p parts Hp Hall IH]; [done|].
  destruct parts as [|q parts].
  - by apply split_on_plain.
  - change (Py.join (String c "") (p :: q :: parts))
      with (p ++ String c "" ++ Py.join (String c "") (q :: parts)).
    change (String c "" ++ ?x) with (String c x).
    rewrite split_on_app by done. by rewrite IH.
Qed.

(** *** Leaving a virtualenv *)

Lemma delete_present_unset_all names : ∀ env,
  delete_present names env = unset_all names env.
Proof.
  induction names as [|n names IH]; intros env; simpl; [done|].
  destruct (decide _); by rewrite IH.
Qed.

Lemma delete_present_spec names env :
  let r := delete_present names env in
  (∀ name, name ∈ names → r.2 !! name = None)
  ∧ (∀ name, name ∉ names → r.2 !! name = env !! name).
Proof.
  rewrite delete_present_unset_all.
  by destruct (BuiltinFacts.unset_all_spec names env) as (? & ? & _).
Qed.

Lemma path_join_nonempty a b : b ≠ "" → path_join a b ≠ "".
Proof.
  intros Hb. unfold path_join. destruct a as [|c r]; [done|].
  destruct (Py.endswith _ _); by rewrite JsonFacts.app_cons.
Qed.

Ltac listed :=
  repeat first [apply list_elem_of_here | apply list_elem_of_further].

Ltac unlisted :=
  rewrite ?not_elem_of_cons in *;
  repeat match goal with H : _ ∧ _ |- _ => destruct H end;
  repeat split; first [done | by apply not_elem_of_nil | congruence].

(** What the virtualenv branch does to each variable. *)
Lemma leave_virtualenv_lookup venv env :
  let env' := (leave_virtualenv venv env).1 in
  env' !! "VIRTUAL_ENV" = None
  ∧ env' !! "VIRTUAL_ENV_PROMPT" = None
  ∧ env' !! "PATH"
    = Some (Py.join ":" (List.filter (kept (path_join venv "bin")) (path_of env)))
  ∧ ∀ k, k ∉ virtualenv_variables → env' !! k = env !! k.
Proof.
  unfold leave_virtualenv. cbv zeta. fold (path_of env).
  set (joined := Py.join ":" _).
  destruct (delete_present_spec ["VIRTUAL_ENV"; "VIRTUAL_ENV_PROMPT"]
              (<["PATH" := joined]> env)) as [Hin Hout].
  destruct (delete_present _ _) as [removed env2]. simpl in Hin, Hout.
  assert (Hv : env2 !! "VIRTUAL_ENV" = None) by (apply Hin; listed).
  assert (Hp : env2 !! "VIRTUAL_ENV_PROMPT" = None) by (apply Hin; listed).
  assert (Hpath : env2 !! "PATH" = Some joined).
  { rewrite Hout by unlisted. by rewrite lookup_insert_eq. }
  assert (Hrest : ∀ k, k ∉ virtualenv_variables → env2 !! k = env !! k).
  { intros k Hk. unfold virtualenv_variables in Hk.
    rewrite Hout by unlisted. apply lookup_insert_ne. unlisted. }
  destruct (env2 !! "_OLD_VIRTUAL_PS1") as [[|c r]|]; simpl;
    [done| |done].
  split_and!.
  - by rewrite lookup_delete_ne, lookup_insert_ne.
  - by rewrite lookup_delete_ne, lookup_insert_ne.
  - by rewrite lookup_delete_ne, lookup_insert_ne.
  - intros k Hk. pose proof (Hrest k Hk) as <-.
    unfold virtualenv_variables in Hk.
    rewrite lookup_delete_ne by unlisted.
    apply lookup_insert_ne. unlisted.
Qed.

(** X28.  With [VIRTUAL_ENV] set, [deactivate] leaves the virtualenv: the
    variables [VIRTUAL_ENV] and [VIRTUAL_ENV_PROMPT] are gone, no component
    of [PATH] starts with the [bin] directory of the virtualenv while the
    other components are kept in their order, no variable other than [PATH],
    [PS1] and the three of the virtualenv is touched, and a second
    [deactivate] finds nothing to leave unless a conda environment is
    active. *)
Theorem deactivate_leaves_the_virtualenv
        (env : gmap string string) (venv : string) :
  env !! "VIRTUAL_ENV" = Some venv →
  venv ≠ "" →
  ∃ env' removed_vars,
    _handle_deactivate_command env
    = Deactivated env' "virtualenv/venv" (Py.basename venv) removed_vars
    ∧ env' !! "VIRTUAL_ENV" = None
    ∧ env' !! "VIRTUAL_ENV_PROMPT" = None
    ∧ Forall (λ part, Py.startswith part (path_join venv "bin") = false)
             (path_of env')
    ∧ (List.filter (kept (path_join venv "bin")) (path_of env) ≠ [] →
       path_of env' = List.filter (kept (path_join venv "bin")) (path_of env))
    ∧ (∀ k, k ∉ virtualenv_variables → env' !! k = env !! k)
    ∧ (truthy (env !! "CONDA_DEFAULT_ENV") = false →
       _handle_deactivate_command env' = NothingActive).
Proof.
  intros Hvenv Hne. unfold _handle_deactivate_command at 1. cbv zeta.
  rewrite Hvenv. destruct venv as [|c r] eqn:E; [done|]. rewrite <- E in *.
  replace (truthy (Some venv)) with true by (by rewrite E).
  cbn [negb andb]. change (default "" (Some venv)) with venv.
  pose proof (leave_virtualenv_lookup venv env) as (Hv & Hp & Hpath & Hrest).
  destruct (leave_virtualenv venv env) as [env' removed_vars]. simpl in *.
  exists env', removed_vars.
  set (venv_bin := path_join venv "bin") in *.
  set (parts := List.filter (kept venv_bin) (path_of env)) in *.
  assert (Hparts : Forall (λ part, Py.contains ":" part = false) parts).
  { apply Forall_forall. intros part [Hin _]%list_elem_of_In%filter_In.
    apply (proj1 (Forall_forall _ _)
             (split_on_parts pathsep (default "" (env !! "PATH")))).
    by apply list_elem_of_In. }
  assert (Hkept : Forall (λ part, Py.startswith part venv_bin = false) parts).
  { apply Forall_forall. intros part [_ Hk]%list_elem_of_In%filter_In.
    by apply negb_true_iff. }
  assert (Hsplit : parts ≠ [] → path_of env' = parts).
  { intros Hnil. unfold path_of. rewrite Hpath. simpl.
    by apply (split_on_join pathsep). }
  split_and!; [done | done | done | | done | done |].
  - destruct parts as [|p parts'] eqn:Eparts.
    + unfold path_of. rewrite Hpath. simpl. repeat constructor.
      pose proof (path_join_nonempty venv "bin") as Hb.
      fold venv_bin in Hb. destruct venv_bin; [by destruct Hb|done].
    + by rewrite Hsplit.
  - intros Hconda. unfold _handle_deactivate_command.
    rewrite Hv. rewrite Hrest by (unfold virtualenv_variables; unlisted).
    by rewrite Hconda.
Qed.

(** The virtualenv [/home/u/venv]. *)
Lemma deactivate_leaves_the_virtualenv_witness :
  ∃ env' removed_vars,
    _handle_deactivate_command inside_virtualenv
    = Deactivated env' "virtualenv/venv" "venv" removed_vars
    ∧ env' !! "VIRTUAL_ENV" = None
    ∧ env' !! "VIRTUAL_ENV_PROMPT" = None
    ∧ Forall (λ part, Py.startswith part "/home/u/venv/bin" = false)
             (path_of env')
    ∧ (List.filter (kept "/home/u/venv/bin") (path_of inside_virtualenv) ≠ [] →
       path_of env'
       = List.filter (kept "/home/u/venv/bin") (path_of inside_virtualenv))
    ∧ (∀ k, k ∉ virtualenv_variables → env' !! k = inside_virtualenv !! k)
    ∧ (truthy (inside_virtualenv !! "CONDA_DEFAULT_ENV") = false →
       _handle_deactivate_command env' = NothingActive).
Proof.
  apply (deactivate_leaves_the_virtualenv inside_virtualenv "/home/u/venv");
    [reflexivity | discriminate].
Defined.

End VenvFacts.
